(** * Movie-Tickets: the seat-booking engine of [movie.cpp]

    A shallow embedding of [struct ShowInfo], [class Theater], the helpers
    they use and [class MovieBookingService], followed by the properties of
    the seat-id codec, of the free-seat query, of [Theater::bookSeats], of the
    day queries and of the service.

    Conventions.
    - [std::time_t] and [long] are 64-bit (the non-[_WIN32] branch), [int] is
      32-bit; every one of them is a [Z], and conversions to [int] are written
      with their wrap-around ([int_wrap]).
    - [std::string] is [string]; [std::vector<T>] is [list T], read with
      [!!] and written with [<[ i := x ]>]; the [std::unordered_map] of
      [selectMovie] is a [gmap].
    - [localtime_r], [mktime] and [std::sort] belong to the C and C++ run-time:
      they are section variables; the concrete runs use a UTC clock ([Clock])
      and insertion sort, which honours the contract of [std::sort].
    - [double] is the primitive binary64 type [float].
    - A call that can throw [std::length_error] ends in an [outcome] (with
      the theater it leaves) or, for a [const] query, in a [query_result].
    - A thread is a small state machine over the shared theater and its
      mutex; two threads interleave step by step. *)

From Stdlib Require Import ZArith Lia Bool String Ascii Decimal DecimalString DecimalPos.
From Stdlib Require Import Permutation Sorted FunctionalExtensionality.
From Stdlib Require Import PrimFloat.
From stdpp Require Import base tactics option list relations strings sorting gmap.

#[local] Open Scope string_scope.
#[local] Open Scope Z_scope.

Set Default Proof Using "Type".

(** ** Machine integers *)

Definition INT_MIN : Z := - 2 ^ 31.
Definition INT_MAX : Z := 2 ^ 31 - 1.
Definition LONG_MIN : Z := - 2 ^ 63.
Definition LONG_MAX : Z := 2 ^ 63 - 1.
Definition SIZE_MODULUS : Z := 2 ^ 64.

Definition is_int (z : Z) : Prop := INT_MIN <= z <= INT_MAX.

(** Conversion of an integer value to [int] (two's complement). *)
Definition int_wrap (z : Z) : Z := (z + 2 ^ 31) mod 2 ^ 32 - 2 ^ 31.

(** [static_cast<int>(v.size())] *)
Definition int_of_size (n : nat) : Z := int_wrap (Z.of_nat n).

(** [static_cast<size_t>(i)] for an [int] i *)
Definition size_of_int (i : Z) : Z := i mod SIZE_MODULUS.

Definition int_add (a b : Z) : Z := int_wrap (a + b).
Definition int_sub (a b : Z) : Z := int_wrap (a - b).

(** ** Time: [std::tm] and [HM] *)

Definition time_t : Type := Z.

Record tm : Type := mk_tm {
  tm_sec : Z; tm_min : Z; tm_hour : Z;
  tm_mday : Z; tm_mon : Z; tm_year : Z;
  tm_wday : Z; tm_yday : Z; tm_isdst : Z
}.

(** Hour:Minute pair extracted from a timestamp. *)
Record HM : Type := mk_HM { hm_h : Z; hm_m : Z }.

(** [hm.h == targetHM.h && hm.m == targetHM.m] *)
Definition HM_eqb (a b : HM) : bool :=
  (hm_h a =? hm_h b) && (hm_m a =? hm_m b).

(** ** Strings: [std::to_string], [c_str], [strtol] *)

Definition NUL : ascii := Ascii.zero.

(** [std::to_string(int)]: the decimal digits, with a leading '-' below 0. *)
Definition to_string (z : Z) : string := NilZero.string_of_int (Z.to_int z).

(** The C string seen through [s.c_str()]: the characters before the first
    NUL of the [std::string]. *)
Fixpoint c_str (s : string) : string :=
  match s with
  | EmptyString => EmptyString
  | String c r => if Ascii.eqb c NUL then EmptyString else String c (c_str r)
  end.

(** [isspace] in the "C" locale: space, \t, \n, \v, \f, \r. *)
Definition isspace (c : ascii) : bool :=
  let n := Z.of_nat (nat_of_ascii c) in
  (n =? 32) || ((9 <=? n) && (n <=? 13)).

Definition digit_val (c : ascii) : option Z :=
  let n := Z.of_nat (nat_of_ascii c) in
  if (48 <=? n) && (n <=? 57) then Some (n - 48) else None.

Definition isdigit (c : ascii) : bool :=
  match digit_val c with Some _ => true | None => false end.

Fixpoint skip_space (s : string) : string :=
  match s with
  | String c r => if isspace c then skip_space r else s
  | EmptyString => EmptyString
  end.

(** The digit loop of [strtol]: the value read so far and what is left. *)
Fixpoint strtol_digits (s : string) (acc : Z) : Z * string :=
  match s with
  | String c r =>
      match digit_val c with
      | Some d => strtol_digits r (10 * acc + d)
      | None => (acc, s)
      end
  | EmptyString => (acc, EmptyString)
  end.

Definition long_clamp (z : Z) : Z :=
  if z <? LONG_MIN then LONG_MIN else if LONG_MAX <? z then LONG_MAX else z.

(** The optional sign of [strtol]: whether it is '-', and what follows. *)
Definition strip_sign (s : string) : bool * string :=
  match s with
  | String c r =>
      if Ascii.eqb c "-" then (true, r)
      else if Ascii.eqb c "+" then (false, r)
      else (false, s)
  | EmptyString => (false, s)
  end.

(** [strtol] after the sign: at least one digit, or nothing is converted,
    the result is 0 and [endp] is [nptr]. *)
Definition strtol_after_sign (nptr : string) (neg : bool) (s2 : string)
  : Z * string :=
  match s2 with
  | String c _ =>
      if isdigit c then
        let '(v, endp) := strtol_digits s2 0 in
        (long_clamp (if neg then - v else v), endp)
      else (0, nptr)
  | EmptyString => (0, nptr)
  end.

(** [strtol(nptr, &endp, 10)]: the result and the string [endp] points to.
    White space is skipped, one sign is taken, then the digits; a value
    outside [long] is clamped. *)
Definition strtol10 (nptr : string) : Z * string :=
  let '(neg, s2) := strip_sign (skip_space nptr) in
  strtol_after_sign nptr neg s2.

(** ** [struct ShowInfo] and [class Theater] *)

Record ShowInfo : Type := mk_ShowInfo {
  movieName : string;
  start : time_t;
  price : float;
  freeTickets : Z;
  taken : list bool
}.

Record Theater : Type := mk_Theater {
  theaterName : string;
  maxSeats : Z;
  vShowInfo : list ShowInfo
}.

Definition defaultTheaterCapacity : Z := 20.

(** [Theater(std::string name, int seats)] *)
Definition Theater_new (name : string) (seats : Z) : Theater :=
  {| theaterName := name; maxSeats := seats; vShowInfo := [] |}.

(** Convert 0-based index -> "A1".."A{maxSeats}" *)
Definition makeSeatId (idx : Z) : string :=
  String.append "A" (to_string (int_add idx 1)).

(** Convert "A1".."A{maxSeats}" -> 0-based index; -1 if invalid/out-of-range *)
Definition seatIndexFromId (th : Theater) (id : string) : Z :=
  match id with
  | String c0 rest =>
      if (Nat.ltb (String.length id) 2)
         || (negb (Ascii.eqb c0 "A") && negb (Ascii.eqb c0 "a"))
      then -1
      else
        let '(n, endp) := strtol10 (c_str rest) in
        if negb (String.eqb endp EmptyString) || (n <=? 0) || (n >? maxSeats th)
        then -1
        else int_wrap (n - 1)
  | EmptyString => -1
  end.

(** *** The identifiers [seatIndexFromId] accepts, said without [strtol]

    A C string of decimal digits, possibly after white space and one sign. *)
Fixpoint all_digits (s : string) : bool :=
  match s with
  | EmptyString => true
  | String c r => isdigit c && all_digits r
  end.

Definition is_decimal (s : string) : bool :=
  negb (String.eqb s EmptyString) && all_digits s.

Definition decimal_value (s : string) : Z := fst (strtol_digits s 0).

Definition lenient_decimal (suffix : string) : option Z :=
  let '(neg, ds) := strip_sign (skip_space (c_str suffix)) in
  if is_decimal ds
  then Some (if neg then - decimal_value ds else decimal_value ds)
  else None.

(** The decoder as the amended seat-id rule words it. *)
Definition decode_seat_id (capacity : Z) (id : string) : Z :=
  match id with
  | String c0 suffix =>
      if Ascii.eqb c0 "A" || Ascii.eqb c0 "a" then
        match lenient_decimal suffix with
        | Some n => if (1 <=? n) && (n <=? capacity) then n - 1 else -1
        | None => -1
        end
      else -1
  | EmptyString => -1
  end.

(** The value of a digit sequence of the standard library read after [acc];
    the link between [std::to_string] and the digit loop of [strtol]. *)
Fixpoint uint_value (d : uint) (acc : Z) : Z :=
  match d with
  | Nil => acc
  | D0 r => uint_value r (10 * acc + 0)
  | D1 r => uint_value r (10 * acc + 1)
  | D2 r => uint_value r (10 * acc + 2)
  | D3 r => uint_value r (10 * acc + 3)
  | D4 r => uint_value r (10 * acc + 4)
  | D5 r => uint_value r (10 * acc + 5)
  | D6 r => uint_value r (10 * acc + 6)
  | D7 r => uint_value r (10 * acc + 7)
  | D8 r => uint_value r (10 * acc + 8)
  | D9 r => uint_value r (10 * acc + 9)
  end.

(** [vector<bool>::max_size()] of the C++ run-time; [assign] throws
    [std::length_error] above it.  Every [size_t] obtained from a negative
    [int] is above it, every non-negative [int] is below. *)
Definition vector_bool_max_size : Z := 2 ^ 63 - 64.

(** How a call that may throw ends; the theater is the state it leaves. *)
Inductive outcome : Type :=
| Returned (th : Theater)
| Threw_length_error (th : Theater).

Definition state_of (o : outcome) : Theater :=
  match o with Returned th => th | Threw_length_error th => th end.

(** [ShowInfo(name, stime, price, seats)]: [taken] starts empty. *)
Definition ShowInfo_new (name : string) (stime : time_t) (p : float) (seats : Z)
  : ShowInfo :=
  {| movieName := name; start := stime; price := p;
     freeTickets := seats; taken := [] |}.

Definition set_taken (s : ShowInfo) (tk : list bool) : ShowInfo :=
  {| movieName := movieName s; start := start s; price := price s;
     freeTickets := freeTickets s; taken := tk |}.

Definition set_freeTickets (s : ShowInfo) (n : Z) : ShowInfo :=
  {| movieName := movieName s; start := start s; price := price s;
     freeTickets := n; taken := taken s |}.

Definition set_shows (th : Theater) (v : list ShowInfo) : Theater :=
  {| theaterName := theaterName th; maxSeats := maxSeats th; vShowInfo := v |}.

(** [addShowInfo(name, start_t, price)].  [emplace_back] comes first, so the
    show is in the vector even when [assign] throws; it then keeps the empty
    [taken] and the [freeTickets] of its constructor. *)
Definition addShowInfo (th : Theater) (name : string) (start_t : time_t)
    (p : float) : outcome :=
  let s0 := ShowInfo_new name start_t p (maxSeats th) in
  let n := size_of_int (maxSeats th) in
  if vector_bool_max_size <? n then
    Threw_length_error (set_shows th (vShowInfo th ++ [s0]))
  else
    let s1 := set_taken s0 (replicate (Z.to_nat n) false) in
    let s2 := set_freeTickets s1 (maxSeats th) in
    Returned (set_shows th (vShowInfo th ++ [s2])).

(** [s.taken[i]]; the callers check the index first. *)
Definition taken_at (s : ShowInfo) (i : nat) : bool :=
  default false (taken s !! i).

(** [vector<std::string>::max_size()] of the C++ run-time; [reserve] throws
    [std::length_error] above it.  Every [size_t] obtained from a negative
    [int] is above it, every non-negative [int] is below. *)
Definition vector_string_max_size : Z := 2 ^ 58 - 1.

(** How a [const] query that may throw ends: it leaves no state. *)
Inductive query_result (A : Type) : Type :=
| Answered (a : A)
| Query_threw_length_error.
Arguments Answered {A} a.
Arguments Query_threw_length_error {A}.

(** The loop over [0 <= i < maxSeats] in [availableSeatIds]. *)
Definition free_ids_loop (th : Theater) (s : ShowInfo) : list string :=
  map (fun i => makeSeatId (Z.of_nat i))
      (List.filter
         (fun i => (Z.of_nat i <? int_of_size (length (taken s)))
                   && negb (taken_at s i))
         (seq 0 (Z.to_nat (maxSeats th)))).

(** The body of the [if] in [availableSeatIds]:
    [ids.reserve(static_cast<size_t>(maxSeats))], which throws when the
    converted capacity is above [max_size()], then the loop. *)
Definition free_ids_of (th : Theater) (s : ShowInfo)
  : query_result (list string) :=
  if vector_string_max_size <? size_of_int (maxSeats th)
  then Query_threw_length_error
  else Answered (free_ids_loop th s).

(** The test of [availableSeatIds] on one show. *)
Definition same_show (moviename : string) (start_t : time_t) (s : ShowInfo)
  : bool :=
  String.eqb (movieName s) moviename && (start s =? start_t).

(** [availableSeatIds(moviename, start)]: the first show that matches, then
    [break]; no show that matches leaves [ids] empty. *)
Fixpoint availableSeatIds_loop (th : Theater) (shows : list ShowInfo)
    (moviename : string) (start_t : time_t) : query_result (list string) :=
  match shows with
  | [] => Answered []
  | s :: rest =>
      if same_show moviename start_t s
      then free_ids_of th s
      else availableSeatIds_loop th rest moviename start_t
  end.

Definition availableSeatIds (th : Theater) (moviename : string)
    (start_t : time_t) : query_result (list string) :=
  availableSeatIds_loop th (vShowInfo th) moviename start_t.

(** The number of free seats in a seat map: the [false] entries. *)
Definition count_free (tk : list bool) : Z :=
  Z.of_nat (length (List.filter negb tk)).

(** ** Two instances of the run-time

    [Clock]: a UTC clock whose [tm] counts the days since the epoch in
    [tm_mday] (January 1970 with as many days as needed; [mktime] accepts
    such a date). *)
Module Clock.
Definition localtime_r (t : time_t) : tm :=
  {| tm_sec := t mod 60; tm_min := (t / 60) mod 60; tm_hour := (t / 3600) mod 24;
     tm_mday := t / 86400 + 1; tm_mon := 0; tm_year := 70;
     tm_wday := (t / 86400 + 4) mod 7; tm_yday := t / 86400; tm_isdst := 0 |}.

Definition mktime (d : tm) : time_t :=
  (((tm_mday d - 1) * 24 + tm_hour d) * 60 + tm_min d) * 60 + tm_sec d.

(** The instant of day [d] (counted from the epoch) at [hh]:[mm]. *)
Definition at_time (d hh mm : Z) : time_t := (d * 24 + hh) * 3600 + mm * 60.
End Clock.

(** Insertion sort, one admissible behaviour of [std::sort]. *)
Fixpoint insert_sorted (lt : nat -> nat -> bool) (x : nat) (l : list nat)
  : list nat :=
  match l with
  | [] => [x]
  | y :: r => if lt y x then y :: insert_sorted lt x r else x :: l
  end.

Definition insertion_sort (lt : nat -> nat -> bool) (l : list nat) : list nat :=
  foldr (insert_sorted lt) [] l.

(** What the C++ standard asks of a comparator: a strict weak ordering. *)
Definition strict_weak_order (lt : nat -> nat -> bool) : Prop :=
  (forall a, lt a a = false)
  /\ (forall a b c, lt a b = true -> lt b c = true -> lt a c = true)
  /\ (forall a b c, lt a b = false -> lt b a = false ->
                    lt b c = false -> lt c b = false ->
                    lt a c = false /\ lt c a = false).

(** What the C++ standard promises of [std::sort]: the elements are kept, and
    under a strict weak ordering no later element compares less than an
    earlier one.  Nothing is promised on the order of equivalent elements. *)
Definition sort_contract (sort : (nat -> nat -> bool) -> list nat -> list nat)
  : Prop :=
  forall lt l,
    Permutation (sort lt l) l
    /\ (strict_weak_order lt ->
        forall i j a b, (i < j)%nat ->
          sort lt l !! i = Some a -> sort lt l !! j = Some b -> lt b a = false).

(** The shape every theater built through the public calls has: the capacity
    is an [int], and every seat map has as many entries as the capacity
    (none when the capacity is negative). *)
Definition theater_ok (th : Theater) : Prop :=
  is_int (maxSeats th)
  /\ Forall (fun s => length (taken s) = Z.to_nat (maxSeats th)) (vShowInfo th).

(** The invariant on [freeTickets]: it is the number of [false] entries of
    the seat map, in every show. *)
Definition free_count_ok (th : Theater) : Prop :=
  Forall (fun s => freeTickets s = count_free (taken s)) (vShowInfo th).

(** [k] is the first show of the theater with this exact title and start. *)
Definition first_show (th : Theater) (moviename : string) (start_t : time_t)
    (k : nat) (s : ShowInfo) : Prop :=
  vShowInfo th !! k = Some s
  /\ same_show moviename start_t s = true
  /\ forall j s', (j < k)%nat -> vShowInfo th !! j = Some s' ->
       same_show moviename start_t s' = false.

(** Three shows of one title on one day, added at 18:00, 10:00 and 14:00. *)
Definition three_shows : Theater :=
  {| theaterName := "Apsara"; maxSeats := 6;
     vShowInfo :=
       [ {| movieName := "Inception"; start := Clock.at_time 20000 18 0;
            price := 15; freeTickets := 6; taken := replicate 6 false |};
         {| movieName := "Inception"; start := Clock.at_time 20000 10 0;
            price := 15; freeTickets := 6; taken := replicate 6 false |};
         {| movieName := "Inception"; start := Clock.at_time 20000 14 0;
            price := 15; freeTickets := 6; taken := replicate 6 false |} ] |}.

Section Engine.
Variable localtime_r : time_t -> tm.
Variable mktime : tm -> time_t.
(** [std::sort(first, last, comp)] on a vector of indices. *)
Variable std_sort : (nat -> nat -> bool) -> list nat -> list nat.

(** Normalize a timestamp to local midnight (00:00:00) for its day. *)
Definition toLocalMidnight (t : time_t) : time_t :=
  let tm_local := localtime_r t in
  mktime {| tm_sec := 0; tm_min := 0; tm_hour := 0;
            tm_mday := tm_mday tm_local; tm_mon := tm_mon tm_local;
            tm_year := tm_year tm_local; tm_wday := tm_wday tm_local;
            tm_yday := tm_yday tm_local; tm_isdst := tm_isdst tm_local |}.

(** Extract local hour/minute from a timestamp. *)
Definition hour_min_local (t : time_t) : HM :=
  let tm_local := localtime_r t in
  {| hm_h := tm_hour tm_local; hm_m := tm_min tm_local |}.

(** [addShowInfo(name, DateTime stime, price)] *)
Definition addShowInfo_tm (th : Theater) (name : string) (stime : tm)
    (p : float) : outcome :=
  addShowInfo th name (mktime stime) p.

(** The condition that makes a show a candidate. *)
Definition on_day (moviename : string) (targetDate : time_t) (s : ShowInfo)
  : bool :=
  String.eqb (movieName s) moviename
  && (toLocalMidnight (start s) =? targetDate).

Definition hasShowOnDay (th : Theater) (moviename : string) (day : time_t)
  : bool :=
  existsb (on_day moviename (toLocalMidnight day)) (vShowInfo th).

Definition getListofMovieShowsOn (th : Theater) (moviename : string)
    (day : time_t) : list ShowInfo :=
  List.filter (on_day moviename (toLocalMidnight day)) (vShowInfo th).

(** A show that time-match mode may select: a candidate with the hour and
    minute of [dt]. *)
Definition time_match (moviename : string) (dt : time_t) (s : ShowInfo) : bool :=
  on_day moviename (toLocalMidnight dt) s
  && HM_eqb (hour_min_local (start s)) (hour_min_local dt).

(** The first loop of [bookSeats]: the indices of the candidates. *)
Definition candidates_of (th : Theater) (moviename : string)
    (targetDate : time_t) : list nat :=
  List.filter
    (fun i => match vShowInfo th !! i with
              | Some s => on_day moviename targetDate s
              | None => false
              end)
    (seq 0 (length (vShowInfo th))).

Definition start_at (th : Theater) (i : nat) : time_t :=
  match vShowInfo th !! i with Some s => start s | None => 0 end.

(** The comparator given to [std::sort]. *)
Definition by_start (th : Theater) (a b : nat) : bool :=
  start_at th a <? start_at th b.

(** Time-match mode: the first candidate with the hour and minute of [dt]. *)
Fixpoint first_hm_match (th : Theater) (targetHM : HM) (cands : list nat)
  : option nat :=
  match cands with
  | [] => None
  | idx :: rest =>
      if HM_eqb (hour_min_local (start_at th idx)) targetHM
      then Some idx
      else first_hm_match th targetHM rest
  end.

(** [bookSeats] up to the lock: which show is meant.  [None] stands for the
    early [return false]; the sentinel [static_cast<size_t>(-1)] of
    [chosenIdx] is [None] too. *)
Definition chooseShow (th : Theater) (moviename : string) (dt : time_t)
    (show_no : Z) : option nat :=
  let targetDate := toLocalMidnight dt in
  let candidates := candidates_of th moviename targetDate in
  match candidates with
  | [] => None
  | _ :: _ =>
      if show_no =? 0 then
        first_hm_match th (hour_min_local dt) candidates
      else if show_no <=? 0 then None
      else
        let sorted := std_sort (by_start th) candidates in
        if size_of_int show_no >? Z.of_nat (length sorted) then None
        else sorted !! Z.to_nat (size_of_int show_no - 1)
  end.

(** The validation loop: every id decoded and checked against the show. *)
Fixpoint validate_seats (th : Theater) (show : ShowInfo) (seatIds : list string)
  : option (list Z) :=
  match seatIds with
  | [] => Some []
  | id :: rest =>
      let idx := seatIndexFromId th id in
      if (idx <? 0) || (idx >=? maxSeats th) then None
      else if idx >=? int_of_size (length (taken show)) then None
      else if taken_at show (Z.to_nat idx) then None
      else match validate_seats th show rest with
           | Some idxs => Some (idx :: idxs)
           | None => None
           end
  end.

(** [for (int idx : idxs) show.taken[idx] = true;] *)
Definition mark_taken (tk : list bool) (idxs : list Z) : list bool :=
  fold_left (fun t idx => <[Z.to_nat idx := true]> t) idxs tk.

Definition book_show (show : ShowInfo) (idxs : list Z) : ShowInfo :=
  {| movieName := movieName show; start := start show; price := price show;
     freeTickets := int_sub (freeTickets show) (int_of_size (length idxs));
     taken := mark_taken (taken show) idxs |}.

(** [bookSeats] from the lock on: the show is looked at again, the ids are
    validated, and only then the seats are written. *)
Definition book_locked (th : Theater) (moviename : string) (dt : time_t)
    (seatIds : list string) (show_no : Z) (chosenIdx : nat)
  : bool * Theater :=
  let targetDate := toLocalMidnight dt in
  match vShowInfo th !! chosenIdx with
  | None => (false, th)
  | Some show =>
      if negb (String.eqb (movieName show) moviename)
         || negb (toLocalMidnight (start show) =? targetDate)
      then (false, th)
      else if (show_no =? 0)
              && negb (HM_eqb (hour_min_local (start show)) (hour_min_local dt))
      then (false, th)
      else match validate_seats th show seatIds with
           | None => (false, th)
           | Some idxs =>
               (true, set_shows th (<[chosenIdx := book_show show idxs]> (vShowInfo th)))
           end
  end.

(** [Theater::bookSeats(moviename, dt, seatIds, show_no)]: the result and
    the theater afterwards. *)
Definition bookSeats (th : Theater) (moviename : string) (dt : time_t)
    (seatIds : list string) (show_no : Z) : bool * Theater :=
  match seatIds with
  | [] => (false, th)
  | _ :: _ =>
      match chooseShow th moviename dt show_no with
      | None => (false, th)
      | Some chosenIdx => book_locked th moviename dt seatIds show_no chosenIdx
      end
  end.

(** *** Sequences of calls *)

Inductive call : Type :=
| Call_addShowInfo (name : string) (start_t : time_t) (p : float)
| Call_addShowInfo_tm (name : string) (stime : tm) (p : float)
| Call_bookSeats (moviename : string) (dt : time_t) (seatIds : list string)
    (show_no : Z).

Definition run_call (th : Theater) (c : call) : Theater :=
  match c with
  | Call_addShowInfo name start_t p => state_of (addShowInfo th name start_t p)
  | Call_addShowInfo_tm name stime p => state_of (addShowInfo_tm th name stime p)
  | Call_bookSeats moviename dt seatIds show_no =>
      snd (bookSeats th moviename dt seatIds show_no)
  end.

Definition run_calls (th : Theater) (cs : list call) : Theater :=
  fold_left run_call cs th.

(** A call whose request, if it is a booking, decodes to pairwise distinct
    indices. *)
Definition distinct_request (th : Theater) (c : call) : Prop :=
  match c with
  | Call_bookSeats _ _ seatIds _ => NoDup (map (seatIndexFromId th) seatIds)
  | _ => True
  end.

(** *** Two threads in [bookSeats]

    The threads share the theater and its mutex [mtx_].  A thread runs
    [bookSeats] in four steps: the statements before the lock, which only
    read; the [std::lock_guard], which waits for the mutex; the checks made
    under the lock, which only read; and the writes, after which the guard
    releases the mutex on [return].  A [return false] under the lock releases
    it as well.  What the first step reads (the length of the vector, titles
    and starts) is written by no call to [bookSeats], so taking it as one step
    loses no interleaving. *)

Record request : Type := mk_request {
  rq_moviename : string;
  rq_dt : time_t;
  rq_seatIds : list string;
  rq_show_no : Z
}.

Inductive pc : Type :=
| Start
| WantLock (chosenIdx : nat)
| LockedCheck (chosenIdx : nat)
| LockedWrite (chosenIdx : nat) (idxs : list Z)
| Done (result : bool).

Record shared : Type := mk_shared {
  sh_theater : Theater;
  sh_locked : bool
}.

Definition in_critical (p : pc) : bool :=
  match p with
  | LockedCheck _ | LockedWrite _ _ => true
  | _ => false
  end.

(** The statements between the lock and the writes: [None] for a
    [return false], else the decoded indices. *)
Definition locked_check (th : Theater) (rq : request) (chosenIdx : nat)
  : option (list Z) :=
  match vShowInfo th !! chosenIdx with
  | None => None
  | Some show =>
      if negb (String.eqb (movieName show) (rq_moviename rq))
         || negb (toLocalMidnight (start show) =? toLocalMidnight (rq_dt rq))
      then None
      else if (rq_show_no rq =? 0)
              && negb (HM_eqb (hour_min_local (start show))
                              (hour_min_local (rq_dt rq)))
      then None
      else validate_seats th show (rq_seatIds rq)
  end.

(** The writes, through the reference [show] into the vector. *)
Definition locked_write (th : Theater) (chosenIdx : nat) (idxs : list Z)
  : Theater :=
  match vShowInfo th !! chosenIdx with
  | Some show => set_shows th (<[chosenIdx := book_show show idxs]> (vShowInfo th))
  | None => th
  end.

(** One step of a thread; [None] when it cannot move: it has returned, or it
    waits for a mutex that is held. *)
Definition thread_step (rq : request) (sh : shared) (p : pc)
  : option (shared * pc) :=
  match p with
  | Start =>
      match rq_seatIds rq with
      | [] => Some (sh, Done false)
      | _ :: _ =>
          match chooseShow (sh_theater sh) (rq_moviename rq) (rq_dt rq)
                  (rq_show_no rq) with
          | None => Some (sh, Done false)
          | Some chosenIdx => Some (sh, WantLock chosenIdx)
          end
      end
  | WantLock chosenIdx =>
      if sh_locked sh then None
      else Some ({| sh_theater := sh_theater sh; sh_locked := true |},
                 LockedCheck chosenIdx)
  | LockedCheck chosenIdx =>
      match locked_check (sh_theater sh) rq chosenIdx with
      | None =>
          Some ({| sh_theater := sh_theater sh; sh_locked := false |}, Done false)
      | Some idxs => Some (sh, LockedWrite chosenIdx idxs)
      end
  | LockedWrite chosenIdx idxs =>
      Some ({| sh_theater := locked_write (sh_theater sh) chosenIdx idxs;
               sh_locked := false |},
            Done true)
  | Done _ => None
  end.

(** Two threads and what they share. *)
Record config : Type := mk_config {
  cf_shared : shared;
  cf_first : pc;
  cf_second : pc
}.

(** Any thread that can move may move next. *)
Inductive step (rq1 rq2 : request) : config -> config -> Prop :=
| step_first (c : config) (sh' : shared) (p' : pc) :
    thread_step rq1 (cf_shared c) (cf_first c) = Some (sh', p') ->
    step rq1 rq2 c {| cf_shared := sh'; cf_first := p'; cf_second := cf_second c |}
| step_second (c : config) (sh' : shared) (p' : pc) :
    thread_step rq2 (cf_shared c) (cf_second c) = Some (sh', p') ->
    step rq1 rq2 c {| cf_shared := sh'; cf_first := cf_first c; cf_second := p' |}.

Definition two_calls (th : Theater) : config :=
  {| cf_shared := {| sh_theater := th; sh_locked := false |};
     cf_first := Start; cf_second := Start |}.

Definition is_done (p : pc) : bool :=
  match p with Done _ => true | _ => false end.

Definition all_done (c : config) : bool :=
  is_done (cf_first c) && is_done (cf_second c).

(** The steps a thread still has to make. *)
Definition steps_left (p : pc) : nat :=
  match p with
  | Start => 4 | WantLock _ => 3 | LockedCheck _ => 2 | LockedWrite _ _ => 1
  | Done _ => 0
  end.

Definition steps_left_all (c : config) : nat :=
  (steps_left (cf_first c) + steps_left (cf_second c))%nat.

(** A schedule names the thread to move next ([false] the first, [true] the
    second); a thread that cannot move is passed over. *)
Definition run_scheduled (rq1 rq2 : request) (c : config) (second : bool)
  : config :=
  if second then
    match thread_step rq2 (cf_shared c) (cf_second c) with
    | Some (sh', p') =>
        {| cf_shared := sh'; cf_first := cf_first c; cf_second := p' |}
    | None => c
    end
  else
    match thread_step rq1 (cf_shared c) (cf_first c) with
    | Some (sh', p') =>
        {| cf_shared := sh'; cf_first := p'; cf_second := cf_second c |}
    | None => c
    end.

Definition run_schedule (rq1 rq2 : request) (schedule : list bool) (c : config)
  : config :=
  fold_left (run_scheduled rq1 rq2) schedule c.

(** The shapes two threads with one request for one seat can take: where a
    thread is, whether the seat is booked, whether the mutex is held.  [k] is
    the show resolved, [idx] the index decoded, [th] the theater before and
    [th'] after the booking. *)
Inductive place : Type :=
| AtStart | AtWantLock | AtCheck | AtWrite | AtDone (result : bool).

Definition pc_of (k : nat) (idx : Z) (a : place) : pc :=
  match a with
  | AtStart => Start
  | AtWantLock => WantLock k
  | AtCheck => LockedCheck k
  | AtWrite => LockedWrite k [idx]
  | AtDone b => Done b
  end.

Definition shared_of (th th' : Theater) (booked locked : bool) : shared :=
  {| sh_theater := if booked then th' else th; sh_locked := locked |}.

Definition place_step (booked locked : bool) (a : place)
  : option (bool * bool * place) :=
  match a with
  | AtStart => Some (booked, locked, AtWantLock)
  | AtWantLock => if locked then None else Some (booked, true, AtCheck)
  | AtCheck =>
      if booked then Some (booked, false, AtDone false)
      else Some (booked, locked, AtWrite)
  | AtWrite => Some (true, false, AtDone true)
  | AtDone _ => None
  end.

Definition place_critical (a : place) : bool :=
  match a with AtCheck | AtWrite => true | _ => false end.

Definition place_won (a : place) : bool :=
  match a with AtDone true => true | _ => false end.

Definition place_lost (a : place) : bool :=
  match a with AtDone false => true | _ => false end.

Definition place_writes (a : place) : bool :=
  match a with AtWrite => true | _ => false end.

(** The shapes that can be reached: the mutex is held exactly when one thread
    is under the lock, and never by two; the seat is booked exactly when one
    thread has won, and never two; a thread about to write sees the seat free;
    a thread that lost has seen it booked. *)
Definition reachable_shape (booked locked : bool) (a1 a2 : place) : bool :=
  Bool.eqb locked (place_critical a1 || place_critical a2)
  && negb (place_critical a1 && place_critical a2)
  && Bool.eqb booked (place_won a1 || place_won a2)
  && negb (place_won a1 && place_won a2)
  && implb (place_writes a1 || place_writes a2) (negb booked)
  && implb (place_lost a1 || place_lost a2) booked.

(** *** The other queries of [Theater] and the date helpers *)

(** [std::sort(names.begin(), names.end())] on strings.  [operator<] on
    [std::string] is a total order and equal strings are identical, so the
    contract of [std::sort] leaves one result, the ascending rearrangement
    (see [sort_strings_unique]); merge sort computes it. *)
Definition sort_strings (names : list string) : list string :=
  merge_sort String.le names.

(** [std::unique]: of each run of equal neighbours the first is kept. *)
Fixpoint unique_from (kept : string) (l : list string) : list string :=
  match l with
  | [] => []
  | y :: r =>
      if String.eqb kept y then unique_from kept r else y :: unique_from y r
  end.

Definition unique (l : list string) : list string :=
  match l with
  | [] => []
  | x :: r => x :: unique_from x r
  end.

(** The test [toLocalMidnight(s.start) == day0]. *)
Definition starts_on (day0 : time_t) (s : ShowInfo) : bool :=
  toLocalMidnight (start s) =? day0.

(** [getMovieListOn(day)]: the titles of the day, sorted, duplicates erased. *)
Definition getMovieListOn (th : Theater) (day : time_t) : list string :=
  let day0 := toLocalMidnight day in
  let names := map movieName (List.filter (starts_on day0) (vShowInfo th)) in
  unique (sort_strings names).

(** [getListOfShowsOn(day)]: copies of the shows of the day, any title. *)
Definition getListOfShowsOn (th : Theater) (day : time_t) : list ShowInfo :=
  List.filter (starts_on (toLocalMidnight day)) (vShowInfo th).

(** [make_today_tm(h, m)]; [now] is what [std::time(nullptr)] answers. *)
Definition make_today_tm (now : time_t) (h m : Z) : tm :=
  let lt := localtime_r now in
  {| tm_sec := 0; tm_min := m; tm_hour := h;
     tm_mday := tm_mday lt; tm_mon := tm_mon lt; tm_year := tm_year lt;
     tm_wday := tm_wday lt; tm_yday := tm_yday lt; tm_isdst := tm_isdst lt |}.

(** [getTodaysDate(h, m)]; [now_t] is the reading of the system clock, [None]
    the exception [std::out_of_range]. *)
Definition getTodaysDate (now_t : time_t) (h m : Z) : option time_t :=
  if (h <? 0) || (h >? 23) || (m <? 0) || (m >? 59) then None
  else
    let tm_local := localtime_r now_t in
    Some (mktime {| tm_sec := 0; tm_min := m; tm_hour := h;
                    tm_mday := tm_mday tm_local; tm_mon := tm_mon tm_local;
                    tm_year := tm_year tm_local; tm_wday := tm_wday tm_local;
                    tm_yday := tm_yday tm_local;
                    tm_isdst := tm_isdst tm_local |}).

(** A theater [th'] that continues [th]: the shows of [th] are still there, at
    their index, with their title, start, price and number of seats, and no
    seat taken in [th] is free in [th']. *)
Definition continues (th th' : Theater) : Prop :=
  theaterName th' = theaterName th
  /\ maxSeats th' = maxSeats th
  /\ forall j s, vShowInfo th !! j = Some s ->
       exists s', vShowInfo th' !! j = Some s'
         /\ movieName s' = movieName s /\ start s' = start s
         /\ price s' = price s
         /\ length (taken s') = length (taken s)
         /\ forall i, taken s !! i = Some true -> taken s' !! i = Some true.

(** *** [class MovieBookingService]

    The service is its vector of theaters.  [emplace_back] may move the
    theaters; the move constructor keeps name, capacity and shows. *)

Abbreviation MovieBookingService := (list Theater).

(** [MovieBookingService()] *)
Definition MovieBookingService_new : MovieBookingService := [].

(** [std::find_if] with [th.getTheaterName() == theater]: the first such
    theater and its index. *)
Definition find_theater (svc : MovieBookingService) (theater : string)
  : option (nat * Theater) :=
  list_find (fun th => theaterName th = theater) svc.

(** [addTheater(theater, capacity)] *)
Definition addTheater (svc : MovieBookingService) (theater : string)
    (capacity : Z) : MovieBookingService :=
  match find_theater svc theater with
  | None => (svc ++ [Theater_new theater capacity])%list
  | Some _ => svc
  end.

Inductive service_outcome : Type :=
| Service_returned (svc : MovieBookingService)
| Service_threw_length_error (svc : MovieBookingService).

Definition service_of (o : service_outcome) : MovieBookingService :=
  match o with
  | Service_returned svc => svc
  | Service_threw_length_error svc => svc
  end.

(** The theater the two [addShowInfo] of the service work on: the one found,
    or a new one of the default capacity at the end of the vector. *)
Definition find_or_emplace (svc : MovieBookingService) (theater : string)
  : MovieBookingService * nat :=
  match find_theater svc theater with
  | Some (i, _) => (svc, i)
  | None =>
      ((svc ++ [Theater_new theater defaultTheaterCapacity])%list, length svc)
  end.

(** [MovieBookingService::addShowInfo(theater, movie, start_t, price)] *)
Definition Service_addShowInfo (svc : MovieBookingService) (theater : string)
    (movie : string) (start_t : time_t) (p : float) : service_outcome :=
  let '(svc1, i) := find_or_emplace svc theater in
  match svc1 !! i with
  | Some th =>
      match addShowInfo th movie start_t p with
      | Returned th' => Service_returned (<[i := th']> svc1)
      | Threw_length_error th' => Service_threw_length_error (<[i := th']> svc1)
      end
  | None => Service_returned svc1
  end.

(** [MovieBookingService::addShowInfo(theater, movie, DateTime stime, price)] *)
Definition Service_addShowInfo_tm (svc : MovieBookingService) (theater : string)
    (movie : string) (stime : tm) (p : float) : service_outcome :=
  Service_addShowInfo svc theater movie (mktime stime) p.

(** [MovieBookingService::bookSeats(theater, moviename, dt, seatIds, show_no)]:
    the result and the service afterwards. *)
Definition Service_bookSeats (svc : MovieBookingService) (theater : string)
    (moviename : string) (dt : time_t) (seatIds : list string) (show_no : Z)
  : bool * MovieBookingService :=
  match find_theater svc theater with
  | None => (false, svc)
  | Some (i, th) =>
      let r := bookSeats th moviename dt seatIds show_no in
      (fst r, <[i := snd r]> svc)
  end.

(** [listMovies(day)] *)
Definition listMovies (svc : MovieBookingService) (day : time_t) : list string :=
  unique (sort_strings (concat (map (fun t => getMovieListOn t day) svc))).

(** [listTheatersShowingMovie(movie, day)] *)
Definition listTheatersShowingMovie (svc : MovieBookingService) (movie : string)
    (day : time_t) : list string :=
  unique (sort_strings
            (map theaterName
               (List.filter (fun t => hasShowOnDay t movie day) svc))).

(** [selectMovie(movie, day)].  The [std::unordered_map] is a [gmap];
    [emplace] leaves a key that is present as it is. *)
Definition emplace (name : string) (shows : list ShowInfo)
    (result : gmap string (list ShowInfo)) : gmap string (list ShowInfo) :=
  match result !! name with
  | Some _ => result
  | None => <[name := shows]> result
  end.

Definition selectMovie_step (movie : string) (day : time_t)
    (result : gmap string (list ShowInfo)) (t : Theater)
  : gmap string (list ShowInfo) :=
  let shows := getListofMovieShowsOn t movie day in
  match shows with
  | [] => result
  | _ :: _ => emplace (theaterName t) shows result
  end.

Definition selectMovie (svc : MovieBookingService) (movie : string)
    (day : time_t) : gmap string (list ShowInfo) :=
  fold_left (selectMovie_step movie day) svc ∅.

(** On a given day, per-show seat availability ([struct ShowSeatsAvailable]). *)
Record ShowSeatsAvailable : Type := mk_ShowSeatsAvailable {
  avail_start : time_t;
  avail_price : float;
  seats : list string
}.

(** What the C++ standard asks of a comparator and promises of [std::sort],
    for the vectors of shows the service sorts. *)
Definition strict_weak_order_on {A} (lt : A -> A -> bool) : Prop :=
  (forall a, lt a a = false)
  /\ (forall a b c, lt a b = true -> lt b c = true -> lt a c = true)
  /\ (forall a b c, lt a b = false -> lt b a = false ->
                    lt b c = false -> lt c b = false ->
                    lt a c = false /\ lt c a = false).

Definition sort_contract_on {A} (sort : (A -> A -> bool) -> list A -> list A)
  : Prop :=
  forall lt l,
    Permutation (sort lt l) l
    /\ (strict_weak_order_on lt ->
        forall i j a b, (i < j)%nat ->
          sort lt l !! i = Some a -> sort lt l !! j = Some b -> lt b a = false).

(** Insertion sort on any type, for the concrete runs. *)
Fixpoint insert_sorted_on {A} (lt : A -> A -> bool) (x : A) (l : list A)
  : list A :=
  match l with
  | [] => [x]
  | y :: r => if lt y x then y :: insert_sorted_on lt x r else x :: l
  end.

Definition insertion_sort_on {A} (lt : A -> A -> bool) (l : list A) : list A :=
  foldr (insert_sorted_on lt) [] l.

(** The loop of [seatsAvailable] over the shows of the title: one entry
    for every show, unless [availableSeatIds] throws. *)
Fixpoint seatsAvailable_loop (th : Theater) (movie : string)
    (shows : list ShowInfo) : query_result (list ShowSeatsAvailable) :=
  match shows with
  | [] => Answered []
  | s :: rest =>
      match availableSeatIds th movie (start s) with
      | Query_threw_length_error => Query_threw_length_error
      | Answered freeIds =>
          match seatsAvailable_loop th movie rest with
          | Query_threw_length_error => Query_threw_length_error
          | Answered tickets =>
              Answered ({| avail_start := start s; avail_price := price s;
                           seats := freeIds |} :: tickets)
          end
      end
  end.

Section Service.
(** [std::sort] on a [std::vector<ShowInfo>] and on a
    [std::vector<ShowSeatsAvailable>]. *)
Variable sort_shows : (ShowInfo -> ShowInfo -> bool) -> list ShowInfo -> list ShowInfo.
Variable sort_tickets :
  (ShowSeatsAvailable -> ShowSeatsAvailable -> bool) ->
  list ShowSeatsAvailable -> list ShowSeatsAvailable.

(** [selectTheater(theater, day)] *)
Definition selectTheater (svc : MovieBookingService) (theater : string)
    (day : time_t) : list ShowInfo :=
  match find_theater svc theater with
  | None => []
  | Some (_, th) =>
      sort_shows (fun a b => start a <? start b) (getListOfShowsOn th day)
  end.

(** [seatsAvailable(theater, movie, day)]; both branches of the [if] on
    [freeIds.empty()] append the entry, and an exception of
    [availableSeatIds] leaves the call. *)
Definition seatsAvailable (svc : MovieBookingService) (theater : string)
    (movie : string) (day : time_t) : query_result (list ShowSeatsAvailable) :=
  match find_theater svc theater with
  | None => Answered []
  | Some (_, th) =>
      let shows := getListofMovieShowsOn th movie day in
      match seatsAvailable_loop th movie shows with
      | Query_threw_length_error => Query_threw_length_error
      | Answered tickets =>
          Answered (sort_tickets (fun a b => avail_start a <? avail_start b)
                      tickets)
      end
  end.
End Service.

(** Calls on the service, in sequence. *)
Inductive service_call : Type :=
| SCall_addTheater (theater : string) (capacity : Z)
| SCall_addShowInfo (theater movie : string) (start_t : time_t) (p : float)
| SCall_addShowInfo_tm (theater movie : string) (stime : tm) (p : float)
| SCall_bookSeats (theater moviename : string) (dt : time_t)
    (seatIds : list string) (show_no : Z).

Definition run_service_call (svc : MovieBookingService) (c : service_call)
  : MovieBookingService :=
  match c with
  | SCall_addTheater theater capacity => addTheater svc theater capacity
  | SCall_addShowInfo theater movie start_t p =>
      service_of (Service_addShowInfo svc theater movie start_t p)
  | SCall_addShowInfo_tm theater movie stime p =>
      service_of (Service_addShowInfo_tm svc theater movie stime p)
  | SCall_bookSeats theater moviename dt seatIds show_no =>
      snd (Service_bookSeats svc theater moviename dt seatIds show_no)
  end.

Definition run_service_calls (svc : MovieBookingService)
    (cs : list service_call) : MovieBookingService :=
  fold_left run_service_call cs svc.

(** * Properties *)

(** ** Machine integers *)

Lemma int_wrap_id (z : Z) : is_int z -> int_wrap z = z.
Proof.
  unfold is_int, int_wrap, INT_MIN, INT_MAX. intros H.
  rewrite Z.mod_small; lia.
Qed.

Lemma int_wrap_le_nat (n : nat) : int_of_size n <= Z.of_nat n.
Proof.
  unfold int_of_size, int_wrap.
  pose proof (Z.mod_le (Z.of_nat n + 2 ^ 31) (2 ^ 32)).
  pose proof (Z.mod_pos_bound (Z.of_nat n + 2 ^ 31) (2 ^ 32)).
  lia.
Qed.

Lemma long_clamp_id (z : Z) : LONG_MIN <= z <= LONG_MAX -> long_clamp z = z.
Proof.
  unfold long_clamp. intros H.
  destruct (Z.ltb_spec z LONG_MIN); [lia|].
  destruct (Z.ltb_spec LONG_MAX z); [lia|]. reflexivity.
Qed.

(** ** Decimal digits: [std::to_string] against [strtol] *)

Lemma strtol_digits_uint (d : uint) (acc : Z) :
  strtol_digits (NilEmpty.string_of_uint d) acc = (uint_value d acc, EmptyString).
Proof.
  revert acc. induction d; intros acc; simpl; try reflexivity; apply IHd.
Qed.

Lemma uint_value_acc (d : uint) (acc : positive) :
  uint_value d (Z.pos acc) = Z.pos (Pos.of_uint_acc d acc).
Proof.
  revert acc. induction d; intros acc; simpl; try reflexivity;
    rewrite <- IHd; f_equal; lia.
Qed.

Lemma uint_value_of_uint (d : uint) :
  uint_value d 0 = Z.of_N (Pos.of_uint d).
Proof.
  induction d; simpl; try reflexivity; try assumption;
    match goal with
    | |- uint_value _ ?k = _ => change k with (Z.pos (Z.to_pos k))
    end; apply uint_value_acc.
Qed.

Lemma c_str_uint (d : uint) :
  c_str (NilEmpty.string_of_uint d) = NilEmpty.string_of_uint d.
Proof. induction d; simpl; try reflexivity; now rewrite IHd. Qed.

Lemma to_string_pos (p : positive) :
  to_string (Z.pos p) = NilEmpty.string_of_uint (Pos.to_uint p).
Proof.
  unfold to_string. simpl.
  pose proof (Unsigned.to_uint_nonnil p) as Hn.
  destruct (Pos.to_uint p); [contradiction | reflexivity ..].
Qed.


Lemma digit_string_head (d : uint) :
  d <> Nil ->
  exists c s, NilEmpty.string_of_uint d = String c s
    /\ isspace c = false /\ Ascii.eqb c "-" = false
    /\ Ascii.eqb c "+" = false /\ isdigit c = true.
Proof.
  intros Hn. destruct d; [contradiction | ..];
    eexists _, _; (split; [reflexivity |]); repeat split; vm_compute; reflexivity.
Qed.

Lemma strtol10_digit_string (d : uint) :
  d <> Nil ->
  strtol10 (NilEmpty.string_of_uint d)
  = (long_clamp (uint_value d 0), EmptyString).
Proof.
  intros Hn.
  destruct (digit_string_head d Hn) as (c & s & E & Hsp & Hm & Hp & Hdig).
  pose proof (strtol_digits_uint d 0) as Hd.
  unfold strtol10, strip_sign, strtol_after_sign. rewrite E in Hd |- *.
  cbn [skip_space]. rewrite Hsp, Hm, Hp, Hdig, Hd. reflexivity.
Qed.

(** [strtol] reads back what [std::to_string] wrote for a positive [long]. *)
Lemma strtol10_to_string (p : positive) :
  Z.pos p <= LONG_MAX ->
  strtol10 (c_str (to_string (Z.pos p))) = (Z.pos p, EmptyString).
Proof.
  intros Hp. rewrite to_string_pos, c_str_uint.
  rewrite strtol10_digit_string by apply Unsigned.to_uint_nonnil.
  rewrite uint_value_of_uint, Unsigned.of_to.
  rewrite long_clamp_id; [reflexivity |].
  unfold LONG_MIN, LONG_MAX in *. simpl Z.of_N. lia.
Qed.

(** ** The seat-id codec *)

Lemma strtol_digits_endp (s : string) (acc : Z) :
  snd (strtol_digits s acc) = EmptyString <-> all_digits s = true.
Proof.
  revert acc. induction s as [| c r IH]; intros acc; simpl;
    [split; reflexivity |].
  unfold isdigit. destruct (digit_val c) as [d |]; simpl.
  - apply IH.
  - split; discriminate.
Qed.

Lemma strtol_after_sign_decimal (nptr : string) (neg : bool) (ds : string) :
  if is_decimal ds
  then strtol_after_sign nptr neg ds
       = (long_clamp (if neg then - decimal_value ds else decimal_value ds),
          EmptyString)
  else snd (strtol_after_sign nptr neg ds) <> EmptyString
       \/ fst (strtol_after_sign nptr neg ds) = 0.
Proof.
  unfold is_decimal, decimal_value, strtol_after_sign.
  destruct ds as [| c' r']; [simpl; right; reflexivity |].
  cbn [String.eqb negb andb all_digits].
  destruct (isdigit c') eqn:Hc; cbn [andb]; [| right; reflexivity].
  pose proof (strtol_digits_endp (String c' r') 0) as He.
  cbn [all_digits] in He. rewrite Hc in He. cbn [andb] in He.
  destruct (strtol_digits (String c' r') 0) as [v endp] eqn:Hd.
  cbn [fst snd] in *.
  destruct (all_digits r') eqn:Ha.
  - assert (endp = EmptyString) by (apply He; reflexivity). subst endp.
    reflexivity.
  - left. intros Hempty. apply He in Hempty. discriminate.
Qed.

Lemma strtol10_lenient (s : string) :
  match lenient_decimal s with
  | Some n => strtol10 (c_str s) = (long_clamp n, EmptyString)
  | None => snd (strtol10 (c_str s)) <> EmptyString \/ fst (strtol10 (c_str s)) = 0
  end.
Proof.
  unfold lenient_decimal, strtol10.
  destruct (strip_sign (skip_space (c_str s))) as [neg ds].
  pose proof (strtol_after_sign_decimal (c_str s) neg ds) as H.
  destruct (is_decimal ds); exact H.
Qed.

(** [seatIndexFromId] is the decoder of the amended rule. *)
Lemma seatIndexFromId_decode (th : Theater) (id : string) :
  maxSeats th <= INT_MAX ->
  seatIndexFromId th id = decode_seat_id (maxSeats th) id.
Proof.
  intros Hcap. unfold seatIndexFromId, decode_seat_id.
  destruct id as [| c0 rest]; [reflexivity |].
  destruct rest as [| c1 r1].
  { cbn. destruct (Ascii.eqb c0 "A" || Ascii.eqb c0 "a"); reflexivity. }
  change (Nat.ltb (String.length (String c0 (String c1 r1))) 2) with false.
  rewrite <- negb_orb, orb_false_l.
  destruct (Ascii.eqb c0 "A" || Ascii.eqb c0 "a"); cbn [negb]; [| reflexivity].
  pose proof (strtol10_lenient (String c1 r1)) as Hl.
  destruct (lenient_decimal (String c1 r1)) as [n |].
  - rewrite Hl. cbn [String.eqb negb orb].
    rewrite Z.gtb_ltb.
    unfold long_clamp, LONG_MIN, LONG_MAX, INT_MAX in *.
    destruct (Z.ltb_spec n (- 2 ^ 63)); [| destruct (Z.ltb_spec (2 ^ 63 - 1) n)];
      repeat match goal with
             | |- context [?a <=? ?b] => destruct (Z.leb_spec a b)
             | |- context [?a <? ?b] => destruct (Z.ltb_spec a b)
             end; cbn [andb orb]; try lia; try reflexivity;
      apply int_wrap_id; unfold is_int, INT_MIN, INT_MAX; lia.
  - destruct (strtol10 (c_str (String c1 r1))) as [v endp]. cbn [fst snd] in Hl.
    destruct Hl as [Hl | Hl].
    + destruct endp; [contradiction | reflexivity].
    + subst v. rewrite orb_true_r. reflexivity.
Qed.

Lemma makeSeatId_eq (i : Z) :
  INT_MIN <= i < INT_MAX -> makeSeatId i = String "A" (to_string (i + 1)).
Proof.
  intros H. unfold makeSeatId, int_add. rewrite int_wrap_id; [reflexivity |].
  unfold is_int. lia.
Qed.

Lemma to_string_pos_nonempty (p : positive) : to_string (Z.pos p) <> EmptyString.
Proof.
  rewrite to_string_pos.
  destruct (digit_string_head _ (Unsigned.to_uint_nonnil p)) as (c & s & E & _).
  rewrite E. discriminate.
Qed.

Lemma seatIndexFromId_makeSeatId (th : Theater) (i : Z) :
  maxSeats th <= INT_MAX -> 0 <= i < maxSeats th ->
  seatIndexFromId th (makeSeatId i) = i.
Proof.
  intros Hcap Hi.
  rewrite makeSeatId_eq by (unfold INT_MIN, INT_MAX in *; lia).
  destruct (i + 1) as [| p | p] eqn:Ep; try lia.
  pose proof (to_string_pos_nonempty p) as Hne.
  pose proof (strtol10_to_string p) as Hs.
  unfold seatIndexFromId.
  destruct (to_string (Z.pos p)) as [| c s] eqn:E; [contradiction |].
  change (Nat.ltb (String.length (String "A" (String c s))) 2) with false.
  change (Ascii.eqb "A" "A") with true. cbn [negb andb orb].
  rewrite Hs by (unfold LONG_MAX, INT_MAX in *; lia).
  cbn [String.eqb negb orb]. rewrite Z.gtb_ltb.
  destruct (Z.leb_spec (Z.pos p) 0); [lia |].
  destruct (Z.ltb_spec (maxSeats th) (Z.pos p)); [lia |].
  cbn [orb]. rewrite int_wrap_id; [lia |].
  unfold is_int, INT_MIN, INT_MAX in *. lia.
Qed.

Lemma seatIndexFromId_lowercase (th : Theater) (suffix : string) :
  seatIndexFromId th (String "a" suffix) = seatIndexFromId th (String "A" suffix).
Proof. reflexivity. Qed.

Lemma decode_seat_id_range (capacity : Z) (id : string) :
  decode_seat_id capacity id = -1 \/ 0 <= decode_seat_id capacity id < capacity.
Proof.
  unfold decode_seat_id. destruct id as [| c0 suffix]; [now left |].
  destruct (Ascii.eqb c0 "A" || Ascii.eqb c0 "a"); [| now left].
  destruct (lenient_decimal suffix) as [n |]; [| now left].
  destruct (Z.leb_spec 1 n), (Z.leb_spec n capacity); cbn [andb];
    (now left) || (right; lia).
Qed.

(** C5 (as amended).  With a capacity that fits an [int]: an index below the
    capacity is encoded as "A" followed by the decimal digits of the index
    plus one, and decoded back to itself, so encoding is injective on
    [0, capacity); the decoder takes 'a' for 'A'; it answers -1 or an index
    below the capacity; and it is the decoder [decode_seat_id]: -1 unless the
    first letter is 'A' or 'a' and the rest, read as a C string by [strtol]
    (leading white space, one optional sign, digits up to the end or to a NUL),
    is a number from 1 to the capacity. *)
Theorem seat_codec (th : Theater) :
  maxSeats th <= INT_MAX ->
  (forall i, 0 <= i < maxSeats th ->
     makeSeatId i = String "A" (to_string (i + 1))
     /\ seatIndexFromId th (makeSeatId i) = i)
  /\ (forall i j, 0 <= i < maxSeats th -> 0 <= j < maxSeats th ->
        makeSeatId i = makeSeatId j -> i = j)
  /\ (forall suffix,
        seatIndexFromId th (String "a" suffix)
        = seatIndexFromId th (String "A" suffix))
  /\ (forall id,
        seatIndexFromId th id = -1 \/ 0 <= seatIndexFromId th id < maxSeats th)
  /\ (forall c suffix, Ascii.eqb c "A" = false -> Ascii.eqb c "a" = false ->
        seatIndexFromId th (String c suffix) = -1)
  /\ (forall c suffix, lenient_decimal suffix = None ->
        seatIndexFromId th (String c suffix) = -1)
  /\ (forall c suffix n, lenient_decimal suffix = Some n ->
        n <= 0 \/ n > maxSeats th ->
        seatIndexFromId th (String c suffix) = -1)
  /\ (forall id, seatIndexFromId th id = decode_seat_id (maxSeats th) id).
Proof.
  intros Hcap. repeat apply conj.
  - intros i Hi. split.
    + apply makeSeatId_eq. unfold INT_MIN, INT_MAX in *. lia.
    + now apply seatIndexFromId_makeSeatId.
  - intros i j Hi Hj E.
    rewrite <- (seatIndexFromId_makeSeatId th i), <- (seatIndexFromId_makeSeatId th j)
      by assumption.
    now rewrite E.
  - apply seatIndexFromId_lowercase.
  - intros id. rewrite seatIndexFromId_decode by assumption.
    apply decode_seat_id_range.
  - intros c suffix HA Ha. rewrite seatIndexFromId_decode by assumption.
    unfold decode_seat_id. now rewrite HA, Ha.
  - intros c suffix Hn. rewrite seatIndexFromId_decode by assumption.
    unfold decode_seat_id. rewrite Hn. now destruct (_ || _).
  - intros c suffix n Hn Hr. rewrite seatIndexFromId_decode by assumption.
    unfold decode_seat_id. rewrite Hn.
    destruct (_ || _); [| reflexivity].
    destruct (Z.leb_spec 1 n), (Z.leb_spec n (maxSeats th)); cbn [andb];
      try reflexivity; lia.
  - intros id. now apply seatIndexFromId_decode.
Qed.

(** ** The free-seat query *)

Lemma StronglySorted_filter {A} (R : A -> A -> Prop) (f : A -> bool) (l : list A) :
  StronglySorted R l -> StronglySorted R (List.filter f l).
Proof.
  induction 1 as [| x l Hl IH Hx]; simpl; [constructor |].
  destruct (f x); [| assumption].
  constructor; [assumption |].
  rewrite List.Forall_forall in *. intros y Hy.
  apply List.filter_In in Hy. apply Hx, Hy.
Qed.

Lemma StronglySorted_seq (a n : nat) : StronglySorted Nat.lt (seq a n).
Proof.
  revert a. induction n as [| n IH]; intros a; simpl; constructor.
  - apply IH.
  - rewrite List.Forall_forall. intros y Hy. apply List.in_seq in Hy.
    unfold Nat.lt. lia.
Qed.

Lemma int_of_size_to_nat (m : Z) :
  is_int m -> int_of_size (Z.to_nat m) = Z.of_nat (Z.to_nat m).
Proof.
  intros Hm. unfold int_of_size. apply int_wrap_id.
  unfold is_int, INT_MIN, INT_MAX in *. lia.
Qed.

Lemma free_ids_loop_ok (th : Theater) (s : ShowInfo) :
  is_int (maxSeats th) -> length (taken s) = Z.to_nat (maxSeats th) ->
  free_ids_loop th s
  = map (fun i => makeSeatId (Z.of_nat i))
        (List.filter (fun i => negb (taken_at s i)) (seq 0 (length (taken s)))).
Proof.
  intros Hint Hlen. unfold free_ids_loop. rewrite Hlen. f_equal.
  apply List.filter_ext_in. intros i Hi. apply List.in_seq in Hi.
  rewrite int_of_size_to_nat by assumption.
  destruct (Z.ltb_spec (Z.of_nat i) (Z.of_nat (Z.to_nat (maxSeats th))));
    [reflexivity | lia].
Qed.

(** [reserve] returns for a capacity that is a non-negative [int]. *)
Lemma free_ids_of_returns (th : Theater) (s : ShowInfo) :
  0 <= maxSeats th <= INT_MAX ->
  free_ids_of th s = Answered (free_ids_loop th s).
Proof.
  intros Hcap. unfold free_ids_of, size_of_int, SIZE_MODULUS, vector_string_max_size.
  rewrite Z.mod_small by (unfold INT_MAX in *; lia).
  destruct (Z.ltb_spec (2 ^ 58 - 1) (maxSeats th));
    [unfold INT_MAX in *; lia | reflexivity].
Qed.

(** [reserve] throws for a capacity that is a negative [int]. *)
Lemma free_ids_of_throws (th : Theater) (s : ShowInfo) :
  INT_MIN <= maxSeats th < 0 ->
  free_ids_of th s = Query_threw_length_error.
Proof.
  intros Hcap. unfold free_ids_of, size_of_int, SIZE_MODULUS, vector_string_max_size.
  replace (maxSeats th mod 2 ^ 64) with (maxSeats th + 2 ^ 64).
  2:{ apply Z.mod_unique with (q := -1); unfold INT_MIN in *; lia. }
  destruct (Z.ltb_spec (2 ^ 58 - 1) (maxSeats th + 2 ^ 64));
    [reflexivity | unfold INT_MIN in *; lia].
Qed.

Lemma free_ids_of_ok (th : Theater) (s : ShowInfo) :
  0 <= maxSeats th <= INT_MAX -> length (taken s) = Z.to_nat (maxSeats th) ->
  free_ids_of th s
  = Answered
      (map (fun i => makeSeatId (Z.of_nat i))
         (List.filter (fun i => negb (taken_at s i)) (seq 0 (length (taken s))))).
Proof.
  intros Hcap Hlen. rewrite free_ids_of_returns by assumption.
  rewrite free_ids_loop_ok; [reflexivity | | assumption].
  unfold is_int, INT_MIN, INT_MAX in *. lia.
Qed.

Lemma taken_at_false (s : ShowInfo) (i : nat) :
  (i < length (taken s))%nat ->
  negb (taken_at s i) = true <-> taken s !! i = Some false.
Proof.
  intros Hi. unfold taken_at.
  destruct (lookup_lt_is_Some_2 (taken s) i Hi) as [b Hb].
  rewrite Hb. simpl. destruct b; simpl; split; congruence.
Qed.

Lemma availableSeatIds_loop_none (th : Theater) (shows : list ShowInfo)
    (moviename : string) (start_t : time_t) :
  (forall s, In s shows -> same_show moviename start_t s = false) ->
  availableSeatIds_loop th shows moviename start_t = Answered [].
Proof.
  induction shows as [| s rest IH]; intros H; simpl; [reflexivity |].
  rewrite (H s) by now left. apply IH. intros s' Hs'. apply H. now right.
Qed.

Lemma availableSeatIds_loop_first (th : Theater) (shows : list ShowInfo)
    (moviename : string) (start_t : time_t) (k : nat) (s : ShowInfo) :
  shows !! k = Some s ->
  same_show moviename start_t s = true ->
  (forall j s', (j < k)%nat -> shows !! j = Some s' ->
     same_show moviename start_t s' = false) ->
  availableSeatIds_loop th shows moviename start_t = free_ids_of th s.
Proof.
  revert k. induction shows as [| s0 rest IH]; intros k Hk Hs Hbefore.
  - discriminate.
  - destruct k as [| k]; simpl in *.
    + injection Hk as ->. now rewrite Hs.
    + rewrite (Hbefore 0%nat s0) by (lia || reflexivity).
      apply (IH k); try assumption.
      intros j s' Hj Hl. apply (Hbefore (S j) s'); [lia | exact Hl].
Qed.


Lemma addShowInfo_returns (th : Theater) (name : string) (start_t : time_t)
    (p : float) :
  0 <= maxSeats th <= INT_MAX ->
  addShowInfo th name start_t p
  = Returned (set_shows th (vShowInfo th ++
      [{| movieName := name; start := start_t; price := p;
          freeTickets := maxSeats th;
          taken := replicate (Z.to_nat (maxSeats th)) false |}])).
Proof.
  intros Hcap. unfold addShowInfo, size_of_int, SIZE_MODULUS, vector_bool_max_size.
  rewrite Z.mod_small by (unfold INT_MAX in *; lia).
  destruct (Z.ltb_spec (2 ^ 63 - 64) (maxSeats th));
    [unfold INT_MAX in *; lia | reflexivity].
Qed.

Lemma addShowInfo_throws (th : Theater) (name : string) (start_t : time_t)
    (p : float) :
  INT_MIN <= maxSeats th < 0 ->
  addShowInfo th name start_t p
  = Threw_length_error (set_shows th (vShowInfo th ++
      [{| movieName := name; start := start_t; price := p;
          freeTickets := maxSeats th; taken := [] |}])).
Proof.
  intros Hcap. unfold addShowInfo, size_of_int, SIZE_MODULUS, vector_bool_max_size.
  replace (maxSeats th mod 2 ^ 64) with (maxSeats th + 2 ^ 64).
  2:{ apply Z.mod_unique with (q := -1); unfold INT_MIN in *; lia. }
  destruct (Z.ltb_spec (2 ^ 63 - 64) (maxSeats th + 2 ^ 64));
    [reflexivity | unfold INT_MIN in *; lia].
Qed.

Lemma count_free_replicate_false (n : nat) :
  count_free (replicate n false) = Z.of_nat n.
Proof.
  unfold count_free. f_equal.
  induction n as [| n IH]; simpl; [reflexivity | now rewrite IH].
Qed.

Lemma free_ids_of_fresh (th : Theater) (s : ShowInfo) :
  0 <= maxSeats th <= INT_MAX ->
  taken s = replicate (Z.to_nat (maxSeats th)) false ->
  free_ids_of th s
  = Answered (map (fun i => String "A" (to_string (Z.of_nat i + 1)))
                (seq 0 (Z.to_nat (maxSeats th)))).
Proof.
  intros Hcap Htk.
  rewrite free_ids_of_ok; [| assumption | now rewrite Htk, length_replicate].
  f_equal.
  rewrite Htk at 1. rewrite length_replicate.
  rewrite List.forallb_filter_id.
  - apply List.map_ext_in. intros i Hi. apply List.in_seq in Hi.
    apply makeSeatId_eq. unfold INT_MIN, INT_MAX in *. lia.
  - apply List.forallb_forall. intros i Hi. apply List.in_seq in Hi.
    unfold taken_at. rewrite Htk, lookup_replicate_2 by lia. reflexivity.
Qed.

(** C6 (as amended).  In a theater whose capacity is a non-negative [int],
    [addShowInfo] returns, with one more show at the end of the vector, whose
    seat map has capacity entries, all [false], and whose [freeTickets] is the
    capacity; and when no earlier show has the same title and start, the
    free-seat query for that title and start answers "A1" .. "A{capacity}" in
    ascending order. *)
Theorem addShowInfo_fresh_show (th : Theater) (name : string) (start_t : time_t)
    (p : float) :
  0 <= maxSeats th <= INT_MAX ->
  exists th' fresh,
    addShowInfo th name start_t p = Returned th'
    /\ vShowInfo th' = (vShowInfo th ++ [fresh])%list
    /\ maxSeats th' = maxSeats th
    /\ movieName fresh = name /\ start fresh = start_t
    /\ taken fresh = replicate (Z.to_nat (maxSeats th)) false
    /\ freeTickets fresh = maxSeats th
    /\ count_free (taken fresh) = maxSeats th
    /\ ((forall s, In s (vShowInfo th) -> same_show name start_t s = false) ->
        availableSeatIds th' name start_t
        = Answered (map (fun i => String "A" (to_string (Z.of_nat i + 1)))
                      (seq 0 (Z.to_nat (maxSeats th))))).
Proof.
  intros Hcap. rewrite addShowInfo_returns by assumption.
  set (fresh := {| movieName := name; start := start_t; price := p;
                   freeTickets := maxSeats th;
                   taken := replicate (Z.to_nat (maxSeats th)) false |}).
  exists (set_shows th (vShowInfo th ++ [fresh])), fresh.
  repeat apply conj; try reflexivity.
  - cbn. rewrite count_free_replicate_false. lia.
  - intros Hnone. unfold availableSeatIds. cbn [vShowInfo set_shows].
    rewrite (availableSeatIds_loop_first _ _ _ _ (length (vShowInfo th)) fresh).
    + exact (free_ids_of_fresh (set_shows th _) fresh Hcap eq_refl).
    + rewrite lookup_app_r by lia. rewrite Nat.sub_diag. reflexivity.
    + unfold same_show. cbn. now rewrite String.eqb_refl, Z.eqb_refl.
    + intros j s' Hj Hl. rewrite lookup_app_l in Hl by lia.
      apply Hnone. apply list_elem_of_In. eapply list_elem_of_lookup_2. exact Hl.
Qed.

(** ** [bookSeats]: validation and marking *)

Lemma validate_seats_Some (th : Theater) (show : ShowInfo)
    (seatIds : list string) (idxs : list Z) :
  validate_seats th show seatIds = Some idxs ->
  idxs = map (seatIndexFromId th) seatIds
  /\ forall id, In id seatIds ->
       0 <= seatIndexFromId th id < maxSeats th
       /\ taken show !! Z.to_nat (seatIndexFromId th id) = Some false.
Proof.
  revert idxs. induction seatIds as [| id rest IH]; intros idxs H; simpl in H.
  - injection H as <-. split; [reflexivity | intros id []].
  - destruct (Z.ltb_spec (seatIndexFromId th id) 0); [discriminate |].
    rewrite Z.geb_leb in H.
    destruct (Z.leb_spec (maxSeats th) (seatIndexFromId th id)); [discriminate |].
    cbn [orb] in H. rewrite Z.geb_leb in H.
    destruct (Z.leb_spec (int_of_size (length (taken show))) (seatIndexFromId th id));
      [discriminate |].
    destruct (taken_at show (Z.to_nat (seatIndexFromId th id))) eqn:Ht;
      [discriminate |].
    destruct (validate_seats th show rest) as [idxs' |]; [| discriminate].
    injection H as <-. destruct (IH idxs' eq_refl) as [-> Hrest].
    split; [reflexivity |].
    intros id' [<- | Hin]; [| now apply Hrest].
    split; [lia |].
    pose proof (int_wrap_le_nat (length (taken show))).
    apply taken_at_false; [lia | now rewrite Ht].
Qed.

Lemma validate_seats_complete (th : Theater) (show : ShowInfo)
    (seatIds : list string) :
  Z.of_nat (length (taken show)) <= INT_MAX ->
  (forall id, In id seatIds ->
     0 <= seatIndexFromId th id < maxSeats th
     /\ taken show !! Z.to_nat (seatIndexFromId th id) = Some false) ->
  validate_seats th show seatIds = Some (map (seatIndexFromId th) seatIds).
Proof.
  intros Hlen. induction seatIds as [| id rest IH]; intros H; simpl; [reflexivity |].
  destruct (H id (or_introl eq_refl)) as [Hr Hf].
  destruct (Z.ltb_spec (seatIndexFromId th id) 0); [lia |].
  rewrite Z.geb_leb.
  destruct (Z.leb_spec (maxSeats th) (seatIndexFromId th id)); [lia |].
  cbn [orb]. rewrite Z.geb_leb.
  pose proof (lookup_lt_Some _ _ _ Hf) as Hi.
  unfold int_of_size. rewrite int_wrap_id
    by (unfold is_int, INT_MIN, INT_MAX in *; lia).
  destruct (Z.leb_spec (Z.of_nat (length (taken show))) (seatIndexFromId th id));
    [lia |].
  unfold taken_at. rewrite Hf. cbn [default].
  rewrite IH; [reflexivity |]. intros id' Hin. apply H. now right.
Qed.

Lemma validate_seats_None_inv (th : Theater) (show : ShowInfo)
    (seatIds : list string) :
  (exists id, In id seatIds /\
     (seatIndexFromId th id < 0 \/ maxSeats th <= seatIndexFromId th id
      \/ taken show !! Z.to_nat (seatIndexFromId th id) = Some true)) ->
  validate_seats th show seatIds = None.
Proof.
  intros (id & Hin & Hbad).
  destruct (validate_seats th show seatIds) as [idxs |] eqn:E; [| reflexivity].
  apply validate_seats_Some in E. destruct E as [_ E].
  destruct (E id Hin) as [Hr Hf]. destruct Hbad as [? | [? | Ht]]; try lia.
  congruence.
Qed.

Lemma mark_taken_length (tk : list bool) (idxs : list Z) :
  length (mark_taken tk idxs) = length tk.
Proof.
  unfold mark_taken. revert tk.
  induction idxs as [| x l IH]; intros tk; simpl; [reflexivity |].
  now rewrite IH, length_insert.
Qed.

Lemma insert_true_commute (tk : list bool) (i j : nat) :
  <[i := true]> (<[j := true]> tk) = <[j := true]> (<[i := true]> tk).
Proof.
  destruct (decide (i = j)) as [-> | Hne]; [reflexivity |].
  now apply list_insert_insert_ne.
Qed.

Lemma mark_taken_insert (tk : list bool) (idxs : list Z) (i : nat) :
  mark_taken (<[i := true]> tk) idxs = <[i := true]> (mark_taken tk idxs).
Proof.
  unfold mark_taken. revert tk.
  induction idxs as [| x l IH]; intros tk; simpl; [reflexivity |].
  now rewrite insert_true_commute, IH.
Qed.

Lemma mark_taken_cons (tk : list bool) (x : Z) (idxs : list Z) :
  mark_taken tk (x :: idxs) = <[Z.to_nat x := true]> (mark_taken tk idxs).
Proof. apply (mark_taken_insert tk idxs (Z.to_nat x)). Qed.

(** A seat is taken after marking when it is marked or was taken before. *)
Lemma mark_taken_lookup (tk : list bool) (idxs : list Z) (i : nat) :
  mark_taken tk idxs !! i
  = if decide (i ∈ map Z.to_nat idxs /\ (i < length tk)%nat)
    then Some true else tk !! i.
Proof.
  induction idxs as [| x l IH].
  - unfold mark_taken. cbn [fold_left map]. rewrite decide_False; [reflexivity |].
    intros [H _]. now apply elem_of_nil in H.
  - rewrite mark_taken_cons. cbn [map].
    destruct (decide (Z.to_nat x = i)) as [<- | Hne].
    + destruct (decide (Z.to_nat x < length tk)%nat) as [Hlt | Hge].
      * rewrite list_lookup_insert_eq by now rewrite mark_taken_length.
        rewrite decide_True; [reflexivity |].
        split; [apply elem_of_cons; now left | assumption].
      * rewrite list_insert_ge by (rewrite mark_taken_length; lia).
        rewrite IH.
        rewrite !decide_False by (intros [_ ?]; contradiction). reflexivity.
    + rewrite list_lookup_insert_ne by assumption. rewrite IH.
      destruct (decide (i ∈ Z.to_nat x :: map Z.to_nat l /\ _)) as [[H1 H2] | H1];
        destruct (decide (i ∈ map Z.to_nat l /\ _)) as [[H3 H4] | H3];
        try reflexivity; exfalso.
      * apply elem_of_cons in H1. destruct H1 as [H1 | H1]; [congruence |].
        apply H3. split; assumption.
      * apply H1. split; [apply elem_of_cons; now right | assumption].
Qed.

Lemma count_free_insert_true (tk : list bool) (i : nat) :
  count_free (<[i := true]> tk)
  = count_free tk - (if decide (tk !! i = Some false) then 1 else 0).
Proof.
  unfold count_free. revert i.
  induction tk as [| b tk IH]; intros i.
  - destruct (decide _) as [H | _]; [rewrite lookup_nil in H; discriminate |].
    simpl. lia.
  - destruct i as [| i].
    + destruct (decide _) as [H | H]; destruct b; simpl in *;
        try congruence; lia.
    + change ((b :: tk) !! S i) with (tk !! i).
      change (<[S i := true]> (b :: tk)) with (b :: <[i := true]> tk).
      specialize (IH i). destruct (decide _); destruct b; simpl in *; lia.
Qed.

(** Marking a list of free seats frees as many seats less as the list has
    distinct indices. *)
Lemma count_free_mark_taken (tk : list bool) (idxs : list Z) :
  (forall x, In x idxs -> 0 <= x /\ tk !! Z.to_nat x = Some false) ->
  count_free (mark_taken tk idxs)
  = count_free tk - Z.of_nat (length (remove_dups idxs)).
Proof.
  induction idxs as [| x l IH]; intros H.
  - simpl. lia.
  - rewrite mark_taken_cons, count_free_insert_true.
    rewrite IH by (intros y Hy; apply H; now right).
    destruct (H x (or_introl eq_refl)) as [Hx Hfx].
    rewrite mark_taken_lookup. simpl remove_dups.
    assert (Hmem : Z.to_nat x ∈ map Z.to_nat l <-> x ∈ l).
    { rewrite !list_elem_of_In, List.in_map_iff. split.
      - intros (y & Hy & Hyl).
        assert (y = x) by (destruct (H y (or_intror Hyl)); lia). now subst y.
      - intros Hl. now exists x. }
    pose proof (lookup_lt_Some _ _ _ Hfx) as Hlt.
    destruct (decide (Z.to_nat x ∈ map Z.to_nat l /\ _)) as [Hd | Hd];
      destruct (decide_rel elem_of x l) as [Hin | Hnin].
    + rewrite decide_False by discriminate. lia.
    + exfalso. apply Hnin, Hmem, Hd.
    + exfalso. apply Hd. split; [now apply Hmem | exact Hlt].
    + rewrite decide_True by assumption. simpl length. lia.
Qed.

(** ** [bookSeats]: one show, every seat or none *)

(** A call that answers [false] has written nothing. *)
Lemma book_locked_false (th : Theater) (moviename : string) (dt : time_t)
    (seatIds : list string) (show_no : Z) (k : nat) (th' : Theater) :
  book_locked th moviename dt seatIds show_no k = (false, th') -> th' = th.
Proof.
  unfold book_locked. intros H.
  destruct (vShowInfo th !! k) as [show |]; [| congruence].
  destruct (_ || _); [congruence |].
  destruct (_ && _); [congruence |].
  destruct (validate_seats th show seatIds); congruence.
Qed.

Lemma bookSeats_false (th : Theater) (moviename : string) (dt : time_t)
    (seatIds : list string) (show_no : Z) (th' : Theater) :
  bookSeats th moviename dt seatIds show_no = (false, th') -> th' = th.
Proof.
  unfold bookSeats. intros H. destruct seatIds; [congruence |].
  destruct (chooseShow th moviename dt show_no); [| congruence].
  eapply book_locked_false. exact H.
Qed.

(** What a call that answers [true] has done. *)
Lemma bookSeats_true (th : Theater) (moviename : string) (dt : time_t)
    (seatIds : list string) (show_no : Z) (th' : Theater) :
  bookSeats th moviename dt seatIds show_no = (true, th') ->
  seatIds <> []
  /\ exists k show,
       chooseShow th moviename dt show_no = Some k
       /\ vShowInfo th !! k = Some show
       /\ on_day moviename (toLocalMidnight dt) show = true
       /\ (show_no = 0 ->
           HM_eqb (hour_min_local (start show)) (hour_min_local dt) = true)
       /\ validate_seats th show seatIds = Some (map (seatIndexFromId th) seatIds)
       /\ th' = set_shows th
                  (<[k := book_show show (map (seatIndexFromId th) seatIds)]>
                     (vShowInfo th)).
Proof.
  unfold bookSeats. intros H.
  destruct seatIds as [| id0 rest] eqn:Eids; [congruence |]. rewrite <- Eids in *.
  split; [congruence |].
  destruct (chooseShow th moviename dt show_no) as [k |]; [| congruence].
  unfold book_locked in H.
  destruct (vShowInfo th !! k) as [show |] eqn:Ek; [| congruence].
  exists k, show. split; [reflexivity |]. split; [exact Ek |].
  unfold on_day.
  destruct (String.eqb (movieName show) moviename); cbn [negb orb andb] in *;
    [| congruence].
  destruct (toLocalMidnight (start show) =? toLocalMidnight dt);
    cbn [negb] in *; [| congruence].
  split; [reflexivity |].
  destruct (validate_seats th show seatIds) as [idxs |] eqn:Ev.
  2:{ destruct (_ && _); congruence. }
  destruct (validate_seats_Some _ _ _ _ Ev) as [-> _].
  destruct (show_no =? 0) eqn:En; cbn [andb] in H.
  - destruct (HM_eqb _ _); cbn [negb] in H; [| congruence].
    split; [reflexivity |]. split; [reflexivity | congruence].
  - split; [intros ->; discriminate |]. split; [reflexivity | congruence].
Qed.

(** C8.  An empty request is answered [false] and writes nothing. *)
Theorem bookSeats_empty_request (th : Theater) (moviename : string)
    (dt : time_t) (show_no : Z) :
  bookSeats th moviename dt [] show_no = (false, th).
Proof. reflexivity. Qed.

(** C1.  A call to [bookSeats] either answers [false] and leaves the theater
    as it was, or answers [true], and then there is one show [k], the one
    [chooseShow] resolved, such that: nothing changes but the entry [k] of the
    vector; that show keeps its title, start and price and the length of its
    seat map; every requested id decodes to an index below the capacity whose
    seat was free and is now taken; and every seat no request decodes to is as
    it was.  In particular a request with a malformed or out-of-range id, or
    with a seat already taken in the resolved show, is answered [false] and
    writes nothing. *)
Theorem bookSeats_all_or_nothing (th : Theater) (moviename : string)
    (dt : time_t) (seatIds : list string) (show_no : Z) :
  let r := bookSeats th moviename dt seatIds show_no in
  ((fst r = false /\ snd r = th)
   \/ (fst r = true /\
       exists k show show',
         chooseShow th moviename dt show_no = Some k
         /\ vShowInfo th !! k = Some show
         /\ vShowInfo (snd r) !! k = Some show'
         /\ theaterName (snd r) = theaterName th
         /\ maxSeats (snd r) = maxSeats th
         /\ length (vShowInfo (snd r)) = length (vShowInfo th)
         /\ (forall j, j <> k -> vShowInfo (snd r) !! j = vShowInfo th !! j)
         /\ movieName show' = movieName show /\ start show' = start show
         /\ price show' = price show
         /\ length (taken show') = length (taken show)
         /\ (forall id, In id seatIds ->
               0 <= seatIndexFromId th id < maxSeats th
               /\ taken show !! Z.to_nat (seatIndexFromId th id) = Some false
               /\ taken show' !! Z.to_nat (seatIndexFromId th id) = Some true)
         /\ (forall i, (forall id, In id seatIds ->
                          Z.to_nat (seatIndexFromId th id) <> i) ->
               taken show' !! i = taken show !! i)))
  /\ ((exists id, In id seatIds /\
         (seatIndexFromId th id < 0 \/ maxSeats th <= seatIndexFromId th id)) ->
      r = (false, th))
  /\ (forall k show id,
        chooseShow th moviename dt show_no = Some k ->
        vShowInfo th !! k = Some show ->
        In id seatIds ->
        taken show !! Z.to_nat (seatIndexFromId th id) = Some true ->
        r = (false, th)).
Proof.
  intros r. subst r.
  destruct (bookSeats th moviename dt seatIds show_no) as [b th'] eqn:E.
  cbn [fst snd].
  assert (Htrue : b = true ->
    exists k show,
      chooseShow th moviename dt show_no = Some k
      /\ vShowInfo th !! k = Some show
      /\ th' = set_shows th
                 (<[k := book_show show (map (seatIndexFromId th) seatIds)]>
                    (vShowInfo th))
      /\ forall id, In id seatIds ->
           0 <= seatIndexFromId th id < maxSeats th
           /\ taken show !! Z.to_nat (seatIndexFromId th id) = Some false).
  { intros ->. apply bookSeats_true in E.
    destruct E as (_ & k & show & Hc & Hk & _ & _ & Hv & ->).
    exists k, show. repeat split; try assumption;
      apply (validate_seats_Some _ _ _ _ Hv); assumption. }
  destruct b.
  - destruct (Htrue eq_refl) as (k & show & Hc & Hk & -> & Hids).
    pose proof (lookup_lt_Some _ _ _ Hk) as Hlt.
    repeat apply conj.
    + right. split; [reflexivity |].
      exists k, show, (book_show show (map (seatIndexFromId th) seatIds)).
      cbn [vShowInfo set_shows theaterName maxSeats].
      repeat apply conj; try reflexivity; try assumption.
      * now apply list_lookup_insert_eq.
      * apply length_insert.
      * intros j Hj. apply list_lookup_insert_ne. congruence.
      * apply mark_taken_length.
      * intros id Hid. destruct (Hids id Hid) as [Hr Hf].
        split; [exact Hr |]. split; [exact Hf |].
        cbn [book_show taken]. rewrite mark_taken_lookup.
        rewrite decide_True; [reflexivity |].
        split; [| eapply lookup_lt_Some; exact Hf].
        apply list_elem_of_In. rewrite List.map_map.
        apply (List.in_map (fun x => Z.to_nat (seatIndexFromId th x))). exact Hid.
      * intros i Hi. cbn [book_show taken]. rewrite mark_taken_lookup.
        rewrite decide_False; [reflexivity |].
        intros [Hin _]. apply list_elem_of_In in Hin.
        rewrite List.map_map in Hin. apply List.in_map_iff in Hin.
        destruct Hin as (id & Heq & Hid). exact (Hi id Hid Heq).
    + intros (id & Hid & Hbad). destruct (Hids id Hid). lia.
    + intros k' show' id Hc' Hk' Hid Ht.
      assert (k' = k) by congruence. subst k'.
      assert (show' = show) by congruence. subst show'.
      destruct (Hids id Hid). congruence.
  - apply bookSeats_false in E. subst th'.
    repeat apply conj; try reflexivity; [now left | reflexivity ..].
Qed.

(** ** [bookSeats]: which show is meant *)

Lemma candidates_of_In (th : Theater) (moviename : string) (targetDate : time_t)
    (i : nat) :
  In i (candidates_of th moviename targetDate)
  <-> exists s, vShowInfo th !! i = Some s /\ on_day moviename targetDate s = true.
Proof.
  unfold candidates_of. rewrite List.filter_In, List.in_seq. split.
  - intros [_ H]. destruct (vShowInfo th !! i) as [s |]; [| discriminate].
    now exists s.
  - intros (s & Hs & Hd). rewrite Hs. split; [| exact Hd].
    pose proof (lookup_lt_Some _ _ _ Hs). lia.
Qed.

Lemma candidates_of_sorted (th : Theater) (moviename : string)
    (targetDate : time_t) :
  StronglySorted Nat.lt (candidates_of th moviename targetDate).
Proof. apply StronglySorted_filter, StronglySorted_seq. Qed.

(** The first match in an ascending list is the least match. *)
Lemma first_hm_match_least (th : Theater) (targetHM : HM) (cands : list nat) :
  StronglySorted Nat.lt cands ->
  match first_hm_match th targetHM cands with
  | Some k =>
      In k cands
      /\ HM_eqb (hour_min_local (start_at th k)) targetHM = true
      /\ forall j, In j cands -> (j < k)%nat ->
           HM_eqb (hour_min_local (start_at th j)) targetHM = false
  | None =>
      forall j, In j cands ->
        HM_eqb (hour_min_local (start_at th j)) targetHM = false
  end.
Proof.
  induction 1 as [| x l Hl IH Hx]; simpl; [tauto |].
  destruct (HM_eqb (hour_min_local (start_at th x)) targetHM) eqn:E.
  - split; [now left |]. split; [exact E |].
    intros j [<- | Hj] Hlt; [lia |].
    rewrite List.Forall_forall in Hx. specialize (Hx j Hj). unfold Nat.lt in Hx. lia.
  - destruct (first_hm_match th targetHM l) as [k |].
    + destruct IH as (Hk & Hm & Hleast). split; [now right |]. split; [exact Hm |].
      intros j [<- | Hj] Hlt; [exact E | now apply Hleast].
    + intros j [<- | Hj]; [exact E | now apply IH].
Qed.

Lemma time_match_at (th : Theater) (moviename : string) (dt : time_t)
    (i : nat) (s : ShowInfo) :
  vShowInfo th !! i = Some s ->
  time_match moviename dt s
  = on_day moviename (toLocalMidnight dt) s
    && HM_eqb (hour_min_local (start_at th i)) (hour_min_local dt).
Proof. intros H. unfold time_match, start_at. now rewrite H. Qed.

(** What [chooseShow] answers in time-match mode. *)
Lemma chooseShow_time_match (th : Theater) (moviename : string) (dt : time_t) :
  match chooseShow th moviename dt 0 with
  | Some k =>
      exists s, vShowInfo th !! k = Some s
        /\ time_match moviename dt s = true
        /\ forall j s', (j < k)%nat -> vShowInfo th !! j = Some s' ->
             time_match moviename dt s' = false
  | None =>
      forall j s', vShowInfo th !! j = Some s' ->
        time_match moviename dt s' = false
  end.
Proof.
  unfold chooseShow. cbn [Z.eqb].
  pose proof (first_hm_match_least th (hour_min_local dt) _
                (candidates_of_sorted th moviename (toLocalMidnight dt))) as H.
  assert (Hnone : forall j s',
    vShowInfo th !! j = Some s' ->
    (In j (candidates_of th moviename (toLocalMidnight dt)) ->
     HM_eqb (hour_min_local (start_at th j)) (hour_min_local dt) = false) ->
    time_match moviename dt s' = false).
  { intros j s' Hj Hc. rewrite (time_match_at th _ _ j s' Hj).
    destruct (on_day moviename (toLocalMidnight dt) s') eqn:Ed; [| reflexivity].
    cbn [andb]. apply Hc. apply candidates_of_In. now exists s'. }
  destruct (candidates_of th moviename (toLocalMidnight dt)) as [| c0 cs] eqn:Ec.
  - intros j s' Hj. apply (Hnone j s' Hj). intros [].
  - destruct (first_hm_match th (hour_min_local dt) (c0 :: cs)) as [k |].
    + destruct H as (Hk & Hm & Hleast).
      rewrite <- Ec in Hk. apply candidates_of_In in Hk.
      destruct Hk as (s & Hs & Hd). exists s. split; [exact Hs |].
      split; [rewrite (time_match_at th _ _ k s Hs), Hd, Hm; reflexivity |].
      intros j s' Hlt Hj. apply (Hnone j s' Hj). intros Hin.
      apply Hleast; assumption.
    + intros j s' Hj. apply (Hnone j s' Hj). apply H.
Qed.

(** The test of time-match mode, over the fields of [struct tm]. *)
Lemma time_match_tm (moviename : string) (dt : time_t) (s : ShowInfo) :
  time_match moviename dt s = true
  <-> movieName s = moviename
      /\ toLocalMidnight (start s) = toLocalMidnight dt
      /\ tm_hour (localtime_r (start s)) = tm_hour (localtime_r dt)
      /\ tm_min (localtime_r (start s)) = tm_min (localtime_r dt).
Proof.
  unfold time_match, on_day, HM_eqb, hour_min_local. cbn [hm_h hm_m].
  rewrite !andb_true_iff, String.eqb_eq, !Z.eqb_eq. split.
  - intros [[H1 H2] [H3 H4]]. repeat split; assumption.
  - intros (H1 & H2 & H3 & H4). repeat split; assumption.
Qed.

Lemma time_match_tm_false (moviename : string) (dt : time_t) (s : ShowInfo) :
  time_match moviename dt s = false
  <-> ~ (movieName s = moviename
         /\ toLocalMidnight (start s) = toLocalMidnight dt
         /\ tm_hour (localtime_r (start s)) = tm_hour (localtime_r dt)
         /\ tm_min (localtime_r (start s)) = tm_min (localtime_r dt)).
Proof.
  rewrite <- time_match_tm. destruct (time_match moviename dt s); split.
  - discriminate.
  - intros H. now contradiction H.
  - intros _. discriminate.
  - reflexivity.
Qed.

(** C4.  In time-match mode ([show_no] 0) the show [chooseShow] resolves is
    the first show of the vector, in insertion order, that has the title, the
    normalized day of [dt], and whose start has, in the [struct tm] that
    [localtime_r] fills, the [tm_hour] and the [tm_min] of [dt]: [k] is
    resolved exactly when show [k] matches and no earlier show does, so of two
    shows that match the earlier one is taken; no show is resolved exactly when
    none matches, and [bookSeats] then answers [false] and writes nothing; and
    a call that answers [true] has booked in the resolved show. *)
Theorem bookSeats_time_match (th : Theater) (moviename : string) (dt : time_t) :
  let matches := fun s : ShowInfo =>
    movieName s = moviename
    /\ toLocalMidnight (start s) = toLocalMidnight dt
    /\ tm_hour (localtime_r (start s)) = tm_hour (localtime_r dt)
    /\ tm_min (localtime_r (start s)) = tm_min (localtime_r dt) in
  (forall k,
     chooseShow th moviename dt 0 = Some k
     <-> exists s, vShowInfo th !! k = Some s
           /\ matches s
           /\ forall j s', (j < k)%nat -> vShowInfo th !! j = Some s' ->
                ~ matches s')
  /\ (chooseShow th moviename dt 0 = None
      <-> forall j s', vShowInfo th !! j = Some s' -> ~ matches s')
  /\ (forall seatIds,
        chooseShow th moviename dt 0 = None ->
        bookSeats th moviename dt seatIds 0 = (false, th))
  /\ (forall seatIds th',
        bookSeats th moviename dt seatIds 0 = (true, th') ->
        exists k show,
          chooseShow th moviename dt 0 = Some k
          /\ vShowInfo th !! k = Some show
          /\ matches show
          /\ th' = set_shows th
                     (<[k := book_show show (map (seatIndexFromId th) seatIds)]>
                        (vShowInfo th))).
Proof.
  intros matches.
  pose proof (chooseShow_time_match th moviename dt) as H.
  assert (Hyes : forall s, time_match moviename dt s = true <-> matches s)
    by (intros s; apply time_match_tm).
  assert (Hno : forall s, time_match moviename dt s = false <-> ~ matches s)
    by (intros s; apply time_match_tm_false).
  split; [| split; [| split]].
  - intros k. split.
    + intros E. rewrite E in H. destruct H as (s & Hs & Hm & Hleast).
      exists s. split; [exact Hs |]. split; [now apply Hyes |].
      intros j s' Hj Hl. apply Hno. now apply (Hleast j s').
    + intros (s & Hs & Hm & Hleast). apply Hyes in Hm.
      destruct (chooseShow th moviename dt 0) as [k' |].
      * destruct H as (s' & Hs' & Hm' & Hleast').
        destruct (Nat.lt_trichotomy k k') as [Hlt | [-> | Hgt]]; [| reflexivity |].
        -- rewrite (Hleast' k s Hlt Hs) in Hm. discriminate.
        -- exfalso. apply (Hleast k' s' Hgt Hs'). now apply Hyes.
      * rewrite (H k s Hs) in Hm. discriminate.
  - split.
    + intros E. rewrite E in H. intros j s' Hl. apply Hno. now apply (H j s').
    + intros Hnone. destruct (chooseShow th moviename dt 0) as [k |]; [| reflexivity].
      destruct H as (s & Hs & Hm & _). exfalso.
      apply (Hnone k s Hs). now apply Hyes.
  - intros seatIds E. unfold bookSeats. rewrite E. now destruct seatIds.
  - intros seatIds th' E. apply bookSeats_true in E.
    destruct E as (_ & k & show & Hc & Hk & _ & _ & _ & ->).
    exists k, show. split; [exact Hc |]. split; [exact Hk |].
    split; [| reflexivity].
    rewrite Hc in H. destruct H as (s & Hs & Hm & _).
    rewrite Hk in Hs. injection Hs as <-. now apply Hyes.
Qed.

Lemma by_start_strict_weak_order (th : Theater) : strict_weak_order (by_start th).
Proof.
  unfold strict_weak_order, by_start. repeat apply conj.
  - intros a. apply Z.ltb_irrefl.
  - intros a b c. rewrite !Z.ltb_lt. lia.
  - intros a b c. rewrite !Z.ltb_ge. lia.
Qed.

Lemma Permutation_three {A} (l : list A) (a b c : A) :
  Permutation l [a; b; c] ->
  l = [a; b; c] \/ l = [a; c; b] \/ l = [b; a; c]
  \/ l = [b; c; a] \/ l = [c; a; b] \/ l = [c; b; a].
Proof.
  intros H. pose proof (Permutation_length H) as Hlen.
  destruct l as [| x [| y [| z [| ? ?]]]]; try discriminate.
  assert (Hx : In x [a; b; c]) by (eapply Permutation_in; [exact H | now left]).
  destruct Hx as [Hx | [Hx | [Hx | []]]]; subst x.
  - apply Permutation_cons_inv, Permutation_length_2 in H.
    destruct H as [[-> ->] | [-> ->]]; tauto.
  - assert (H' : Permutation (b :: [y; z]) (b :: [a; c])).
    { etransitivity; [exact H | apply perm_swap]. }
    apply Permutation_cons_inv, Permutation_length_2 in H'.
    destruct H' as [[-> ->] | [-> ->]]; tauto.
  - assert (H' : Permutation (c :: [y; z]) (c :: [a; b])).
    { etransitivity; [exact H |].
      etransitivity; [apply perm_skip, perm_swap | apply perm_swap]. }
    apply Permutation_cons_inv, Permutation_length_2 in H'.
    destruct H' as [[-> ->] | [-> ->]]; tauto.
Qed.

(** What [chooseShow] answers in ordinal mode, under the contract of
    [std::sort]. *)
Lemma chooseShow_ordinal (th : Theater) (moviename : string) (dt : time_t)
    (show_no : Z) :
  sort_contract std_sort -> 0 < show_no <= INT_MAX ->
  let cands := candidates_of th moviename (toLocalMidnight dt) in
  let sorted := std_sort (by_start th) cands in
  Permutation sorted cands
  /\ (forall i j a b, (i < j)%nat -> sorted !! i = Some a -> sorted !! j = Some b ->
        start_at th a <= start_at th b)
  /\ chooseShow th moviename dt show_no
     = if Z.of_nat (length cands) <? show_no then None
       else sorted !! Z.to_nat (show_no - 1).
Proof.
  intros Hsort Hno cands sorted.
  destruct (Hsort (by_start th) cands) as [Hperm Hord].
  specialize (Hord (by_start_strict_weak_order th)).
  split; [exact Hperm |]. split.
  - intros i j a b Hij Ha Hb. specialize (Hord i j a b Hij Ha Hb).
    unfold by_start in Hord. apply Z.ltb_ge in Hord. exact Hord.
  - unfold chooseShow. cbv zeta. fold cands. fold sorted.
    destruct (Z.eqb_spec show_no 0); [lia |].
    destruct (Z.leb_spec show_no 0); [lia |].
    unfold size_of_int, SIZE_MODULUS.
    rewrite Z.mod_small by (unfold INT_MAX in *; lia).
    assert (Hlen : length sorted = length cands)
      by apply (Permutation_length Hperm).
    rewrite Z.gtb_ltb, Hlen. clear Hperm Hord Hlen. clearbody sorted cands.
    destruct cands as [| c0 cs]; [| reflexivity].
    change (Z.of_nat (length [])) with 0.
    destruct (Z.ltb_spec 0 show_no); [reflexivity | lia].
Qed.

(** C3.  With a [std::sort] that honours its contract and an [int] ordinal
    other than 0: the candidates are the shows with the title and the
    normalized day of [dt]; a negative ordinal, or one above the number of
    candidates, resolves no show and [bookSeats] answers [false] and writes
    nothing; otherwise the show resolved is the one at the 1-based position
    [show_no] of a rearrangement of the candidates that is ascending by start
    time.  Hence when the candidates are three shows with pairwise distinct
    starts, in whatever order they were added, ordinal 2 resolves the one with
    the middle start, and a call that answers [true] has booked there. *)
Theorem bookSeats_ordinal (th : Theater) (moviename : string) (dt : time_t)
    (show_no : Z) :
  sort_contract std_sort -> is_int show_no -> show_no <> 0 ->
  let cands := candidates_of th moviename (toLocalMidnight dt) in
  (forall i, In i cands <->
     exists s, vShowInfo th !! i = Some s
               /\ on_day moviename (toLocalMidnight dt) s = true)
  /\ (show_no < 0 \/ Z.of_nat (length cands) < show_no ->
      chooseShow th moviename dt show_no = None
      /\ forall seatIds,
           bookSeats th moviename dt seatIds show_no = (false, th))
  /\ (0 < show_no <= Z.of_nat (length cands) ->
      exists sorted k,
        Permutation sorted cands
        /\ (forall i j a b, (i < j)%nat ->
              sorted !! i = Some a -> sorted !! j = Some b ->
              start_at th a <= start_at th b)
        /\ sorted !! Z.to_nat (show_no - 1) = Some k
        /\ chooseShow th moviename dt show_no = Some k)
  /\ (forall a b c,
        show_no = 2 ->
        Permutation cands [a; b; c] ->
        start_at th a < start_at th b < start_at th c ->
        chooseShow th moviename dt show_no = Some b
        /\ forall seatIds th',
             bookSeats th moviename dt seatIds show_no = (true, th') ->
             exists show,
               vShowInfo th !! b = Some show
               /\ th' = set_shows th
                    (<[b := book_show show (map (seatIndexFromId th) seatIds)]>
                       (vShowInfo th))).
Proof.
  intros Hsort Hint Hne cands.
  assert (Hnone : chooseShow th moviename dt show_no = None ->
                  forall seatIds,
                    bookSeats th moviename dt seatIds show_no = (false, th)).
  { intros E seatIds. unfold bookSeats. rewrite E. now destruct seatIds. }
  split; [| split; [| split]].
  - intros i. apply candidates_of_In.
  - intros [Hneg | Hbig].
    + assert (E : chooseShow th moviename dt show_no = None).
      { unfold chooseShow. destruct (candidates_of _ _ _); [reflexivity |].
        destruct (Z.eqb_spec show_no 0); [lia |].
        destruct (Z.leb_spec show_no 0); [reflexivity | lia]. }
      split; [exact E | exact (Hnone E)].
    + assert (Hpos : 0 < show_no <= INT_MAX) by (destruct Hint; lia).
      destruct (chooseShow_ordinal th moviename dt show_no Hsort Hpos)
        as (_ & _ & E).
      fold cands in E.
      destruct (Z.ltb_spec (Z.of_nat (length cands)) show_no); [| lia].
      split; [exact E | exact (Hnone E)].
  - intros Hrange.
    assert (Hpos : 0 < show_no <= INT_MAX) by (destruct Hint; lia).
    destruct (chooseShow_ordinal th moviename dt show_no Hsort Hpos)
      as (Hperm & Hasc & E).
    fold cands in E, Hperm, Hasc.
    destruct (Z.ltb_spec (Z.of_nat (length cands)) show_no); [lia |].
    destruct (lookup_lt_is_Some_2 (std_sort (by_start th) cands)
                (Z.to_nat (show_no - 1))) as [k Hk].
    { rewrite (Permutation_length Hperm). lia. }
    exists (std_sort (by_start th) cands), k.
    split; [exact Hperm |]. split; [exact Hasc |]. split; [exact Hk |].
    now rewrite E.
  - intros a b c -> Hperm3 Hstarts.
    assert (Hpos : 0 < 2 <= INT_MAX) by (unfold INT_MAX; lia).
    destruct (chooseShow_ordinal th moviename dt 2 Hsort Hpos)
      as (Hperm & Hasc & E).
    fold cands in E, Hperm, Hasc.
    rewrite (Permutation_length Hperm3) in E. cbn in E.
    assert (Hb : chooseShow th moviename dt 2 = Some b).
    { rewrite E.
      apply Permutation_three in Hperm3.
      assert (Hs : Permutation (std_sort (by_start th) cands) [a; b; c]).
      { etransitivity; [exact Hperm |].
        destruct Hperm3 as [-> | [-> | [-> | [-> | [-> | ->]]]]];
          eauto using Permutation, Permutation_sym. }
      apply Permutation_three in Hs.
      pose proof (fun x y => Hasc 0%nat 1%nat x y ltac:(lia)) as H01.
      pose proof (fun x y => Hasc 1%nat 2%nat x y ltac:(lia)) as H12.
      destruct Hs as [Hs | [Hs | [Hs | [Hs | [Hs | Hs]]]]]; rewrite Hs in *;
        try reflexivity;
        (specialize (H01 _ _ eq_refl eq_refl) || idtac);
        (specialize (H12 _ _ eq_refl eq_refl) || idtac); lia. }
    split; [exact Hb |].
    intros seatIds th' Hbook. apply bookSeats_true in Hbook.
    destruct Hbook as (_ & k & show & Hc & Hk & _ & _ & _ & ->).
    assert (k = b) by congruence. subst k. now exists show.
Qed.

(** ** [bookSeats]: requests that name a seat more than once *)

(** With a [std::sort] that keeps the elements, the show [chooseShow] resolves
    passes the checks made again under the lock. *)
Lemma chooseShow_sound (th : Theater) (moviename : string) (dt : time_t)
    (show_no : Z) (k : nat) :
  sort_contract std_sort ->
  chooseShow th moviename dt show_no = Some k ->
  exists s, vShowInfo th !! k = Some s
    /\ on_day moviename (toLocalMidnight dt) s = true
    /\ (show_no = 0 ->
        HM_eqb (hour_min_local (start s)) (hour_min_local dt) = true).
Proof.
  intros Hsort E. destruct (Z.eq_dec show_no 0) as [-> | Hne].
  - pose proof (chooseShow_time_match th moviename dt) as H. rewrite E in H.
    destruct H as (s & Hs & Hm & _). exists s. split; [exact Hs |].
    unfold time_match in Hm. apply andb_true_iff in Hm. tauto.
  - unfold chooseShow in E. cbv zeta in E.
    destruct (candidates_of th moviename (toLocalMidnight dt)) as [| c0 cs] eqn:Ec;
      [discriminate |].
    destruct (Z.eqb_spec show_no 0); [contradiction |].
    destruct (show_no <=? 0); [discriminate |].
    destruct (_ >? _); [discriminate |].
    apply list_elem_of_lookup_2, list_elem_of_In in E.
    destruct (Hsort (by_start th) (c0 :: cs)) as [Hperm _].
    apply (Permutation_in _ Hperm) in E. rewrite <- Ec in E.
    apply candidates_of_In in E. destruct E as (s & Hs & Hd).
    exists s. split; [exact Hs |]. split; [exact Hd | contradiction].
Qed.

Lemma remove_dups_length {A} `{EqDecision A} (l : list A) :
  (length (remove_dups l) <= length l)%nat
  /\ (length (remove_dups l) = length l -> NoDup l).
Proof.
  induction l as [| x l [IHle IHeq]]; simpl.
  - split; [lia | intros _; constructor].
  - destruct (decide_rel elem_of x l) as [Hin | Hnin]; simpl.
    + split; lia.
    + split; [lia |]. intros H. constructor; [exact Hnin | apply IHeq; lia].
Qed.

(** When every id of a non-empty request decodes to a free seat of the
    resolved show, the call answers [true]. *)
Lemma bookSeats_succeeds (th : Theater) (moviename : string) (dt : time_t)
    (seatIds : list string) (show_no : Z) (k : nat) (show : ShowInfo) :
  sort_contract std_sort -> theater_ok th -> seatIds <> [] ->
  chooseShow th moviename dt show_no = Some k ->
  vShowInfo th !! k = Some show ->
  (forall id, In id seatIds ->
     0 <= seatIndexFromId th id < maxSeats th
     /\ taken show !! Z.to_nat (seatIndexFromId th id) = Some false) ->
  bookSeats th moviename dt seatIds show_no
  = (true, set_shows th
             (<[k := book_show show (map (seatIndexFromId th) seatIds)]>
                (vShowInfo th))).
Proof.
  intros Hsort [Hint Hall] Hne Hc Hk Hids.
  destruct (chooseShow_sound th moviename dt show_no k Hsort Hc)
    as (s & Hs & Hd & Hhm).
  assert (s = show) by congruence. subst s.
  unfold bookSeats. destruct seatIds as [| id0 rest] eqn:Eids; [contradiction |].
  rewrite <- Eids in *. rewrite Hc. unfold book_locked. rewrite Hk.
  unfold on_day in Hd. apply andb_true_iff in Hd. destruct Hd as [Hd1 Hd2].
  rewrite Hd1, Hd2. cbn [negb orb].
  assert (Hhm' : (show_no =? 0)
                 && negb (HM_eqb (hour_min_local (start show)) (hour_min_local dt))
                 = false).
  { destruct (Z.eqb_spec show_no 0) as [E0 | _]; [| reflexivity].
    now rewrite (Hhm E0). }
  rewrite Hhm'.
  rewrite validate_seats_complete; [reflexivity | | exact Hids].
  rewrite List.Forall_forall in Hall.
  rewrite (Hall show)
    by (apply list_elem_of_In; eapply list_elem_of_lookup_2; exact Hk).
  unfold is_int, INT_MIN, INT_MAX in *. lia.
Qed.

(** C10.  No id is removed from the request.  With a [std::sort] that
    honours its contract and a theater of the shape [theater_ok]: when the
    call resolves show [k] and every entry of the non-empty request decodes to
    a seat that is free in it, the call answers [true]; each requested seat
    is taken afterwards; [freeTickets] goes down by the length of the request
    (the subtraction staying within [int]), while the number of free seats in
    the seat map goes down by the number of distinct indices only, which is
    less as soon as an id occurs twice. *)
Theorem bookSeats_repeated_ids (th : Theater) (moviename : string)
    (dt : time_t) (seatIds : list string) (show_no : Z) (k : nat)
    (show : ShowInfo) :
  sort_contract std_sort -> theater_ok th -> seatIds <> [] ->
  chooseShow th moviename dt show_no = Some k ->
  vShowInfo th !! k = Some show ->
  (forall id, In id seatIds ->
     0 <= seatIndexFromId th id < maxSeats th
     /\ taken show !! Z.to_nat (seatIndexFromId th id) = Some false) ->
  Z.of_nat (length seatIds) <= INT_MAX ->
  is_int (freeTickets show - Z.of_nat (length seatIds)) ->
  exists show',
    bookSeats th moviename dt seatIds show_no
    = (true, set_shows th (<[k := show']> (vShowInfo th)))
    /\ (forall id, In id seatIds ->
          taken show' !! Z.to_nat (seatIndexFromId th id) = Some true)
    /\ freeTickets show' = freeTickets show - Z.of_nat (length seatIds)
    /\ count_free (taken show')
       = count_free (taken show)
         - Z.of_nat (length (remove_dups (map (seatIndexFromId th) seatIds)))
    /\ (~ NoDup seatIds ->
        (length (remove_dups (map (seatIndexFromId th) seatIds))
         < length seatIds)%nat).
Proof.
  intros Hsort Hok Hne Hc Hk Hids Hlen Hfree.
  exists (book_show show (map (seatIndexFromId th) seatIds)).
  split; [now apply bookSeats_succeeds |].
  cbn [book_show taken freeTickets]. split; [| split; [| split]].
  - intros id Hid. rewrite mark_taken_lookup. rewrite decide_True; [reflexivity |].
    destruct (Hids id Hid) as [_ Hf].
    split; [| eapply lookup_lt_Some; exact Hf].
    apply list_elem_of_In. rewrite List.map_map.
    apply (List.in_map (fun x => Z.to_nat (seatIndexFromId th x))). exact Hid.
  - rewrite length_map. unfold int_sub, int_of_size.
    rewrite (int_wrap_id (Z.of_nat (length seatIds)))
      by (unfold is_int, INT_MIN, INT_MAX in *; lia).
    now apply int_wrap_id.
  - apply count_free_mark_taken. intros x Hx. apply List.in_map_iff in Hx.
    destruct Hx as (id & <- & Hid). destruct (Hids id Hid). split; [lia | assumption].
  - intros Hdup.
    destruct (remove_dups_length (map (seatIndexFromId th) seatIds)) as [Hle Heq].
    rewrite length_map in *.
    destruct (decide (length (remove_dups (map (seatIndexFromId th) seatIds))
                      = length seatIds)) as [E | E]; [| lia].
    exfalso. apply Hdup. apply (NoDup_fmap_1 (seatIndexFromId th)). now apply Heq.
Qed.

(** ** Invariants of the theater *)

Lemma theater_ok_addShowInfo (th : Theater) (name : string) (start_t : time_t)
    (p : float) :
  theater_ok th -> theater_ok (state_of (addShowInfo th name start_t p)).
Proof.
  intros [Hint Hall].
  destruct (Z_lt_le_dec (maxSeats th) 0) as [Hneg | Hpos].
  - rewrite addShowInfo_throws by (destruct Hint; lia).
    split; [exact Hint |]. cbn [state_of set_shows vShowInfo maxSeats].
    apply Forall_app. split; [exact Hall |].
    apply Forall_singleton. cbn. lia.
  - rewrite addShowInfo_returns by (destruct Hint; lia).
    split; [exact Hint |]. cbn [state_of set_shows vShowInfo maxSeats].
    apply Forall_app. split; [exact Hall |].
    apply Forall_singleton. cbn. apply length_replicate.
Qed.

Lemma theater_ok_bookSeats (th : Theater) (moviename : string) (dt : time_t)
    (seatIds : list string) (show_no : Z) :
  theater_ok th -> theater_ok (snd (bookSeats th moviename dt seatIds show_no)).
Proof.
  intros Hok.
  destruct (bookSeats th moviename dt seatIds show_no) as [[|] th'] eqn:E;
    cbn [snd].
  - apply bookSeats_true in E.
    destruct E as (_ & k & show & _ & Hk & _ & _ & _ & ->).
    destruct Hok as [Hint Hall]. split; [exact Hint |].
    cbn [set_shows vShowInfo maxSeats].
    apply Forall_insert; [exact Hall |].
    cbn [book_show taken]. rewrite mark_taken_length.
    exact (Forall_lookup_1 _ _ _ _ Hall Hk).
  - apply bookSeats_false in E. now subst th'.
Qed.

Lemma maxSeats_run_call (th : Theater) (c : call) :
  maxSeats (run_call th c) = maxSeats th.
Proof.
  destruct c as [name t p | name t p | m dt ids n]; cbn [run_call].
  - unfold addShowInfo. now destruct (_ <? _).
  - unfold addShowInfo_tm, addShowInfo. now destruct (_ <? _).
  - destruct (bookSeats th m dt ids n) as [[|] th'] eqn:E; cbn [snd].
    + apply bookSeats_true in E.
      destruct E as (_ & k & show & _ & _ & _ & _ & _ & ->). reflexivity.
    + apply bookSeats_false in E. now subst th'.
Qed.

Lemma theater_ok_run_call (th : Theater) (c : call) :
  theater_ok th -> theater_ok (run_call th c).
Proof.
  destruct c; cbn [run_call].
  - apply theater_ok_addShowInfo.
  - apply theater_ok_addShowInfo.
  - apply theater_ok_bookSeats.
Qed.

(** Every theater reached from the constructor through the public calls has
    the shape [theater_ok]. *)
Lemma theater_ok_run_calls (name : string) (seats : Z) (cs : list call) :
  is_int seats -> theater_ok (run_calls (Theater_new name seats) cs).
Proof.
  intros Hint.
  assert (H0 : theater_ok (Theater_new name seats)) by (split; [exact Hint | constructor]).
  generalize dependent (Theater_new name seats). clear name.
  unfold run_calls. induction cs as [| c cs IH]; intros th Hth; simpl.
  - exact Hth.
  - apply IH. now apply theater_ok_run_call.
Qed.

Lemma count_free_bounds (tk : list bool) :
  0 <= count_free tk <= Z.of_nat (length tk).
Proof.
  unfold count_free. pose proof (List.filter_length_le negb tk). lia.
Qed.

Lemma remove_dups_NoDup_id {A} `{EqDecision A} (l : list A) :
  NoDup l -> remove_dups l = l.
Proof.
  induction 1 as [| x l Hx Hl IH]; simpl; [reflexivity |].
  destruct (decide_rel elem_of x l); [contradiction | now rewrite IH].
Qed.

(** The [freeTickets] invariant survives a booking whose request decodes to
    pairwise distinct indices. *)
Lemma free_count_ok_bookSeats (th : Theater) (moviename : string) (dt : time_t)
    (seatIds : list string) (show_no : Z) :
  theater_ok th -> free_count_ok th ->
  NoDup (map (seatIndexFromId th) seatIds) ->
  free_count_ok (snd (bookSeats th moviename dt seatIds show_no)).
Proof.
  intros [Hint Hall] Hfree Hnd.
  destruct (bookSeats th moviename dt seatIds show_no) as [[|] th'] eqn:E;
    cbn [snd].
  2:{ apply bookSeats_false in E. now subst th'. }
  apply bookSeats_true in E.
  destruct E as (_ & k & show & _ & Hk & _ & _ & Hv & ->).
  apply validate_seats_Some in Hv. destruct Hv as [_ Hids].
  unfold free_count_ok in *. cbn [set_shows vShowInfo].
  apply Forall_insert; [exact Hfree |].
  pose proof (Forall_lookup_1 _ _ _ _ Hfree Hk) as Hf. cbn beta in Hf.
  pose proof (Forall_lookup_1 _ _ _ _ Hall Hk) as Hl. cbn beta in Hl.
  cbn [book_show taken freeTickets].
  rewrite count_free_mark_taken.
  2:{ intros x Hx. apply List.in_map_iff in Hx. destruct Hx as (id & <- & Hid).
      destruct (Hids id Hid). split; [lia | assumption]. }
  rewrite (remove_dups_NoDup_id _ Hnd).
  pose proof (count_free_bounds (taken show)) as Hb.
  pose proof (count_free_bounds
                (mark_taken (taken show) (map (seatIndexFromId th) seatIds))) as Hb'.
  rewrite count_free_mark_taken, (remove_dups_NoDup_id _ Hnd) in Hb'.
  2:{ intros x Hx. apply List.in_map_iff in Hx. destruct Hx as (id & <- & Hid).
      destruct (Hids id Hid). split; [lia | assumption]. }
  rewrite Hf. unfold int_sub, int_of_size.
  assert (Hcap : Z.of_nat (length (taken show)) <= INT_MAX).
  { rewrite Hl. unfold is_int, INT_MIN, INT_MAX in *. lia. }
  rewrite (int_wrap_id (Z.of_nat _)); [apply int_wrap_id |];
    unfold is_int, INT_MIN, INT_MAX in *; lia.
Qed.

Lemma free_count_ok_addShowInfo (th : Theater) (name : string)
    (start_t : time_t) (p : float) :
  0 <= maxSeats th <= INT_MAX -> free_count_ok th ->
  free_count_ok (state_of (addShowInfo th name start_t p)).
Proof.
  intros Hcap Hfree. rewrite addShowInfo_returns by assumption.
  unfold free_count_ok in *. cbn [state_of set_shows vShowInfo].
  apply Forall_app. split; [exact Hfree |]. apply Forall_singleton.
  cbn. rewrite count_free_replicate_false. lia.
Qed.

Lemma seatIndexFromId_same_capacity (th th' : Theater) (id : string) :
  maxSeats th' = maxSeats th -> seatIndexFromId th' id = seatIndexFromId th id.
Proof. intros H. unfold seatIndexFromId. now rewrite H. Qed.

Lemma distinct_request_same_capacity (th th' : Theater) (c : call) :
  maxSeats th' = maxSeats th -> distinct_request th c -> distinct_request th' c.
Proof.
  intros Hm. destruct c as [| | m dt ids n]; cbn; try (intros; exact I).
  intros Hnd. erewrite List.map_ext; [exact Hnd |].
  intros id. now apply seatIndexFromId_same_capacity.
Qed.

Lemma free_count_ok_run_calls_from (th : Theater) (cs : list call) :
  theater_ok th -> free_count_ok th -> 0 <= maxSeats th ->
  Forall (distinct_request th) cs ->
  free_count_ok (run_calls th cs).
Proof.
  unfold run_calls. revert th.
  induction cs as [| c cs IH]; intros th Hok Hfree Hcap Hd; simpl.
  - exact Hfree.
  - pose proof (maxSeats_run_call th c) as Hm.
    apply List.Forall_cons_iff in Hd. destruct Hd as [Hc Hcs].
    apply IH.
    + now apply theater_ok_run_call.
    + assert (Hcap' : 0 <= maxSeats th <= INT_MAX)
        by (destruct Hok as [[_ ?] _]; lia).
      destruct c as [nm t p | nm t p | m dt ids n]; cbn [run_call].
      * now apply free_count_ok_addShowInfo.
      * now apply free_count_ok_addShowInfo.
      * now apply free_count_ok_bookSeats.
    + lia.
    + eapply List.Forall_impl; [| exact Hcs].
      intros c'. now apply distinct_request_same_capacity.
Qed.

(** In a theater of non-negative capacity the [freeTickets] invariant holds
    after every sequence of calls whose booking requests each decode to
    pairwise distinct indices. *)
Lemma free_count_ok_run_calls (name : string) (seats : Z) (cs : list call) :
  0 <= seats <= INT_MAX ->
  Forall (distinct_request (Theater_new name seats)) cs ->
  free_count_ok (run_calls (Theater_new name seats) cs).
Proof.
  intros Hcap Hd. apply free_count_ok_run_calls_from.
  - split; [unfold is_int, INT_MIN, INT_MAX in *; cbn; lia | constructor].
  - constructor.
  - cbn. lia.
  - exact Hd.
Qed.

(** ** Two concurrent calls for one seat *)

Lemma book_locked_split (th : Theater) (rq : request) (k : nat) :
  book_locked th (rq_moviename rq) (rq_dt rq) (rq_seatIds rq) (rq_show_no rq) k
  = match locked_check th rq k with
    | None => (false, th)
    | Some idxs => (true, locked_write th k idxs)
    end.
Proof.
  unfold book_locked, locked_check, locked_write.
  destruct (vShowInfo th !! k) as [show |]; [| reflexivity].
  destruct (_ || _); [reflexivity |].
  destruct (_ && _); reflexivity.
Qed.

(** A thread that runs alone does what [bookSeats] does. *)
Lemma thread_alone (th : Theater) (rq : request) :
  let r := bookSeats th (rq_moviename rq) (rq_dt rq) (rq_seatIds rq)
             (rq_show_no rq) in
  run_schedule rq rq [false; false; false; false] (two_calls th)
  = {| cf_shared := {| sh_theater := snd r; sh_locked := false |};
       cf_first := Done (fst r); cf_second := Start |}.
Proof.
  unfold bookSeats, run_schedule, two_calls. cbn [fold_left].
  unfold run_scheduled at 4. cbn [cf_shared cf_first cf_second thread_step sh_theater].
  destruct (rq_seatIds rq) as [| id0 rest] eqn:Eids; [reflexivity |].
  destruct (chooseShow th (rq_moviename rq) (rq_dt rq) (rq_show_no rq)) as [k |];
    [| reflexivity].
  unfold run_scheduled at 3. cbn [cf_shared cf_first cf_second thread_step sh_locked sh_theater].
  unfold run_scheduled at 2. cbn [cf_shared cf_first cf_second thread_step sh_locked sh_theater].
  rewrite <- Eids, book_locked_split.
  destruct (locked_check th rq k) as [idxs |]; reflexivity.
Qed.

Lemma thread_step_decreases (rq : request) (sh sh' : shared) (p p' : pc) :
  thread_step rq sh p = Some (sh', p') -> (steps_left p' < steps_left p)%nat.
Proof.
  destruct p as [| k | k | k idxs | b]; cbn [thread_step]; intros H.
  - destruct (rq_seatIds rq); [injection H as <- <-; cbn; lia |].
    destruct (chooseShow _ _ _ _); injection H as <- <-; cbn; lia.
  - destruct (sh_locked sh); [discriminate |]. injection H as <- <-. cbn. lia.
  - destruct (locked_check _ _ _); injection H as <- <-; cbn; lia.
  - injection H as <- <-. cbn. lia.
  - discriminate.
Qed.

Lemma step_decreases (rq1 rq2 : request) (c c' : config) :
  step rq1 rq2 c c' -> (steps_left_all c' < steps_left_all c)%nat.
Proof.
  intros [c0 sh' p' H | c0 sh' p' H]; apply thread_step_decreases in H;
    unfold steps_left_all; cbn [cf_first cf_second]; lia.
Qed.

Lemma lookup_map {A B} (f : A -> B) (l : list A) (i : nat) :
  map f l !! i = option_map f (l !! i).
Proof.
  revert i. induction l as [| x l IH]; intros [| i]; simpl; try reflexivity.
  apply IH.
Qed.

(** [chooseShow] reads titles and starts only. *)
Lemma chooseShow_same_schedule (th th' : Theater) (moviename : string)
    (dt : time_t) (show_no : Z) :
  map (fun s => (movieName s, start s)) (vShowInfo th')
  = map (fun s => (movieName s, start s)) (vShowInfo th) ->
  chooseShow th' moviename dt show_no = chooseShow th moviename dt show_no.
Proof.
  intros Hmap.
  assert (Hlook : forall i,
    option_map (fun s => (movieName s, start s)) (vShowInfo th' !! i)
    = option_map (fun s => (movieName s, start s)) (vShowInfo th !! i)).
  { intros i. now rewrite <- !lookup_map, Hmap. }
  assert (Hlen : length (vShowInfo th') = length (vShowInfo th)).
  { rewrite <- (length_map (fun s => (movieName s, start s)) (vShowInfo th')), Hmap.
    apply length_map. }
  assert (Hstart : start_at th' = start_at th).
  { apply functional_extensionality. intros i. unfold start_at.
    specialize (Hlook i).
    destruct (vShowInfo th' !! i), (vShowInfo th !! i); cbn in Hlook;
      congruence. }
  assert (Hcands : forall d, candidates_of th' moviename d
                             = candidates_of th moviename d).
  { intros d. unfold candidates_of. rewrite Hlen. apply List.filter_ext.
    intros i. specialize (Hlook i). unfold on_day.
    destruct (vShowInfo th' !! i) as [s' |], (vShowInfo th !! i) as [s |];
      cbn in Hlook; congruence. }
  assert (Hfirst : forall hm l, first_hm_match th' hm l = first_hm_match th hm l).
  { intros hm l. induction l as [| i l IH]; simpl; [reflexivity |].
    now rewrite Hstart, IH. }
  unfold chooseShow, by_start. rewrite Hcands, Hfirst, Hstart. reflexivity.
Qed.

(** *** The reachable shapes, checked case by case *)

Lemma reachable_shape_sym (booked locked : bool) (a1 a2 : place) :
  reachable_shape booked locked a1 a2 = reachable_shape booked locked a2 a1.
Proof.
  destruct booked, locked, a1 as [| | | | []], a2 as [| | | | []]; reflexivity.
Qed.

Lemma reachable_shape_step (booked locked : bool) (a1 a2 : place)
    (booked' locked' : bool) (a1' : place) :
  reachable_shape booked locked a1 a2 = true ->
  place_step booked locked a1 = Some (booked', locked', a1') ->
  reachable_shape booked' locked' a1' a2 = true.
Proof.
  destruct booked, locked, a1 as [| | | | []], a2 as [| | | | []];
    cbn; intros Hs H; try discriminate; injection H as <- <- <-; reflexivity.
Qed.

Lemma reachable_shape_writes (booked locked : bool) (a1 a2 : place) :
  reachable_shape booked locked a1 a2 = true ->
  place_writes a1 = true -> booked = false.
Proof.
  destruct booked, locked, a1 as [| | | | []], a2 as [| | | | []];
    cbn; intros Hs H; try discriminate; reflexivity.
Qed.

Lemma reachable_shape_exclusion (booked locked : bool) (a1 a2 : place) :
  reachable_shape booked locked a1 a2 = true ->
  place_critical a1 && place_critical a2 = false
  /\ locked = place_critical a1 || place_critical a2.
Proof.
  destruct booked, locked, a1 as [| | | | []], a2 as [| | | | []];
    cbn; intros Hs; try discriminate; split; reflexivity.
Qed.

Lemma reachable_shape_progress (booked locked : bool) (a1 a2 : place) :
  reachable_shape booked locked a1 a2 = true ->
  (exists b, a1 = AtDone b) /\ (exists b, a2 = AtDone b)
  \/ is_Some (place_step booked locked a1)
  \/ is_Some (place_step booked locked a2).
Proof.
  destruct booked, locked, a1 as [| | | | []], a2 as [| | | | []];
    cbn; intros Hs; try discriminate;
    first [ left; split; eexists; reflexivity
          | right; left; eexists; reflexivity
          | right; right; eexists; reflexivity ].
Qed.

Lemma reachable_shape_final (booked locked : bool) (b1 b2 : bool) :
  reachable_shape booked locked (AtDone b1) (AtDone b2) = true ->
  booked = true /\ locked = false
  /\ (b1 = true /\ b2 = false \/ b1 = false /\ b2 = true).
Proof.
  destruct booked, locked, b1, b2; cbn; intros Hs; try discriminate;
    repeat split; (now left) || (now right).
Qed.

(** *** From a lone call that succeeds to two concurrent calls *)

Lemma lone_call_facts (th : Theater) (rq : request) (id : string) :
  rq_seatIds rq = [id] ->
  fst (bookSeats th (rq_moviename rq) (rq_dt rq) (rq_seatIds rq) (rq_show_no rq))
  = true ->
  let idx := seatIndexFromId th id in
  let booked :=
    snd (bookSeats th (rq_moviename rq) (rq_dt rq) (rq_seatIds rq) (rq_show_no rq)) in
  exists k show,
    vShowInfo th !! k = Some show
    /\ 0 <= idx /\ taken show !! Z.to_nat idx = Some false
    /\ booked = set_shows th (<[k := book_show show [idx]]> (vShowInfo th))
    /\ chooseShow th (rq_moviename rq) (rq_dt rq) (rq_show_no rq) = Some k
    /\ chooseShow booked (rq_moviename rq) (rq_dt rq) (rq_show_no rq) = Some k
    /\ locked_check th rq k = Some [idx]
    /\ locked_check booked rq k = None
    /\ locked_write th k [idx] = booked
    /\ booked <> th.
Proof.
  intros Hids Hlone idx booked. subst booked.
  destruct (bookSeats th (rq_moviename rq) (rq_dt rq) (rq_seatIds rq) (rq_show_no rq))
    as [b th'] eqn:E.
  cbn [fst snd] in *. subst b.
  pose proof E as E'. apply bookSeats_true in E'.
  destruct E' as (_ & k & show & Hc & Hk & Hday & Hhm & Hv & Hth').
  rewrite Hids in Hv, Hth'. cbn [map] in Hv, Hth'. fold idx in Hv, Hth'.
  destruct (validate_seats_Some _ _ _ _ Hv) as [_ Hfree].
  destruct (Hfree id (or_introl eq_refl)) as [Hrange Hf]. fold idx in Hrange, Hf.
  pose proof (lookup_lt_Some _ _ _ Hk) as Hklt.
  pose proof (lookup_lt_Some _ _ _ Hf) as Hilt.
  assert (Hk' : vShowInfo th' !! k = Some (book_show show [idx])).
  { rewrite Hth'. cbn [set_shows vShowInfo]. now apply list_lookup_insert_eq. }
  assert (Htaken : taken (book_show show [idx]) !! Z.to_nat idx = Some true).
  { cbn [book_show taken mark_taken fold_left]. now apply list_lookup_insert_eq. }
  unfold bookSeats in E. rewrite Hids, Hc in E. rewrite <- Hids in E.
  rewrite book_locked_split in E.
  destruct (locked_check th rq k) as [idxs |] eqn:Echeck; [| discriminate].
  assert (idxs = [idx]).
  { unfold locked_check in Echeck. rewrite Hk in Echeck.
    destruct (_ || _); [discriminate |]. destruct (_ && _); [discriminate |].
    rewrite Hids in Echeck. congruence. }
  subst idxs.
  exists k, show. repeat apply conj.
  - exact Hk.
  - lia.
  - exact Hf.
  - exact Hth'.
  - exact Hc.
  - rewrite <- Hc. apply chooseShow_same_schedule.
    rewrite Hth'. cbn [set_shows vShowInfo].
    apply list_eq. intros i. rewrite !lookup_map.
    destruct (decide (i = k)) as [-> | Hne].
    + rewrite list_lookup_insert_eq by assumption. now rewrite Hk.
    + now rewrite list_lookup_insert_ne by congruence.
  - exact Echeck.
  - unfold locked_check. rewrite Hk'.
    cbn [book_show movieName start].
    destruct (_ || _); [reflexivity |]. destruct (_ && _); [reflexivity |].
    apply validate_seats_None_inv. exists id.
    split; [rewrite Hids; now left |]. right. right.
    rewrite (seatIndexFromId_same_capacity th th' id) by (now rewrite Hth').
    exact Htaken.
  - congruence.
  - intros Heq. rewrite Heq in Hk'. rewrite Hk in Hk'.
    injection Hk' as Hshow. rewrite Hshow in Hf. congruence.
Qed.

Lemma thread_step_place (th booked_th : Theater) (rq : request) (id : string)
    (k : nat) (idx : Z) (booked locked : bool) (a : place) :
  rq_seatIds rq = [id] ->
  chooseShow th (rq_moviename rq) (rq_dt rq) (rq_show_no rq) = Some k ->
  chooseShow booked_th (rq_moviename rq) (rq_dt rq) (rq_show_no rq) = Some k ->
  locked_check th rq k = Some [idx] ->
  locked_check booked_th rq k = None ->
  locked_write th k [idx] = booked_th ->
  (place_writes a = true -> booked = false) ->
  thread_step rq (shared_of th booked_th booked locked) (pc_of k idx a)
  = match place_step booked locked a with
    | Some (booked', locked', a') =>
        Some (shared_of th booked_th booked' locked', pc_of k idx a')
    | None => None
    end.
Proof.
  intros Hids Hc Hc' Hchk Hchk' Hw Hwrites.
  destruct a as [| | | | b]; cbn [pc_of thread_step place_step shared_of
                                  sh_theater sh_locked].
  - rewrite Hids. destruct booked; [rewrite Hc' | rewrite Hc]; reflexivity.
  - destruct locked; reflexivity.
  - destruct booked; [rewrite Hchk' | rewrite Hchk]; reflexivity.
  - rewrite (Hwrites eq_refl), Hw. reflexivity.
  - reflexivity.
Qed.

Lemma in_critical_pc_of (k : nat) (idx : Z) (a : place) :
  in_critical (pc_of k idx a) = place_critical a.
Proof. destruct a; reflexivity. Qed.

Lemma is_done_pc_of (k : nat) (idx : Z) (a : place) :
  is_done (pc_of k idx a) = true -> exists b, a = AtDone b.
Proof. destruct a as [| | | | b]; try discriminate. intros _. now exists b. Qed.

Lemma run_schedule_steps (rq1 rq2 : request) (schedule : list bool) (c : config) :
  rtc (step rq1 rq2) c (run_schedule rq1 rq2 schedule c).
Proof.
  unfold run_schedule. revert c.
  induction schedule as [| second rest IH]; intros c; simpl; [apply rtc_refl |].
  unfold run_scheduled at 2. destruct second.
  - destruct (thread_step rq2 (cf_shared c) (cf_second c)) as [[sh' p'] |] eqn:E;
      [| apply IH].
    eapply rtc_l; [apply (step_second rq1 rq2 c sh' p' E) | apply IH].
  - destruct (thread_step rq1 (cf_shared c) (cf_first c)) as [[sh' p'] |] eqn:E;
      [| apply IH].
    eapply rtc_l; [apply (step_first rq1 rq2 c sh' p' E) | apply IH].
Qed.

(** Every configuration two such calls reach has one of the shapes of
    [reachable_shape].  The two requests may differ: each resolves show [k]
    and decodes its identifier to [idx]. *)
Lemma two_calls_shapes (th : Theater) (rq1 rq2 : request) (id1 id2 : string)
    (k : nat) (idx : Z) (booked_th : Theater) (c : config) :
  rq_seatIds rq1 = [id1] ->
  chooseShow th (rq_moviename rq1) (rq_dt rq1) (rq_show_no rq1) = Some k ->
  chooseShow booked_th (rq_moviename rq1) (rq_dt rq1) (rq_show_no rq1) = Some k ->
  locked_check th rq1 k = Some [idx] ->
  locked_check booked_th rq1 k = None ->
  rq_seatIds rq2 = [id2] ->
  chooseShow th (rq_moviename rq2) (rq_dt rq2) (rq_show_no rq2) = Some k ->
  chooseShow booked_th (rq_moviename rq2) (rq_dt rq2) (rq_show_no rq2) = Some k ->
  locked_check th rq2 k = Some [idx] ->
  locked_check booked_th rq2 k = None ->
  locked_write th k [idx] = booked_th ->
  rtc (step rq1 rq2) (two_calls th) c ->
  exists booked locked a1 a2,
    c = {| cf_shared := shared_of th booked_th booked locked;
           cf_first := pc_of k idx a1; cf_second := pc_of k idx a2 |}
    /\ reachable_shape booked locked a1 a2 = true.
Proof.
  intros Hids1 Hc1 Hc1' Hchk1 Hchk1' Hids2 Hc2 Hc2' Hchk2 Hchk2' Hw.
  revert c. apply rtc_ind_r.
  - exists false, false, AtStart, AtStart. split; reflexivity.
  - intros c c' Hsteps Hstep IH.
    destruct IH as (b & l & a1 & a2 & -> & Hshape).
    inversion Hstep as [c0 sh' p' Hth Hc0 | c0 sh' p' Hth Hc0]; subst c0 c';
      cbn [cf_shared cf_first cf_second] in *.
    + rewrite (thread_step_place th booked_th rq1 id1 k idx b l a1
                 Hids1 Hc1 Hc1' Hchk1 Hchk1' Hw) in Hth
        by (apply (reachable_shape_writes b l a1 a2 Hshape)).
      destruct (place_step b l a1) as [[[b' l'] a1'] |] eqn:Ep; [| discriminate].
      injection Hth as <- <-.
      exists b', l', a1', a2. split; [reflexivity |].
      exact (reachable_shape_step b l a1 a2 b' l' a1' Hshape Ep).
    + rewrite reachable_shape_sym in Hshape.
      rewrite (thread_step_place th booked_th rq2 id2 k idx b l a2
                 Hids2 Hc2 Hc2' Hchk2 Hchk2' Hw) in Hth
        by (apply (reachable_shape_writes b l a2 a1 Hshape)).
      destruct (place_step b l a2) as [[[b' l'] a2'] |] eqn:Ep; [| discriminate].
      injection Hth as <- <-.
      exists b', l', a1, a2'. split; [reflexivity |].
      rewrite reachable_shape_sym.
      exact (reachable_shape_step b l a2 a1 b' l' a2' Hshape Ep).
Qed.

(** C9.  Two threads call [bookSeats], each with a request for a single
    seat.  The requests need not be equal: they may differ in the instant, in
    the mode (time-match or ordinal) and in the spelling of the identifier,
    as long as they resolve the same show and decode the same seat index, and
    each call made alone answers [true].  In every configuration the threads
    can reach, whatever the interleaving: the two threads are never both
    under the lock, and the mutex is held exactly when one of them is; a
    thread can move unless both have returned; and when both have returned,
    one has answered [true] and the other [false], the mutex is free, and the
    theater is the one either call made alone leaves: the seat is taken in
    the resolved show and nothing else has changed.  Every step brings the
    threads nearer to their return, so every run ends. *)
Theorem two_threads_one_seat (th : Theater) (rq1 rq2 : request)
    (id1 id2 : string) :
  rq_seatIds rq1 = [id1] ->
  rq_seatIds rq2 = [id2] ->
  seatIndexFromId th id1 = seatIndexFromId th id2 ->
  chooseShow th (rq_moviename rq1) (rq_dt rq1) (rq_show_no rq1)
  = chooseShow th (rq_moviename rq2) (rq_dt rq2) (rq_show_no rq2) ->
  fst (bookSeats th (rq_moviename rq1) (rq_dt rq1) (rq_seatIds rq1)
         (rq_show_no rq1)) = true ->
  fst (bookSeats th (rq_moviename rq2) (rq_dt rq2) (rq_seatIds rq2)
         (rq_show_no rq2)) = true ->
  let idx := seatIndexFromId th id1 in
  let booked :=
    snd (bookSeats th (rq_moviename rq1) (rq_dt rq1) (rq_seatIds rq1)
           (rq_show_no rq1)) in
  booked = snd (bookSeats th (rq_moviename rq2) (rq_dt rq2) (rq_seatIds rq2)
                  (rq_show_no rq2))
  /\ (forall c, rtc (step rq1 rq2) (two_calls th) c ->
     in_critical (cf_first c) && in_critical (cf_second c) = false
     /\ sh_locked (cf_shared c)
        = in_critical (cf_first c) || in_critical (cf_second c)
     /\ (all_done c = false -> exists c', step rq1 rq2 c c')
     /\ (all_done c = true ->
         sh_theater (cf_shared c) = booked
         /\ sh_locked (cf_shared c) = false
         /\ (cf_first c = Done true /\ cf_second c = Done false
             \/ cf_first c = Done false /\ cf_second c = Done true)))
  /\ (forall c c', step rq1 rq2 c c' ->
        (steps_left_all c' < steps_left_all c)%nat)
  /\ (exists k show,
        vShowInfo th !! k = Some show
        /\ taken show !! Z.to_nat idx = Some false
        /\ booked
           = set_shows th
               (<[k := {| movieName := movieName show; start := start show;
                          price := price show;
                          freeTickets := int_sub (freeTickets show) 1;
                          taken := <[Z.to_nat idx := true]> (taken show) |}]>
                  (vShowInfo th))).
Proof.
  intros Hids1 Hids2 Hsame Hshow Hlone1 Hlone2 idx booked.
  destruct (lone_call_facts th rq1 id1 Hids1 Hlone1)
    as (k & show & Hk & Hidx & Hf & Hbooked & Hc1 & Hc1' & Hchk1 & Hchk1' & Hw
        & Hne).
  fold idx in Hidx, Hf, Hbooked, Hchk1, Hw.
  fold booked in Hbooked, Hc1', Hchk1', Hw, Hne.
  destruct (lone_call_facts th rq2 id2 Hids2 Hlone2)
    as (k2 & show2 & Hk2 & _ & _ & Hbooked2 & Hc2 & Hc2' & Hchk2 & Hchk2' & _ & _).
  rewrite <- Hsame in Hbooked2, Hchk2. fold idx in Hbooked2, Hchk2.
  assert (Ek : k2 = k) by congruence. subst k2.
  assert (Eshow : show2 = show) by congruence. subst show2.
  assert (Ebooked : booked
                    = snd (bookSeats th (rq_moviename rq2) (rq_dt rq2)
                             (rq_seatIds rq2) (rq_show_no rq2)))
    by congruence.
  rewrite <- Ebooked in Hc2', Hchk2'.
  split; [exact Ebooked |]. split; [| split].
  - intros c Hreach.
    destruct (two_calls_shapes th rq1 rq2 id1 id2 k idx booked c
                Hids1 Hc1 Hc1' Hchk1 Hchk1' Hids2 Hc2 Hc2' Hchk2 Hchk2' Hw Hreach)
      as (b & l & a1 & a2 & -> & Hshape).
    cbn [cf_shared cf_first cf_second shared_of sh_locked sh_theater].
    rewrite !in_critical_pc_of.
    destruct (reachable_shape_exclusion b l a1 a2 Hshape) as [Hex Hl].
    split; [exact Hex |]. split; [exact Hl |]. split.
    + intros Hnot.
      destruct (reachable_shape_progress b l a1 a2 Hshape)
        as [[[b1 ->] [b2 ->]] | [[s1 Hs1] | [s2 Hs2]]]; [discriminate | |].
      * pose proof (thread_step_place th booked rq1 id1 k idx b l a1
                      Hids1 Hc1 Hc1' Hchk1 Hchk1' Hw
                      (reachable_shape_writes b l a1 a2 Hshape)) as Hth.
        rewrite Hs1 in Hth. destruct s1 as [[b' l'] a1'].
        eexists.
        exact (step_first rq1 rq2
                 (mk_config (shared_of th booked b l) (pc_of k idx a1)
                    (pc_of k idx a2)) _ _ Hth).
      * rewrite reachable_shape_sym in Hshape.
        pose proof (thread_step_place th booked rq2 id2 k idx b l a2
                      Hids2 Hc2 Hc2' Hchk2 Hchk2' Hw
                      (reachable_shape_writes b l a2 a1 Hshape)) as Hth.
        rewrite Hs2 in Hth. destruct s2 as [[b' l'] a2'].
        eexists.
        exact (step_second rq1 rq2
                 (mk_config (shared_of th booked b l) (pc_of k idx a1)
                    (pc_of k idx a2)) _ _ Hth).
    + intros Hdone. unfold all_done in Hdone.
      cbn [cf_first cf_second] in Hdone. apply andb_true_iff in Hdone.
      destruct Hdone as [Hd1 Hd2].
      apply is_done_pc_of in Hd1, Hd2. destruct Hd1 as [b1 ->], Hd2 as [b2 ->].
      destruct (reachable_shape_final b l b1 b2 Hshape) as (-> & -> & Hres).
      split; [reflexivity |]. split; [reflexivity |].
      cbn [pc_of]. destruct Hres as [[-> ->] | [-> ->]]; [now left | now right].
  - intros c c'. apply step_decreases.
  - exists k, show. split; [exact Hk |]. split; [exact Hf |]. exact Hbooked.
Qed.

(** ** What the calls of a theater never undo *)

Lemma continues_refl (th : Theater) : continues th th.
Proof.
  split; [reflexivity |]. split; [reflexivity |].
  intros j s Hs. exists s. repeat split; try assumption. intros i Hi; exact Hi.
Qed.

Lemma continues_trans (th1 th2 th3 : Theater) :
  continues th1 th2 -> continues th2 th3 -> continues th1 th3.
Proof.
  intros (Hn & Hm & H12) (Hn' & Hm' & H23).
  split; [congruence |]. split; [congruence |].
  intros j s Hs.
  destruct (H12 j s Hs) as (s2 & Hs2 & E1 & E2 & E3 & E4 & Hk).
  destruct (H23 j s2 Hs2) as (s3 & Hs3 & F1 & F2 & F3 & F4 & Hk').
  exists s3. split; [exact Hs3 |].
  split; [congruence |]. split; [congruence |]. split; [congruence |].
  split; [congruence |]. intros i Hi. apply Hk', Hk, Hi.
Qed.

Lemma continues_append (th : Theater) (s0 : ShowInfo) :
  continues th (set_shows th (vShowInfo th ++ [s0])).
Proof.
  split; [reflexivity |]. split; [reflexivity |].
  intros j s Hs. exists s. cbn [set_shows vShowInfo].
  split; [rewrite lookup_app_l; [exact Hs | eapply lookup_lt_Some; exact Hs] |].
  repeat split. intros i Hi; exact Hi.
Qed.

Lemma continues_addShowInfo (th : Theater) (name : string) (start_t : time_t)
    (p : float) :
  continues th (state_of (addShowInfo th name start_t p)).
Proof.
  unfold addShowInfo. destruct (_ <? _); cbn [state_of]; apply continues_append.
Qed.

Lemma continues_bookSeats (th : Theater) (moviename : string) (dt : time_t)
    (seatIds : list string) (show_no : Z) :
  continues th (snd (bookSeats th moviename dt seatIds show_no)).
Proof.
  destruct (bookSeats th moviename dt seatIds show_no) as [[|] th'] eqn:E;
    cbn [snd].
  2:{ apply bookSeats_false in E. subst th'. apply continues_refl. }
  apply bookSeats_true in E.
  destruct E as (_ & k & show & _ & Hk & _ & _ & _ & ->).
  split; [reflexivity |]. split; [reflexivity |].
  intros j s Hs. cbn [set_shows vShowInfo].
  destruct (decide (j = k)) as [-> | Hne].
  - assert (s = show) by congruence. subst s.
    eexists. split; [apply list_lookup_insert_eq; eapply lookup_lt_Some; exact Hk |].
    cbn [book_show movieName start price taken].
    split; [reflexivity |]. split; [reflexivity |]. split; [reflexivity |].
    split; [apply mark_taken_length |].
    intros i Hi. rewrite mark_taken_lookup.
    destruct (decide _); [reflexivity | exact Hi].
  - exists s. split; [rewrite list_lookup_insert_ne by congruence; exact Hs |].
    repeat split. intros i Hi; exact Hi.
Qed.

Lemma continues_run_call (th : Theater) (c : call) : continues th (run_call th c).
Proof.
  destruct c; cbn [run_call].
  - apply continues_addShowInfo.
  - apply continues_addShowInfo.
  - apply continues_bookSeats.
Qed.

(** X1.  Whatever calls are made on a theater, it keeps its name and
    capacity; every show it had is still at its index with its title, start,
    price and number of seats; and no seat that was taken is free again. *)
Theorem run_calls_continues (th : Theater) (cs : list call) :
  continues th (run_calls th cs).
Proof.
  unfold run_calls. revert th. induction cs as [| c cs IH]; intros th; simpl.
  - apply continues_refl.
  - eapply continues_trans; [apply continues_run_call | apply IH].
Qed.

(** ** Booking and the free-seat query *)

Lemma free_ids_of_same_capacity (th th' : Theater) (s : ShowInfo) :
  maxSeats th' = maxSeats th -> free_ids_of th' s = free_ids_of th s.
Proof. intros H. unfold free_ids_of, free_ids_loop. now rewrite H. Qed.

Lemma filter_map_comm {A B} (f : A -> B) (P : B -> bool) (l : list A) :
  List.filter P (map f l) = map f (List.filter (fun x => P (f x)) l).
Proof.
  induction l as [| x l IH]; simpl; [reflexivity |].
  destruct (P (f x)); simpl; now rewrite IH.
Qed.

Lemma filter_twice {A} (P Q : A -> bool) (l : list A) :
  List.filter Q (List.filter P l) = List.filter (fun x => P x && Q x) l.
Proof.
  induction l as [| x l IH]; simpl; [reflexivity |].
  destruct (P x); simpl; [destruct (Q x); now rewrite IH | exact IH].
Qed.

(** Whether a seat identifier is the canonical name of a seat of the request. *)
Lemma requested_id_spec (th : Theater) (seatIds : list string) (i : nat) :
  maxSeats th <= INT_MAX ->
  (Z.of_nat i < maxSeats th) ->
  (forall id, In id seatIds -> 0 <= seatIndexFromId th id < maxSeats th) ->
  existsb (String.eqb (makeSeatId (Z.of_nat i)))
    (map (fun id => makeSeatId (seatIndexFromId th id)) seatIds) = true
  <-> In i (map Z.to_nat (map (seatIndexFromId th) seatIds)).
Proof.
  intros Hcap Hi Hids. rewrite List.existsb_exists. split.
  - intros (sid & Hin & Heq). apply String.eqb_eq in Heq.
    apply List.in_map_iff in Hin. destruct Hin as (id & <- & Hid).
    apply (f_equal (seatIndexFromId th)) in Heq.
    rewrite !seatIndexFromId_makeSeatId in Heq by (auto; lia).
    apply List.in_map_iff. exists (seatIndexFromId th id).
    split; [lia |]. now apply List.in_map.
  - intros Hin. apply List.in_map_iff in Hin. destruct Hin as (idx & <- & Hidx).
    apply List.in_map_iff in Hidx. destruct Hidx as (id & <- & Hid).
    exists (makeSeatId (seatIndexFromId th id)). split.
    + apply (List.in_map (fun id => makeSeatId (seatIndexFromId th id))), Hid.
    + apply String.eqb_eq. f_equal. specialize (Hids id Hid). lia.
Qed.

(** The shows that match a query are the same after a booking. *)
Lemma same_show_after_booking (th : Theater) (k : nat) (show : ShowInfo)
    (idxs : list Z) (name' : string) (start' : time_t) (j : nat) :
  vShowInfo th !! k = Some show ->
  option_map (same_show name' start')
    (<[k := book_show show idxs]> (vShowInfo th) !! j)
  = option_map (same_show name' start') (vShowInfo th !! j).
Proof.
  intros Hk. pose proof (lookup_lt_Some _ _ _ Hk) as Hklt.
  destruct (decide (j = k)) as [-> | Hne].
  - rewrite list_lookup_insert_eq by assumption. rewrite Hk. reflexivity.
  - now rewrite list_lookup_insert_ne by congruence.
Qed.

(** X2.  In a theater of the shape [theater_ok], after a call to [bookSeats]
    that answers [true], with [k] the show it resolved, and for every query
    (title, start) of [availableSeatIds]: when no show matches the query the
    answer is empty as before; when the first show that matches is show [k],
    the answer is what it was, in the same order, less the identifiers of the
    seats requested; when the first show that matches is another show (also
    when show [k] has this title and start but comes later in the vector),
    the answer is what it was. *)
Theorem availableSeatIds_after_bookSeats (th th' : Theater) (moviename : string)
    (dt : time_t) (seatIds : list string) (show_no : Z) :
  theater_ok th ->
  bookSeats th moviename dt seatIds show_no = (true, th') ->
  exists k,
    chooseShow th moviename dt show_no = Some k
    /\ forall name' start',
         ((forall s, In s (vShowInfo th) -> same_show name' start' s = false) ->
          availableSeatIds th name' start' = Answered []
          /\ availableSeatIds th' name' start' = Answered [])
         /\ (forall j s, first_show th name' start' j s ->
               exists ids,
                 availableSeatIds th name' start' = Answered ids
                 /\ availableSeatIds th' name' start'
                    = Answered
                        (if decide (j = k)
                         then List.filter
                                (fun sid =>
                                   negb (existsb (String.eqb sid)
                                           (map (fun id =>
                                                   makeSeatId (seatIndexFromId th id))
                                              seatIds)))
                                ids
                         else ids)).
Proof.
  intros [Hint Hall] Hbook.
  apply bookSeats_true in Hbook.
  destruct Hbook as (Hne & k & show & Hc & Hk & _ & _ & Hv & ->).
  exists k. split; [exact Hc |].
  destruct (validate_seats_Some _ _ _ _ Hv) as [_ Hids].
  pose proof (lookup_lt_Some _ _ _ Hk) as Hklt.
  pose proof (Forall_lookup_1 _ _ _ _ Hall Hk) as Hlen. cbn beta in Hlen.
  assert (Hcap : 0 <= maxSeats th <= INT_MAX).
  { destruct seatIds as [| id0 rest]; [congruence |].
    specialize (Hids id0 (or_introl eq_refl)). unfold is_int in Hint. lia. }
  set (idxs := map (seatIndexFromId th) seatIds) in *.
  set (th' := set_shows th (<[k := book_show show idxs]> (vShowInfo th))).
  assert (Hsame_at : forall name' start' j s',
            vShowInfo th' !! j = Some s' ->
            exists s, vShowInfo th !! j = Some s
                      /\ same_show name' start' s = same_show name' start' s').
  { intros name' start' j s' Hl. cbn [set_shows vShowInfo th'] in Hl.
    pose proof (same_show_after_booking th k show idxs name' start' j Hk) as E.
    rewrite Hl in E. cbn [option_map] in E.
    destruct (vShowInfo th !! j) as [s |]; [| discriminate].
    exists s. split; [reflexivity |]. cbn [option_map] in E. congruence. }
  intros name' start'. split.
  - intros Hnone. split; [now apply availableSeatIds_loop_none |].
    apply availableSeatIds_loop_none. intros s' Hs'.
    apply list_elem_of_In, list_elem_of_lookup_1 in Hs'. destruct Hs' as [j Hj].
    destruct (Hsame_at name' start' j s' Hj) as (s & Hs & <-).
    apply Hnone. apply list_elem_of_In. eapply list_elem_of_lookup_2. exact Hs.
  - intros j s (Hj & Hs & Hb).
    pose proof (Forall_lookup_1 _ _ _ _ Hall Hj) as Hlenj. cbn beta in Hlenj.
    assert (Hbefore' : forall i s', (i < j)%nat -> vShowInfo th' !! i = Some s' ->
                         same_show name' start' s' = false).
    { intros i s' Hi Hl. destruct (Hsame_at name' start' i s' Hl) as (s0 & Hs0 & <-).
      exact (Hb i s0 Hi Hs0). }
    unfold availableSeatIds.
    rewrite (availableSeatIds_loop_first th _ _ _ j s Hj Hs Hb).
    rewrite (free_ids_of_ok th s Hcap Hlenj).
    eexists. split; [reflexivity |].
    destruct (decide (j = k)) as [-> | Hjk].
    + assert (s = show) by congruence. subst s.
      rewrite (availableSeatIds_loop_first th' _ _ _ k (book_show show idxs)).
      * rewrite (free_ids_of_same_capacity th th') by reflexivity.
        rewrite free_ids_of_ok; [| assumption |].
        2:{ cbn [book_show taken]. now rewrite mark_taken_length. }
        f_equal.
        cbn [book_show taken]. rewrite mark_taken_length.
        rewrite filter_map_comm, filter_twice. f_equal.
        apply List.filter_ext_in. intros i Hi. apply List.in_seq in Hi.
        assert (Hi' : Z.of_nat i < maxSeats th) by lia.
        pose proof (requested_id_spec th seatIds i (proj2 Hint) Hi'
                      (fun id Hid => proj1 (Hids id Hid))) as Hreq.
        fold idxs in Hreq.
        unfold taken_at at 1. cbn [book_show taken]. rewrite mark_taken_lookup.
        unfold taken_at.
        destruct (existsb _ _) eqn:Ex.
        -- rewrite decide_True.
           2:{ split; [apply list_elem_of_In, Hreq; reflexivity | lia]. }
           cbn. now rewrite andb_false_r.
        -- rewrite decide_False.
           2:{ intros [Hin _]. apply list_elem_of_In, Hreq in Hin. congruence. }
           cbn. now rewrite andb_true_r.
      * cbn [set_shows vShowInfo th']. now apply list_lookup_insert_eq.
      * exact Hs.
      * exact Hbefore'.
    + rewrite (availableSeatIds_loop_first th' _ _ _ j s).
      * rewrite (free_ids_of_same_capacity th th') by reflexivity.
        now apply free_ids_of_ok.
      * cbn [set_shows vShowInfo th']. now rewrite list_lookup_insert_ne by congruence.
      * exact Hs.
      * exact Hbefore'.
Qed.

(** X3.  After a call to [bookSeats] that answers [true], a call with the
    same title, instant and ordinal and a request that names one of the seats
    just booked, under any identifier that decodes to it, answers [false] and
    writes nothing. *)
Theorem bookSeats_again_refused (th th' : Theater) (moviename : string)
    (dt : time_t) (seatIds seatIds2 : list string) (show_no : Z) :
  bookSeats th moviename dt seatIds show_no = (true, th') ->
  (exists id id2, In id seatIds /\ In id2 seatIds2
                  /\ seatIndexFromId th id2 = seatIndexFromId th id) ->
  bookSeats th' moviename dt seatIds2 show_no = (false, th').
Proof.
  intros Hbook (id & id2 & Hid & Hid2 & Hsame).
  apply bookSeats_true in Hbook.
  destruct Hbook as (_ & k & show & Hc & Hk & _ & _ & Hv & ->).
  destruct (validate_seats_Some _ _ _ _ Hv) as [_ Hids].
  destruct (Hids id Hid) as [Hrange Hfree].
  pose proof (lookup_lt_Some _ _ _ Hk) as Hklt.
  set (idxs := map (seatIndexFromId th) seatIds) in *.
  set (th' := set_shows th (<[k := book_show show idxs]> (vShowInfo th))).
  assert (Hc' : chooseShow th' moviename dt show_no = Some k).
  { rewrite <- Hc. apply chooseShow_same_schedule.
    cbn [th' set_shows vShowInfo]. apply list_eq. intros i. rewrite !lookup_map.
    destruct (decide (i = k)) as [-> | Hne].
    - rewrite list_lookup_insert_eq by assumption. now rewrite Hk.
    - now rewrite list_lookup_insert_ne by congruence. }
  unfold bookSeats. destruct seatIds2 as [| i0 r0] eqn:E2; [reflexivity |].
  rewrite <- E2 in *. rewrite Hc'. unfold book_locked.
  assert (Hk' : vShowInfo th' !! k = Some (book_show show idxs)).
  { cbn [th' set_shows vShowInfo]. now apply list_lookup_insert_eq. }
  rewrite Hk'.
  destruct (_ || _); [reflexivity |]. destruct (_ && _); [reflexivity |].
  rewrite validate_seats_None_inv; [reflexivity |].
  exists id2. split; [exact Hid2 |]. right. right.
  rewrite (seatIndexFromId_same_capacity th th' id2) by reflexivity.
  rewrite Hsame. cbn [book_show taken]. rewrite mark_taken_lookup.
  rewrite decide_True; [reflexivity |].
  split; [| eapply lookup_lt_Some; exact Hfree].
  apply list_elem_of_In. unfold idxs. rewrite List.map_map.
  apply (List.in_map (fun x => Z.to_nat (seatIndexFromId th x))). exact Hid.
Qed.

(** ** The day queries of a theater *)

Lemma string_compare_refl (s : string) : String.compare s s = Eq.
Proof.
  pose proof (String.compare_antisym s s) as H.
  destruct (String.compare s s); try reflexivity; discriminate.
Qed.

Lemma string_ltb_le_ne (a b : string) :
  String.ltb a b = true <-> String.le a b /\ a <> b.
Proof.
  unfold String.le, String.ltb, String.leb. split.
  - intros H. destruct (String.compare a b) eqn:E; try discriminate.
    split; [exact I |]. intros ->. rewrite string_compare_refl in E. discriminate.
  - intros [Hle Hne]. destruct (String.compare a b) eqn:E.
    + apply String.compare_eq_iff in E. contradiction.
    + reflexivity.
    + destruct Hle.
Qed.

Lemma sort_strings_Permutation (l : list string) : Permutation (sort_strings l) l.
Proof. apply merge_sort_Permutation. Qed.

Lemma sort_strings_sorted (l : list string) :
  StronglySorted String.le (sort_strings l).
Proof. apply StronglySorted_merge_sort; apply _. Qed.

(** The ascending rearrangement of a list of strings is unique: whatever
    [std::sort] does, this is its result. *)
Lemma sort_strings_unique (l sorted : list string) :
  Permutation sorted l -> StronglySorted String.le sorted ->
  sorted = sort_strings l.
Proof.
  intros Hp Hs. apply (StronglySorted_unique String.le); try assumption.
  - apply sort_strings_sorted.
  - etransitivity; [exact Hp | symmetry; apply sort_strings_Permutation].
Qed.

Lemma unique_from_sorted (kept : string) (l : list string) :
  StronglySorted String.le l -> Forall (String.le kept) l ->
  StronglySorted (fun a b => String.ltb a b = true) (unique_from kept l)
  /\ Forall (fun x => String.ltb kept x = true) (unique_from kept l)
  /\ forall x, In x (unique_from kept l) <-> In x l /\ x <> kept.
Proof.
  intros Hs. revert kept. induction Hs as [| y r Hr IH Hy]; intros kept Hk.
  - simpl. split; [constructor |]. split; [constructor |]. intros x. tauto.
  - apply List.Forall_cons_iff in Hk. destruct Hk as [Hky Hkr]. simpl.
    destruct (String.eqb_spec kept y) as [<- | Hne].
    + destruct (IH kept Hkr) as (I1 & I2 & I3).
      split; [exact I1 |]. split; [exact I2 |].
      intros x. rewrite I3. split; [tauto |].
      intros [[-> | Hx] Hxk]; [contradiction | tauto].
    + destruct (IH y Hy) as (I1 & I2 & I3).
      split; [constructor; assumption |].
      assert (Hlt : String.ltb kept y = true) by (apply string_ltb_le_ne; tauto).
      split.
      * constructor; [exact Hlt |].
        rewrite List.Forall_forall in *. intros x Hx.
        apply string_ltb_le_ne. apply I3 in Hx. destruct Hx as [Hx Hxy].
        split; [now apply Hkr |]. intros ->.
        apply Hne. apply (anti_symm String.le); [exact Hky | now apply Hy].
      * intros x. simpl. rewrite I3. split.
        -- intros [<- | [Hx Hxy]]; [split; [now left | congruence] |].
           split; [now right |]. intros ->.
           apply Hxy. apply (anti_symm String.le); [exact Hky |].
           now apply (proj1 (List.Forall_forall _ _) Hy).
        -- intros [[<- | Hx] Hxk]; [now left |].
           destruct (String.eqb_spec x y) as [-> | Hxy]; [now left | right; tauto].
Qed.

(** On an ascending list [std::unique] leaves every element once. *)
Lemma unique_sorted (l : list string) :
  StronglySorted String.le l ->
  StronglySorted (fun a b => String.ltb a b = true) (unique l)
  /\ forall x, In x (unique l) <-> In x l.
Proof.
  intros Hs. destruct l as [| x r]; [split; [constructor | tauto] |].
  apply StronglySorted_inv in Hs. destruct Hs as [Hr Hx].
  destruct (unique_from_sorted x r Hr Hx) as (I1 & I2 & I3).
  simpl. split; [constructor; assumption |].
  intros y. rewrite I3. split; [tauto |].
  intros [<- | Hy]; [now left |].
  destruct (String.eqb_spec y x) as [-> | Hne]; [now left | right; tauto].
Qed.

Lemma hasShowOnDay_spec (th : Theater) (moviename : string) (day : time_t) :
  hasShowOnDay th moviename day = true
  <-> exists s, In s (vShowInfo th) /\ movieName s = moviename
                /\ toLocalMidnight (start s) = toLocalMidnight day.
Proof.
  unfold hasShowOnDay, on_day. rewrite List.existsb_exists. split.
  - intros (s & Hs & H). apply andb_true_iff in H. destruct H as [H1 H2].
    exists s. split; [exact Hs |]. split; [now apply String.eqb_eq | lia].
  - intros (s & Hs & H1 & H2). exists s. split; [exact Hs |].
    apply andb_true_iff. split; [now apply String.eqb_eq | lia].
Qed.

Lemma getMovieListOn_In (th : Theater) (day : time_t) (name : string) :
  In name (getMovieListOn th day)
  <-> exists s, In s (vShowInfo th) /\ movieName s = name
                /\ toLocalMidnight (start s) = toLocalMidnight day.
Proof.
  unfold getMovieListOn. cbv zeta.
  rewrite (proj2 (unique_sorted _ (sort_strings_sorted _))).
  split.
  - intros H. apply (Permutation_in _ (sort_strings_Permutation _)) in H.
    apply List.in_map_iff in H. destruct H as (s & <- & Hs).
    apply List.filter_In in Hs. destruct Hs as [Hs Hd].
    exists s. split; [exact Hs |]. split; [reflexivity |]. unfold starts_on in Hd. lia.
  - intros (s & Hs & <- & Hd).
    apply (Permutation_in _ (Permutation_sym (sort_strings_Permutation _))).
    apply List.in_map. apply List.filter_In. split; [exact Hs |].
    unfold starts_on. lia.
Qed.

(** X4.  [getMovieListOn] answers the titles of the shows of the day, each
    once, in strictly ascending order. *)
Theorem getMovieListOn_spec (th : Theater) (day : time_t) :
  StronglySorted (fun a b => String.ltb a b = true) (getMovieListOn th day)
  /\ forall name,
       In name (getMovieListOn th day)
       <-> exists s, In s (vShowInfo th) /\ movieName s = name
                     /\ toLocalMidnight (start s) = toLocalMidnight day.
Proof.
  split; [| apply getMovieListOn_In].
  unfold getMovieListOn. cbv zeta. apply unique_sorted, sort_strings_sorted.
Qed.

Lemma hasShowOnDay_nonempty (th : Theater) (moviename : string) (day : time_t) :
  hasShowOnDay th moviename day = true
  <-> getListofMovieShowsOn th moviename day <> [].
Proof.
  unfold hasShowOnDay, getListofMovieShowsOn.
  induction (vShowInfo th) as [| s l IH]; simpl.
  - split; [discriminate | intros H; now contradiction H].
  - destruct (on_day moviename (toLocalMidnight day) s); simpl.
    + split; [discriminate | reflexivity].
    + exact IH.
Qed.

(** X5.  The three day queries of a theater agree: [hasShowOnDay] answers
    [true] exactly when [getListofMovieShowsOn] answers a non-empty list, and
    exactly when the title is in [getMovieListOn]; and the shows of a title
    are the shows of the day with that title, in the order of
    [getListOfShowsOn]. *)
Theorem day_queries_agree (th : Theater) (moviename : string) (day : time_t) :
  (hasShowOnDay th moviename day = true
   <-> getListofMovieShowsOn th moviename day <> [])
  /\ (hasShowOnDay th moviename day = true
      <-> In moviename (getMovieListOn th day))
  /\ getListofMovieShowsOn th moviename day
     = List.filter (fun s => String.eqb (movieName s) moviename)
         (getListOfShowsOn th day).
Proof.
  split; [| split].
  - apply hasShowOnDay_nonempty.
  - rewrite hasShowOnDay_spec, getMovieListOn_In. reflexivity.
  - unfold getListofMovieShowsOn, getListOfShowsOn. rewrite filter_twice.
    apply List.filter_ext. intros s. unfold on_day, starts_on. apply andb_comm.
Qed.

(** X6.  When a theater has no show of the title on the day of [dt],
    [bookSeats] answers [false] and writes nothing, for every request and
    ordinal, and the free-seat query for the title at [dt] is empty. *)
Theorem no_show_on_day (th : Theater) (moviename : string) (dt : time_t) :
  hasShowOnDay th moviename dt = false ->
  (forall seatIds show_no,
     bookSeats th moviename dt seatIds show_no = (false, th))
  /\ availableSeatIds th moviename dt = Answered [].
Proof.
  intros Hno.
  assert (Hnone : forall s, In s (vShowInfo th) ->
                    on_day moviename (toLocalMidnight dt) s = false).
  { intros s Hs. destruct (on_day moviename (toLocalMidnight dt) s) eqn:E;
      [| reflexivity].
    unfold hasShowOnDay in Hno. rewrite <- Hno. symmetry.
    apply List.existsb_exists. now exists s. }
  split.
  - intros seatIds show_no. unfold bookSeats. destruct seatIds; [reflexivity |].
    assert (Hc : candidates_of th moviename (toLocalMidnight dt) = []).
    { destruct (candidates_of th moviename (toLocalMidnight dt)) as [| i l] eqn:E;
        [reflexivity |].
      assert (Hi : In i (candidates_of th moviename (toLocalMidnight dt)))
        by (rewrite E; now left).
      apply candidates_of_In in Hi. destruct Hi as (s0 & Hs0 & Hd).
      rewrite Hnone in Hd; [discriminate |].
      apply list_elem_of_In. eapply list_elem_of_lookup_2. exact Hs0. }
    unfold chooseShow. cbv zeta. now rewrite Hc.
  - apply availableSeatIds_loop_none. intros s Hs.
    specialize (Hnone s Hs). unfold on_day in Hnone. unfold same_show.
    destruct (String.eqb (movieName s) moviename); [| reflexivity].
    cbn [andb] in *. destruct (Z.eqb_spec (start s) dt) as [E | ]; [| reflexivity].
    rewrite E, Z.eqb_refl in Hnone. discriminate.
Qed.

(** ** Instants: what [bookSeats] reads of [dt], and today's shows *)

Lemma HM_eqb_refl (a : HM) : HM_eqb a a = true.
Proof. unfold HM_eqb. now rewrite !Z.eqb_refl. Qed.

Lemma time_match_exact (moviename : string) (s : ShowInfo) :
  movieName s = moviename -> time_match moviename (start s) s = true.
Proof.
  intros <-. unfold time_match, on_day.
  now rewrite String.eqb_refl, Z.eqb_refl, HM_eqb_refl.
Qed.

(** X7.  [bookSeats] reads of [dt] its local midnight, and in time-match mode
    its local hour and minute, and nothing else: two instants of one day
    answer alike in ordinal mode, and in time-match mode when they also agree
    on hour and minute. *)
Theorem bookSeats_reads_day_and_minute (th : Theater) (moviename : string)
    (dt dt' : time_t) (seatIds : list string) (show_no : Z) :
  toLocalMidnight dt = toLocalMidnight dt' ->
  show_no <> 0 \/ hour_min_local dt = hour_min_local dt' ->
  bookSeats th moviename dt seatIds show_no
  = bookSeats th moviename dt' seatIds show_no.
Proof.
  intros Hday Hhm. unfold bookSeats, chooseShow, book_locked. cbv zeta.
  rewrite Hday. destruct (Z.eqb_spec show_no 0) as [E0 | Hne].
  - destruct Hhm as [Hhm | Hhm]; [contradiction |]. now rewrite Hhm.
  - reflexivity.
Qed.

Lemma getTodaysDate_in_range (now_t : time_t) (h m : Z) (dt : time_t) :
  getTodaysDate now_t h m = Some dt ->
  0 <= h <= 23 /\ 0 <= m <= 59 /\ dt = mktime (make_today_tm now_t h m).
Proof.
  unfold getTodaysDate, make_today_tm. rewrite !Z.gtb_ltb.
  destruct (Z.ltb_spec h 0), (Z.ltb_spec 23 h), (Z.ltb_spec m 0),
    (Z.ltb_spec 59 m); cbn [orb]; try discriminate.
  intros Hsome. injection Hsome as <-. repeat split; lia.
Qed.

(** X8.  Whatever the local-time functions do: after a show is added for
    today at [h]:[m] with [make_today_tm], the instant [getTodaysDate]
    answers for the same reading of the clock finds it: the theater has a
    show of the title on that day and time-match mode resolves a show; when
    no earlier show of the theater matches the title, day, hour and minute,
    the show resolved is the new one, and every non-empty request whose ids
    decode below the capacity is granted. *)
Theorem today_show_bookable (th : Theater) (name : string) (now_t : time_t)
    (h m : Z) (p : float) (dt : time_t) :
  0 <= maxSeats th <= INT_MAX ->
  getTodaysDate now_t h m = Some dt ->
  let th' := state_of (addShowInfo_tm th name (make_today_tm now_t h m) p) in
  hasShowOnDay th' name dt = true
  /\ (exists k, chooseShow th' name dt 0 = Some k)
  /\ ((forall s, In s (vShowInfo th) -> time_match name dt s = false) ->
      chooseShow th' name dt 0 = Some (length (vShowInfo th))
      /\ forall seatIds,
           seatIds <> [] ->
           (forall id, In id seatIds ->
              0 <= seatIndexFromId th id < maxSeats th) ->
           fst (bookSeats th' name dt seatIds 0) = true).
Proof.
  intros Hcap Hdt th'.
  apply getTodaysDate_in_range in Hdt. destruct Hdt as (_ & _ & ->).
  set (dt := mktime (make_today_tm now_t h m)) in *.
  set (fresh := {| movieName := name; start := dt; price := p;
                   freeTickets := maxSeats th;
                   taken := replicate (Z.to_nat (maxSeats th)) false |}).
  assert (Hth' : th' = set_shows th (vShowInfo th ++ [fresh])).
  { unfold th', addShowInfo_tm. now rewrite addShowInfo_returns by assumption. }
  assert (Hlast : vShowInfo th' !! length (vShowInfo th) = Some fresh).
  { rewrite Hth'. cbn [set_shows vShowInfo].
    rewrite lookup_app_r by lia. now rewrite Nat.sub_diag. }
  assert (Hm : time_match name dt fresh = true) by now apply (time_match_exact name fresh).
  pose proof (chooseShow_time_match th' name dt) as Hchoose.
  split; [| split].
  - apply hasShowOnDay_spec. exists fresh.
    split; [apply list_elem_of_In; eapply list_elem_of_lookup_2; exact Hlast |].
    split; reflexivity.
  - destruct (chooseShow th' name dt 0) as [k |]; [now exists k |].
    rewrite (Hchoose _ _ Hlast) in Hm. discriminate.
  - intros Hnone.
    assert (Hc : chooseShow th' name dt 0 = Some (length (vShowInfo th))).
    { destruct (chooseShow th' name dt 0) as [k |].
      - destruct Hchoose as (s & Hs & Hms & Hleast).
        destruct (Nat.lt_trichotomy k (length (vShowInfo th))) as [Hlt | [-> | Hgt]].
        + rewrite Hth' in Hs. cbn [set_shows vShowInfo] in Hs.
          rewrite lookup_app_l in Hs by assumption.
          rewrite Hnone in Hms; [discriminate |].
          apply list_elem_of_In. eapply list_elem_of_lookup_2. exact Hs.
        + reflexivity.
        + rewrite (Hleast _ _ Hgt Hlast) in Hm. discriminate.
      - rewrite (Hchoose _ _ Hlast) in Hm. discriminate. }
    split; [exact Hc |].
    intros seatIds Hne Hids. unfold bookSeats.
    destruct seatIds as [| id0 rest] eqn:E; [contradiction |]. rewrite <- E in *.
    rewrite Hc. unfold book_locked. rewrite Hlast.
    unfold time_match in Hm. apply andb_true_iff in Hm. destruct Hm as [Hd Hhm].
    unfold on_day in Hd. apply andb_true_iff in Hd. destruct Hd as [Hd1 Hd2].
    rewrite Hd1, Hd2, Hhm. cbn [negb orb andb]. rewrite andb_false_r.
    rewrite validate_seats_complete; [reflexivity | |].
    + cbn [fresh taken]. rewrite length_replicate. unfold INT_MAX in *. lia.
    + intros id Hid.
      rewrite (seatIndexFromId_same_capacity th th' id) by (now rewrite Hth').
      specialize (Hids id Hid).
      split; [rewrite Hth'; exact Hids |].
      cbn [fresh taken]. apply lookup_replicate_2. lia.
Qed.

Lemma availableSeatIds_loop_throws (th : Theater) (shows : list ShowInfo)
    (moviename : string) (start_t : time_t) :
  INT_MIN <= maxSeats th < 0 ->
  (exists s, In s shows /\ same_show moviename start_t s = true) ->
  availableSeatIds_loop th shows moviename start_t = Query_threw_length_error.
Proof.
  intros Hcap. induction shows as [| s0 rest IH]; intros (s & Hin & Hs).
  - destruct Hin.
  - simpl. destruct (same_show moviename start_t s0) eqn:E.
    + now apply free_ids_of_throws.
    + apply IH. destruct Hin as [-> | Hin]; [congruence |]. now exists s.
Qed.

(** X9.  A theater whose capacity is zero or negative has no seat: every
    identifier is invalid, and every call to [bookSeats] answers [false] and
    writes nothing.  The free-seat query is empty when the capacity is zero,
    and when no show has the title and start; when the capacity is negative
    and a show has the title and start, it throws [std::length_error]. *)
Theorem capacity_not_positive (th : Theater) :
  maxSeats th <= 0 ->
  (forall id, seatIndexFromId th id = -1)
  /\ (forall moviename dt seatIds show_no,
        bookSeats th moviename dt seatIds show_no = (false, th))
  /\ (forall moviename start_t,
        (maxSeats th = 0
         \/ (forall s, In s (vShowInfo th) ->
               same_show moviename start_t s = false) ->
         availableSeatIds th moviename start_t = Answered [])
        /\ (INT_MIN <= maxSeats th < 0 ->
            (exists s, In s (vShowInfo th)
                       /\ same_show moviename start_t s = true) ->
            availableSeatIds th moviename start_t = Query_threw_length_error)).
Proof.
  intros Hcap.
  assert (Hinvalid : forall id, seatIndexFromId th id = -1).
  { intros id. unfold seatIndexFromId. destruct id as [| c0 rest]; [reflexivity |].
    destruct (_ || _); [reflexivity |].
    destruct (strtol10 (c_str rest)) as [n endp].
    rewrite Z.gtb_ltb.
    destruct (Z.leb_spec n 0); [now rewrite orb_true_r |].
    destruct (Z.ltb_spec (maxSeats th) n); [now rewrite orb_true_r | lia]. }
  split; [exact Hinvalid |]. split.
  - intros moviename dt seatIds show_no.
    destruct (bookSeats th moviename dt seatIds show_no) as [[|] th'] eqn:E.
    + apply bookSeats_true in E.
      destruct E as (Hne & k & show & _ & _ & _ & _ & Hv & _).
      apply validate_seats_Some in Hv. destruct Hv as [_ Hids].
      destruct seatIds as [| id rest]; [contradiction |].
      destruct (Hids id (or_introl eq_refl)) as [Hr _]. rewrite Hinvalid in Hr. lia.
    + apply bookSeats_false in E. now subst th'.
  - intros moviename start_t. split.
    + intros [Hzero | Hnone]; [| now apply availableSeatIds_loop_none].
      unfold availableSeatIds.
      induction (vShowInfo th) as [| s l IH]; simpl; [reflexivity |].
      destruct (same_show moviename start_t s); [| exact IH].
      unfold free_ids_of, free_ids_loop. rewrite Hzero. reflexivity.
    + intros Hneg Hsome. now apply availableSeatIds_loop_throws.
Qed.

(** What [addShowInfo] returns in a theater of non-negative capacity, and
    what the free-seat query then answers. *)
Lemma addShowInfo_fresh_show_parts (th : Theater) (name : string)
    (start_t : time_t) (p : float) :
  0 <= maxSeats th <= INT_MAX ->
  let fresh := {| movieName := name; start := start_t; price := p;
                  freeTickets := maxSeats th;
                  taken := replicate (Z.to_nat (maxSeats th)) false |} in
  addShowInfo th name start_t p
  = Returned (set_shows th (vShowInfo th ++ [fresh]))
  /\ ((forall s, In s (vShowInfo th) -> same_show name start_t s = false) ->
      availableSeatIds (set_shows th (vShowInfo th ++ [fresh])) name start_t
      = Answered (map (fun i => String "A" (to_string (Z.of_nat i + 1)))
                    (seq 0 (Z.to_nat (maxSeats th))))).
Proof.
  intros Hcap fresh. split; [now apply addShowInfo_returns |].
  intros Hnone. unfold availableSeatIds. cbn [vShowInfo set_shows].
  rewrite (availableSeatIds_loop_first _ _ _ _ (length (vShowInfo th)) fresh).
  - exact (free_ids_of_fresh (set_shows th _) fresh Hcap eq_refl).
  - rewrite lookup_app_r by lia. rewrite Nat.sub_diag. reflexivity.
  - unfold same_show. cbn. now rewrite String.eqb_refl, Z.eqb_refl.
  - intros j s' Hj Hl. rewrite lookup_app_l in Hl by lia.
    apply Hnone. apply list_elem_of_In. eapply list_elem_of_lookup_2. exact Hl.
Qed.

(** ** The service: its theaters *)

Lemma find_theater_Some (svc : MovieBookingService) (theater : string)
    (i : nat) (th : Theater) :
  find_theater svc theater = Some (i, th)
  <-> svc !! i = Some th /\ theaterName th = theater
      /\ forall j y, svc !! j = Some y -> (j < i)%nat -> theaterName y <> theater.
Proof.
  unfold find_theater.
  exact (list_find_Some (fun t => theaterName t = theater) svc i th).
Qed.

Lemma find_theater_None (svc : MovieBookingService) (theater : string) :
  find_theater svc theater = None
  <-> forall th, In th svc -> theaterName th <> theater.
Proof.
  unfold find_theater.
  rewrite (list_find_None (fun t => theaterName t = theater) svc).
  rewrite List.Forall_forall. reflexivity.
Qed.

Lemma names_insert (svc : MovieBookingService) (i : nat) (th th' : Theater) :
  svc !! i = Some th -> theaterName th' = theaterName th ->
  map theaterName (<[i := th']> svc) = map theaterName svc.
Proof.
  revert i. induction svc as [| t l IH]; intros [| i] H E; simpl in *;
    try discriminate.
  - injection H as ->. now rewrite E.
  - f_equal. now apply IH.
Qed.

Lemma theaterName_addShowInfo (th : Theater) (name : string) (start_t : time_t)
    (p : float) :
  theaterName (state_of (addShowInfo th name start_t p)) = theaterName th.
Proof. apply continues_addShowInfo. Qed.

Lemma find_or_emplace_spec (svc : MovieBookingService) (theater : string) :
  let '(svc1, i) := find_or_emplace svc theater in
  exists th, svc1 !! i = Some th /\ theaterName th = theater
    /\ (NoDup (map theaterName svc) -> NoDup (map theaterName svc1)).
Proof.
  unfold find_or_emplace.
  destruct (find_theater svc theater) as [[i th] |] eqn:E.
  - apply find_theater_Some in E. destruct E as (Hi & Hn & _).
    exists th. split; [exact Hi |]. split; [exact Hn | tauto].
  - exists (Theater_new theater defaultTheaterCapacity).
    split; [rewrite lookup_app_r by lia; now rewrite Nat.sub_diag |].
    split; [reflexivity |].
    intros Hnd. rewrite List.map_app. cbn [map].
    apply NoDup_app. split; [exact Hnd |]. split; [| apply NoDup_singleton].
    intros x Hx Hx'. apply list_elem_of_In in Hx'. destruct Hx' as [<- | []].
    apply list_elem_of_In, List.in_map_iff in Hx. destruct Hx as (t & Ht & Hin).
    rewrite find_theater_None in E. exact (E t Hin Ht).
Qed.

Lemma names_run_service_call (svc : MovieBookingService) (c : service_call) :
  NoDup (map theaterName svc) ->
  NoDup (map theaterName (run_service_call svc c)).
Proof.
  intros Hnd.
  assert (Hadd : forall theater movie start_t p,
    NoDup (map theaterName
             (service_of (Service_addShowInfo svc theater movie start_t p)))).
  { intros theater movie start_t p. unfold Service_addShowInfo.
    pose proof (find_or_emplace_spec svc theater) as H.
    destruct (find_or_emplace svc theater) as [svc1 i].
    destruct H as (th & Hi & _ & Hnd1). rewrite Hi.
    pose proof (theaterName_addShowInfo th movie start_t p) as Hname.
    destruct (addShowInfo th movie start_t p) as [th' | th']; cbn [service_of state_of] in *;
      rewrite (names_insert svc1 i th th' Hi Hname); auto. }
  destruct c as [theater capacity | theater movie start_t p
                | theater movie stime p | theater moviename dt seatIds show_no];
    cbn [run_service_call].
  - unfold addTheater.
    destruct (find_theater svc theater) as [[i th] |] eqn:E; [exact Hnd |].
    rewrite List.map_app. cbn [map].
    apply NoDup_app. split; [exact Hnd |]. split; [| apply NoDup_singleton].
    intros x Hx Hx'. apply list_elem_of_In in Hx'. destruct Hx' as [<- | []].
    apply list_elem_of_In, List.in_map_iff in Hx. destruct Hx as (t & Ht & Hin).
    rewrite find_theater_None in E. exact (E t Hin Ht).
  - apply Hadd.
  - apply Hadd.
  - unfold Service_bookSeats.
    destruct (find_theater svc theater) as [[i th] |] eqn:E; [| exact Hnd].
    apply find_theater_Some in E. destruct E as (Hi & _ & _). cbn [snd].
    rewrite (names_insert svc i th _ Hi); [exact Hnd |].
    apply continues_bookSeats.
Qed.

(** X10.  The theaters of a service have pairwise distinct names, whatever
    calls to [addTheater], [addShowInfo] and [bookSeats] built it from the
    empty service. *)
Theorem service_names_distinct (cs : list service_call) :
  NoDup (map theaterName (run_service_calls MovieBookingService_new cs)).
Proof.
  unfold run_service_calls.
  assert (H0 : NoDup (map theaterName MovieBookingService_new)) by constructor.
  generalize dependent MovieBookingService_new.
  induction cs as [| c cs IH]; intros svc Hnd; simpl; [exact Hnd |].
  apply IH. now apply names_run_service_call.
Qed.

(** X11.  [addTheater] registers a name once: for a name that is present the
    service is left as it is, whatever the capacity given; for a new name a
    theater of that capacity without shows is appended; afterwards the name
    is found, a second [addTheater] of the name changes nothing, and the
    search for any other name answers as before. *)
Theorem addTheater_spec (svc : MovieBookingService) (theater : string)
    (capacity : Z) :
  (forall i th, find_theater svc theater = Some (i, th) ->
     addTheater svc theater capacity = svc)
  /\ (find_theater svc theater = None ->
      addTheater svc theater capacity
      = (svc ++ [Theater_new theater capacity])%list
      /\ find_theater (addTheater svc theater capacity) theater
         = Some (length svc, Theater_new theater capacity))
  /\ (exists i th,
        find_theater (addTheater svc theater capacity) theater = Some (i, th))
  /\ (forall capacity',
        addTheater (addTheater svc theater capacity) theater capacity'
        = addTheater svc theater capacity)
  /\ (forall other, other <> theater ->
        find_theater (addTheater svc theater capacity) other
        = find_theater svc other).
Proof.
  assert (Hnew : find_theater svc theater = None ->
    find_theater (svc ++ [Theater_new theater capacity]) theater
    = Some (length svc, Theater_new theater capacity)).
  { intros E. apply find_theater_Some.
    split; [rewrite lookup_app_r by lia; now rewrite Nat.sub_diag |].
    split; [reflexivity |].
    intros j y Hj Hlt. rewrite lookup_app_l in Hj by assumption.
    rewrite find_theater_None in E. apply E.
    apply list_elem_of_In. eapply list_elem_of_lookup_2. exact Hj. }
  assert (Hfound : exists i th,
    find_theater (addTheater svc theater capacity) theater = Some (i, th)).
  { unfold addTheater.
    destruct (find_theater svc theater) as [[i th] |] eqn:E.
    - exists i, th. exact E.
    - exists (length svc), (Theater_new theater capacity). now apply Hnew. }
  split; [| split; [| split; [| split]]].
  - intros i th E. unfold addTheater. now rewrite E.
  - intros E. unfold addTheater. rewrite E. split; [reflexivity | now apply Hnew].
  - exact Hfound.
  - intros capacity'. destruct Hfound as (i & th & E).
    unfold addTheater at 1. now rewrite E.
  - intros other Hne. unfold addTheater.
    destruct (find_theater svc theater) as [[i th] |] eqn:E; [reflexivity |].
    unfold find_theater.
    destruct (list_find (fun th => theaterName th = other) svc) as [[j t] |] eqn:Ef.
    + apply list_find_app_l with (l2 := [Theater_new theater capacity]) in Ef.
      exact Ef.
    + rewrite list_find_app_r by exact Ef. cbn.
      rewrite decide_False by (cbn; congruence). reflexivity.
Qed.

(** X12.  [bookSeats] of the service answers [false] and changes nothing for
    a theater name that is not registered; otherwise it answers what
    [bookSeats] of the first theater of that name answers, puts that theater
    in its place and leaves every other theater as it was; and whenever it
    answers [false] the service is unchanged. *)
Theorem Service_bookSeats_spec (svc : MovieBookingService) (theater : string)
    (moviename : string) (dt : time_t) (seatIds : list string) (show_no : Z) :
  let r := Service_bookSeats svc theater moviename dt seatIds show_no in
  (find_theater svc theater = None -> r = (false, svc))
  /\ (forall i th, find_theater svc theater = Some (i, th) ->
        fst r = fst (bookSeats th moviename dt seatIds show_no)
        /\ snd r !! i = Some (snd (bookSeats th moviename dt seatIds show_no))
        /\ forall j, j <> i -> snd r !! j = svc !! j)
  /\ (fst r = false -> snd r = svc)
  /\ length (snd r) = length svc.
Proof.
  intros r. subst r. unfold Service_bookSeats.
  destruct (find_theater svc theater) as [[i th] |] eqn:E.
  - pose proof E as E'. apply find_theater_Some in E'. destruct E' as (Hi & _ & _).
    pose proof (lookup_lt_Some _ _ _ Hi) as Hlt.
    split; [discriminate |]. split; [| split].
    + intros i' th' Heq. injection Heq as <- <-. cbn [fst snd].
      split; [reflexivity |]. split; [now apply list_lookup_insert_eq |].
      intros j Hj. now apply list_lookup_insert_ne.
    + cbn [fst snd]. intros Hfalse.
      destruct (bookSeats th moviename dt seatIds show_no) as [b th'] eqn:Eb.
      cbn [fst snd] in *. subst b. apply bookSeats_false in Eb. subst th'.
      now apply list_insert_id.
    + cbn [snd]. apply length_insert.
  - split; [reflexivity |]. split; [discriminate |]. split; reflexivity.
Qed.

(** X13.  [addShowInfo] of the service makes the theater when the name is
    not registered: a theater of the default capacity, 20, is appended with
    the one show, whose twenty seats "A1" .. "A20" are free; for a registered
    name the show goes to the first theater of that name and every other
    theater is left as it was. *)
Theorem Service_addShowInfo_spec (svc : MovieBookingService) (theater : string)
    (movie : string) (start_t : time_t) (p : float) :
  (find_theater svc theater = None ->
   exists th',
     Service_addShowInfo svc theater movie start_t p
     = Service_returned (svc ++ [th'])
     /\ theaterName th' = theater /\ maxSeats th' = 20
     /\ vShowInfo th'
        = [{| movieName := movie; start := start_t; price := p;
              freeTickets := 20; taken := replicate 20 false |}]
     /\ availableSeatIds th' movie start_t
        = Answered
            (map (fun i => String "A" (to_string (Z.of_nat i + 1))) (seq 0 20)))
  /\ (forall i th, find_theater svc theater = Some (i, th) ->
        let svc' := service_of (Service_addShowInfo svc theater movie start_t p) in
        svc' !! i = Some (state_of (addShowInfo th movie start_t p))
        /\ length svc' = length svc
        /\ forall j, j <> i -> svc' !! j = svc !! j).
Proof.
  split.
  - intros E. unfold Service_addShowInfo, find_or_emplace. rewrite E.
    rewrite lookup_app_r by lia. rewrite Nat.sub_diag. cbn [lookup list_lookup].
    assert (Hcap : 0 <= maxSeats (Theater_new theater defaultTheaterCapacity)
                   <= INT_MAX) by (vm_compute; split; discriminate).
    destruct (addShowInfo_fresh_show_parts
                (Theater_new theater defaultTheaterCapacity) movie start_t p Hcap)
      as (Hret & Hquery).
    rewrite Hret. eexists. split.
    + f_equal. rewrite insert_app_r_alt by lia. rewrite Nat.sub_diag. reflexivity.
    + split; [reflexivity |]. split; [reflexivity |]. split; [reflexivity |].
      apply Hquery. intros s [].
  - intros i th E svc'. subst svc'. unfold Service_addShowInfo, find_or_emplace.
    rewrite E. apply find_theater_Some in E. destruct E as (Hi & _ & _).
    pose proof (lookup_lt_Some _ _ _ Hi) as Hlt. rewrite Hi.
    destruct (addShowInfo th movie start_t p) as [th' | th'];
      cbn [service_of state_of];
      (split; [now apply list_lookup_insert_eq |]);
      (split; [apply length_insert |]);
      intros j Hj; now apply list_lookup_insert_ne.
Qed.

(** ** The service: its queries *)

Lemma unique_sort_strings (l : list string) :
  StronglySorted (fun a b => String.ltb a b = true) (unique (sort_strings l))
  /\ forall x, In x (unique (sort_strings l)) <-> In x l.
Proof.
  destruct (unique_sorted _ (sort_strings_sorted l)) as [Hs Hin].
  split; [exact Hs |]. intros x. rewrite Hin. split; intros H.
  - exact (Permutation_in _ (sort_strings_Permutation l) H).
  - exact (Permutation_in _ (Permutation_sym (sort_strings_Permutation l)) H).
Qed.

Lemma listMovies_In (svc : MovieBookingService) (day : time_t) (name : string) :
  In name (listMovies svc day)
  <-> exists th, In th svc /\ hasShowOnDay th name day = true.
Proof.
  unfold listMovies. rewrite (proj2 (unique_sort_strings _)).
  rewrite List.in_concat. split.
  - intros (titles & Ht & Hn). apply List.in_map_iff in Ht.
    destruct Ht as (th & <- & Hth). exists th. split; [exact Hth |].
    apply hasShowOnDay_spec. now apply getMovieListOn_In.
  - intros (th & Hth & Hhas). exists (getMovieListOn th day). split.
    + apply List.in_map_iff. now exists th.
    + apply getMovieListOn_In. now apply hasShowOnDay_spec.
Qed.

Lemma listTheatersShowingMovie_In (svc : MovieBookingService) (movie : string)
    (day : time_t) (name : string) :
  In name (listTheatersShowingMovie svc movie day)
  <-> exists th, In th svc /\ theaterName th = name
                 /\ hasShowOnDay th movie day = true.
Proof.
  unfold listTheatersShowingMovie. rewrite (proj2 (unique_sort_strings _)).
  rewrite List.in_map_iff. split.
  - intros (th & Hn & Hf). apply List.filter_In in Hf. destruct Hf as [Hth Hhas].
    now exists th.
  - intros (th & Hth & Hn & Hhas). exists th. split; [exact Hn |].
    apply List.filter_In. now split.
Qed.

(** X14.  [listMovies] answers the titles in strictly ascending order, so
    without repetition, and a title is listed exactly when some theater of
    the service has a show of it on the local day of [day]. *)
Theorem listMovies_spec (svc : MovieBookingService) (day : time_t) :
  StronglySorted (fun a b => String.ltb a b = true) (listMovies svc day)
  /\ forall name,
       In name (listMovies svc day)
       <-> exists th, In th svc /\ hasShowOnDay th name day = true.
Proof.
  split; [apply unique_sort_strings | apply listMovies_In].
Qed.

(** X15.  [listTheatersShowingMovie] answers theater names in strictly
    ascending order; a name is listed exactly when a theater of that name
    has a show of the title on that day; and the list is non-empty exactly
    when [listMovies] lists the title for that day. *)
Theorem listTheatersShowingMovie_spec (svc : MovieBookingService)
    (movie : string) (day : time_t) :
  StronglySorted (fun a b => String.ltb a b = true)
    (listTheatersShowingMovie svc movie day)
  /\ (forall name,
        In name (listTheatersShowingMovie svc movie day)
        <-> exists th, In th svc /\ theaterName th = name
                       /\ hasShowOnDay th movie day = true)
  /\ (listTheatersShowingMovie svc movie day <> []
      <-> In movie (listMovies svc day)).
Proof.
  split; [apply unique_sort_strings |]. split; [apply listTheatersShowingMovie_In |].
  rewrite listMovies_In. split.
  - intros Hne.
    destruct (listTheatersShowingMovie svc movie day) as [| name r] eqn:E;
      [congruence |].
    assert (Hin : In name (listTheatersShowingMovie svc movie day))
      by (rewrite E; now left).
    apply listTheatersShowingMovie_In in Hin. destruct Hin as (th & Hth & _ & Hhas).
    now exists th.
  - intros (th & Hth & Hhas) E.
    assert (Hin : In (theaterName th) (listTheatersShowingMovie svc movie day)).
    { apply listTheatersShowingMovie_In. now exists th. }
    rewrite E in Hin. destruct Hin.
Qed.

Lemma selectMovie_step_lookup (movie : string) (day : time_t)
    (result : gmap string (list ShowInfo)) (t : Theater) (name : string) :
  selectMovie_step movie day result t !! name
  = match result !! name with
    | Some v => Some v
    | None =>
        if decide (theaterName t = name
                   /\ getListofMovieShowsOn t movie day <> [])
        then Some (getListofMovieShowsOn t movie day) else None
    end.
Proof.
  unfold selectMovie_step, emplace.
  destruct (getListofMovieShowsOn t movie day) as [| s r] eqn:E.
  - destruct (result !! name); [reflexivity |].
    rewrite decide_False; [reflexivity |]. intros [_ H]. now apply H.
  - destruct (decide (theaterName t = name)) as [<- | Hne].
    + destruct (result !! theaterName t) eqn:Er.
      * now rewrite Er.
      * rewrite lookup_insert_eq.
        rewrite decide_True; [reflexivity |]. split; [reflexivity | discriminate].
    + assert (Hl : (match result !! theaterName t with
                    | Some _ => result
                    | None => <[theaterName t := s :: r]> result
                    end) !! name = result !! name).
      { destruct (result !! theaterName t); [reflexivity |].
        now apply lookup_insert_ne. }
      rewrite Hl. destruct (result !! name); [reflexivity |].
      rewrite decide_False; [reflexivity |]. intros [H _]. now apply Hne.
Qed.

Lemma selectMovie_fold_lookup (svc : MovieBookingService) (movie : string)
    (day : time_t) (result : gmap string (list ShowInfo)) (name : string) :
  fold_left (selectMovie_step movie day) svc result !! name
  = match result !! name with
    | Some v => Some v
    | None =>
        match list_find (fun t => theaterName t = name
                                  /\ getListofMovieShowsOn t movie day <> []) svc
        with
        | Some (_, t) => Some (getListofMovieShowsOn t movie day)
        | None => None
        end
    end.
Proof.
  revert result. induction svc as [| t svc IH]; intros result; simpl.
  - destruct (result !! name); reflexivity.
  - rewrite IH, selectMovie_step_lookup.
    destruct (result !! name) as [v |]; [reflexivity |].
    destruct (decide (theaterName t = name
                      /\ getListofMovieShowsOn t movie day <> [])) as [Hd | Hd].
    + reflexivity.
    + destruct (list_find _ svc) as [[j y] |]; reflexivity.
Qed.

(** X16.  [selectMovie] has an entry under a theater name exactly when a
    theater of that name has a show of the title on that day, that is when
    [listTheatersShowingMovie] lists the name; the entry holds the shows of
    the first such theater of the service, in the theater's order, and is
    never empty. *)
Theorem selectMovie_spec (svc : MovieBookingService) (movie : string)
    (day : time_t) (name : string) :
  (forall shows,
     selectMovie svc movie day !! name = Some shows
     <-> exists i th,
           svc !! i = Some th /\ theaterName th = name
           /\ getListofMovieShowsOn th movie day = shows /\ shows <> []
           /\ forall j y, svc !! j = Some y -> (j < i)%nat ->
                ~ (theaterName y = name
                   /\ getListofMovieShowsOn y movie day <> []))
  /\ (is_Some (selectMovie svc movie day !! name)
      <-> In name (listTheatersShowingMovie svc movie day)).
Proof.
  assert (Hlook : forall shows,
     selectMovie svc movie day !! name = Some shows
     <-> exists i th,
           svc !! i = Some th /\ theaterName th = name
           /\ getListofMovieShowsOn th movie day = shows /\ shows <> []
           /\ forall j y, svc !! j = Some y -> (j < i)%nat ->
                ~ (theaterName y = name
                   /\ getListofMovieShowsOn y movie day <> [])).
  { intros shows. unfold selectMovie; rewrite selectMovie_fold_lookup.
    rewrite lookup_empty. split.
    - destruct (list_find _ svc) as [[i th] |] eqn:E; [| discriminate].
      intros Heq. injection Heq as <-.
      apply list_find_Some in E. destruct E as (Hi & [Hn Hne] & Hfirst).
      exists i, th. split; [exact Hi |]. split; [exact Hn |].
      split; [reflexivity |]. split; [exact Hne | exact Hfirst].
    - intros (i & th & Hi & Hn & Hs & Hne & Hfirst).
      assert (E : list_find
                    (fun t => theaterName t = name
                              /\ getListofMovieShowsOn t movie day <> []) svc
                  = Some (i, th)).
      { apply list_find_Some. split; [exact Hi |]. split; [| exact Hfirst].
        split; [exact Hn |]. now rewrite Hs. }
      rewrite E. now rewrite Hs. }
  split; [exact Hlook |].
  rewrite listTheatersShowingMovie_In. split.
  - intros [shows Hs]. apply Hlook in Hs.
    destruct Hs as (i & th & Hi & Hn & Hs & Hne & _).
    exists th. split; [apply list_elem_of_In; eapply list_elem_of_lookup_2; exact Hi |].
    split; [exact Hn |].
    apply (hasShowOnDay_nonempty th movie day). now rewrite Hs.
  - intros (th & Hth & Hn & Hhas).
    unfold selectMovie; rewrite selectMovie_fold_lookup, lookup_empty.
    destruct (list_find _ svc) as [[i t] |] eqn:E; [eexists; reflexivity |].
    exfalso. apply list_find_None in E. rewrite List.Forall_forall in E.
    apply (E th Hth). split; [exact Hn |].
    now apply (hasShowOnDay_nonempty th movie day).
Qed.

Lemma key_ltb_strict_weak_order {A} (key : A -> Z) :
  strict_weak_order_on (fun a b => key a <? key b).
Proof.
  split; [| split].
  - intros a. apply Z.ltb_irrefl.
  - intros a b c H1 H2. apply Z.ltb_lt in H1, H2. apply Z.ltb_lt. lia.
  - intros a b c H1 H2 H3 H4. apply Z.ltb_ge in H1, H2, H3, H4.
    split; apply Z.ltb_ge; lia.
Qed.

(** X17.  [selectTheater] answers nothing for a theater name that is not
    registered; for a registered one it answers the shows of that theater
    on the local day of [day], each once, rearranged so that the start times
    never decrease. *)
Theorem selectTheater_spec
    (sort_shows : (ShowInfo -> ShowInfo -> bool) -> list ShowInfo -> list ShowInfo)
    (svc : MovieBookingService) (theater : string) (day : time_t) :
  sort_contract_on sort_shows ->
  (find_theater svc theater = None ->
   selectTheater sort_shows svc theater day = [])
  /\ (forall i th, find_theater svc theater = Some (i, th) ->
        let shows := selectTheater sort_shows svc theater day in
        Permutation shows (getListOfShowsOn th day)
        /\ (forall s, In s shows
              <-> In s (vShowInfo th)
                  /\ toLocalMidnight (start s) = toLocalMidnight day)
        /\ forall a b x y, (a < b)%nat ->
             shows !! a = Some x -> shows !! b = Some y -> start x <= start y).
Proof.
  intros Hsort. unfold selectTheater. split; [intros ->; reflexivity |].
  intros i th E. cbv zeta. rewrite E. clear E.
  destruct (Hsort (fun a b => start a <? start b) (getListOfShowsOn th day))
    as [Hperm Hasc].
  split; [exact Hperm |]. split.
  - intros s.
    assert (Hin : In s (getListOfShowsOn th day)
                  <-> In s (vShowInfo th)
                      /\ toLocalMidnight (start s) = toLocalMidnight day).
    { unfold getListOfShowsOn, starts_on. rewrite List.filter_In.
      now rewrite Z.eqb_eq. }
    rewrite <- Hin. split; intros H.
    + exact (Permutation_in _ Hperm H).
    + exact (Permutation_in _ (Permutation_sym Hperm) H).
  - intros a b x y Hab Hx Hy.
    pose proof (Hasc (key_ltb_strict_weak_order start) a b x y Hab Hx Hy) as H.
    now apply Z.ltb_ge in H.
Qed.

(** The loop of [seatsAvailable] when no call of [availableSeatIds]
    throws. *)
Lemma seatsAvailable_loop_returns (th : Theater) (movie : string)
    (shows : list ShowInfo) :
  (forall s, In s shows ->
     exists ids, availableSeatIds th movie (start s) = Answered ids) ->
  exists tickets,
    seatsAvailable_loop th movie shows = Answered tickets
    /\ Forall2 (fun s e => avail_start e = start s /\ avail_price e = price s
                           /\ availableSeatIds th movie (start s)
                              = Answered (seats e))
         shows tickets.
Proof.
  induction shows as [| s rest IH]; intros Hall; simpl.
  - exists []. split; [reflexivity | constructor].
  - destruct (Hall s (or_introl eq_refl)) as [ids Hids]. rewrite Hids.
    destruct IH as (tickets & -> & Hrest).
    { intros s' Hs'. apply Hall. now right. }
    eexists. split; [reflexivity |].
    constructor; [| exact Hrest]. cbn. repeat split. exact Hids.
Qed.

(** In a theater of non-negative capacity the free-seat query returns. *)
Lemma availableSeatIds_returns (th : Theater) (moviename : string)
    (start_t : time_t) :
  0 <= maxSeats th <= INT_MAX ->
  exists ids, availableSeatIds th moviename start_t = Answered ids.
Proof.
  intros Hcap. unfold availableSeatIds.
  induction (vShowInfo th) as [| s l IH]; simpl; [now exists [] |].
  destruct (same_show moviename start_t s); [| exact IH].
  rewrite free_ids_of_returns by assumption. now eexists.
Qed.

(** X18.  [seatsAvailable] answers nothing for a theater name that is not
    registered, and nothing for a registered theater without a show of the
    title on that day.  For a registered theater whose capacity is a
    non-negative [int] it answers one entry for every show of the title on
    that day, sold-out shows included, rearranged so that the start times
    never decrease, and the seats of an entry are what [availableSeatIds]
    answers for the title and the entry's start time.  For a registered
    theater whose capacity is negative and which has a show of the title on
    that day, the call throws [std::length_error]. *)
Theorem seatsAvailable_spec
    (sort_tickets : (ShowSeatsAvailable -> ShowSeatsAvailable -> bool) ->
                    list ShowSeatsAvailable -> list ShowSeatsAvailable)
    (svc : MovieBookingService) (theater movie : string) (day : time_t) :
  sort_contract_on sort_tickets ->
  (find_theater svc theater = None ->
   seatsAvailable sort_tickets svc theater movie day = Answered [])
  /\ (forall i th, find_theater svc theater = Some (i, th) ->
        (0 <= maxSeats th <= INT_MAX ->
         exists tickets entries,
           seatsAvailable sort_tickets svc theater movie day = Answered tickets
           /\ Forall2 (fun s e => avail_start e = start s
                                  /\ avail_price e = price s
                                  /\ availableSeatIds th movie (start s)
                                     = Answered (seats e))
                (getListofMovieShowsOn th movie day) entries
           /\ Permutation tickets entries
           /\ length tickets = length (getListofMovieShowsOn th movie day)
           /\ (tickets = [] <-> hasShowOnDay th movie day = false)
           /\ (forall e, In e tickets ->
                 availableSeatIds th movie (avail_start e) = Answered (seats e))
           /\ forall a b x y, (a < b)%nat ->
                tickets !! a = Some x -> tickets !! b = Some y ->
                avail_start x <= avail_start y)
        /\ (INT_MIN <= maxSeats th < 0 ->
            (hasShowOnDay th movie day = true ->
             seatsAvailable sort_tickets svc theater movie day
             = Query_threw_length_error)
            /\ (hasShowOnDay th movie day = false ->
                exists tickets,
                  seatsAvailable sort_tickets svc theater movie day
                  = Answered tickets
                  /\ tickets = []))).
Proof.
  intros Hsort. unfold seatsAvailable. split; [intros ->; reflexivity |].
  intros i th E. rewrite E. clear E. cbv zeta.
  pose proof (hasShowOnDay_nonempty th movie day) as Hhas.
  split.
  - intros Hcap.
    destruct (seatsAvailable_loop_returns th movie
                (getListofMovieShowsOn th movie day))
      as (entries & Hloop & Hentries).
    { intros s _. now apply availableSeatIds_returns. }
    rewrite Hloop.
    destruct (Hsort (fun a b => avail_start a <? avail_start b) entries)
      as [Hperm Hasc].
    assert (Hlen : length (sort_tickets (fun a b => avail_start a <? avail_start b)
                             entries)
                   = length (getListofMovieShowsOn th movie day)).
    { rewrite (Permutation_length Hperm). symmetry.
      exact (Forall2_length _ _ _ Hentries). }
    eexists. exists entries. split; [reflexivity |].
    split; [exact Hentries |]. split; [exact Hperm |]. split; [exact Hlen |].
    split; [| split].
    + split.
      * intros Enil. rewrite Enil in Hlen. simpl in Hlen.
        destruct (hasShowOnDay th movie day); [| reflexivity].
        destruct (getListofMovieShowsOn th movie day); [| discriminate].
        exfalso. now apply (proj1 Hhas).
      * intros Hno.
        destruct (getListofMovieShowsOn th movie day) as [| s r] eqn:Es.
        -- now apply length_zero_iff_nil.
        -- assert (C : hasShowOnDay th movie day = true)
             by (apply Hhas; discriminate).
           congruence.
    + intros e He. apply (Permutation_in _ Hperm) in He.
      apply list_elem_of_In, list_elem_of_lookup_1 in He. destruct He as [n Hn].
      destruct (Forall2_lookup_r _ _ _ _ _ Hentries Hn)
        as (s & _ & Hst & _ & Hs).
      rewrite Hst. exact Hs.
    + intros a b x y Hab Hx Hy.
      pose proof (Hasc (key_ltb_strict_weak_order avail_start) a b x y Hab Hx Hy)
        as H.
      now apply Z.ltb_ge in H.
  - intros Hneg. split.
    + intros Hyes. apply Hhas in Hyes.
      destruct (getListofMovieShowsOn th movie day) as [| s r] eqn:Es;
        [congruence |].
      assert (Hin : In s (getListofMovieShowsOn th movie day))
        by (rewrite Es; now left).
      unfold getListofMovieShowsOn in Hin. apply List.filter_In in Hin.
      destruct Hin as [Hin Hday]. unfold on_day in Hday.
      apply andb_true_iff in Hday. destruct Hday as [Hname _].
      cbn [seatsAvailable_loop].
      assert (Hthrow : availableSeatIds th movie (start s)
                       = Query_threw_length_error).
      { apply availableSeatIds_loop_throws; [exact Hneg |].
        exists s. split; [exact Hin |]. unfold same_show.
        now rewrite Hname, Z.eqb_refl. }
      now rewrite Hthrow.
    + intros Hno.
      destruct (getListofMovieShowsOn th movie day) as [| s r] eqn:Es.
      * cbn [seatsAvailable_loop].
        destruct (Hsort (fun a b => avail_start a <? avail_start b) [])
          as [Hperm _].
        eexists. split; [reflexivity |].
        apply Permutation_nil. now symmetry.
      * assert (C : hasShowOnDay th movie day = true)
          by (apply Hhas; discriminate).
        congruence.
Qed.

(** ** The service: what a run keeps *)

Lemma service_continues_call (svc : MovieBookingService) (c : service_call)
    (i : nat) (th : Theater) :
  svc !! i = Some th ->
  exists th', run_service_call svc c !! i = Some th' /\ continues th th'.
Proof.
  intros Hi.
  assert (Hins : forall (svc1 : MovieBookingService) k t t',
            svc1 !! i = Some th -> svc1 !! k = Some t -> continues t t' ->
            exists th', <[k := t']> svc1 !! i = Some th' /\ continues th th').
  { intros svc1 k t t' Hi1 Hk Hc. destruct (decide (k = i)) as [-> | Hne].
    - exists t'. split.
      + apply list_lookup_insert_eq. exact (lookup_lt_Some _ _ _ Hk).
      + rewrite Hi1 in Hk. injection Hk as ->. exact Hc.
    - exists th. split; [| apply continues_refl].
      rewrite list_lookup_insert_ne by exact Hne. exact Hi1. }
  assert (Hadd : forall theater movie start_t p,
            exists th', service_of (Service_addShowInfo svc theater movie start_t p)
                          !! i = Some th' /\ continues th th').
  { intros theater movie start_t p. unfold Service_addShowInfo.
    pose proof (find_or_emplace_spec svc theater) as H.
    assert (Hpre : (fst (find_or_emplace svc theater)) !! i = Some th).
    { unfold find_or_emplace.
      destruct (find_theater svc theater) as [[k t] |]; [exact Hi |].
      cbn [fst]. rewrite lookup_app_l; [exact Hi |].
      exact (lookup_lt_Some _ _ _ Hi). }
    destruct (find_or_emplace svc theater) as [svc1 k]. cbn [fst] in Hpre.
    destruct H as (t & Hk & _ & _). rewrite Hk.
    pose proof (continues_addShowInfo t movie start_t p) as Hc.
    destruct (addShowInfo t movie start_t p) as [t' | t'];
      cbn [service_of state_of] in *; exact (Hins svc1 k t t' Hpre Hk Hc). }
  destruct c as [theater capacity | theater movie start_t p
                | theater movie stime p | theater moviename dt seatIds show_no];
    cbn [run_service_call].
  - exists th. split; [| apply continues_refl]. unfold addTheater.
    destruct (find_theater svc theater) as [[k t] |]; [exact Hi |].
    rewrite lookup_app_l; [exact Hi |]. exact (lookup_lt_Some _ _ _ Hi).
  - apply Hadd.
  - apply Hadd.
  - unfold Service_bookSeats.
    destruct (find_theater svc theater) as [[k t] |] eqn:E.
    + apply find_theater_Some in E. destruct E as (Hk & _ & _). cbn [snd].
      apply (Hins svc k t _ Hi Hk). apply continues_bookSeats.
    + exists th. split; [exact Hi | apply continues_refl].
Qed.

(** X19.  A run of service calls keeps every theater at its place in the
    vector, with its name and capacity; it keeps every show of the theater
    at its place, with its title, start and price; and a seat that is taken
    stays taken. *)
Theorem run_service_calls_continues (svc : MovieBookingService)
    (cs : list service_call) (i : nat) (th : Theater) :
  svc !! i = Some th ->
  exists th', run_service_calls svc cs !! i = Some th' /\ continues th th'.
Proof.
  unfold run_service_calls. revert svc th.
  induction cs as [| c cs IH]; intros svc th Hi; simpl.
  - exists th. split; [exact Hi | apply continues_refl].
  - destruct (service_continues_call svc c i th Hi) as (th1 & H1 & Hc1).
    destruct (IH _ th1 H1) as (th' & H' & Hc').
    exists th'. split; [exact H' |]. exact (continues_trans _ _ _ Hc1 Hc').
Qed.

End Engine.

(** ** The run-time instances *)

Lemma strict_weak_order_negative_transitive (lt : nat -> nat -> bool) (a b c : nat) :
  strict_weak_order lt -> lt a c = true -> lt a b = true \/ lt b c = true.
Proof.
  intros (Hirr & Htrans & Heq) Hac.
  destruct (lt a b) eqn:Hab; [now left |].
  destruct (lt b c) eqn:Hbc; [now right |].
  exfalso.
  destruct (lt b a) eqn:Hba.
  { rewrite (Htrans b a c Hba Hac) in Hbc. discriminate. }
  destruct (lt c b) eqn:Hcb.
  { rewrite (Htrans a c b Hac Hcb) in Hab. discriminate. }
  destruct (Heq a b c Hab Hba Hbc Hcb) as [Hac' _]. congruence.
Qed.

Lemma insert_sorted_Permutation (lt : nat -> nat -> bool) (x : nat) (l : list nat) :
  Permutation (insert_sorted lt x l) (x :: l).
Proof.
  induction l as [| y r IH]; simpl; [reflexivity |].
  destruct (lt y x); [| reflexivity].
  etransitivity; [apply perm_skip, IH | apply perm_swap].
Qed.

Lemma insert_sorted_StronglySorted (lt : nat -> nat -> bool) (x : nat)
    (l : list nat) :
  strict_weak_order lt ->
  StronglySorted (fun a b => lt b a = false) l ->
  StronglySorted (fun a b => lt b a = false) (insert_sorted lt x l).
Proof.
  intros Hswo. induction 1 as [| y r Hr IH Hy]; simpl.
  - constructor; constructor.
  - destruct (lt y x) eqn:Hyx.
    + constructor; [exact IH |].
      rewrite List.Forall_forall in *. intros z Hz.
      apply (Permutation_in _ (insert_sorted_Permutation lt x r)) in Hz.
      destruct Hz as [<- | Hz]; [| now apply Hy].
      destruct (lt x y) eqn:Hxy; [| reflexivity].
      destruct Hswo as (Hirr & Htrans & _).
      pose proof (Htrans y x y Hyx Hxy) as C. rewrite Hirr in C. discriminate.
    + constructor; [now constructor |].
      rewrite List.Forall_forall in *. intros z [<- | Hz]; [exact Hyx |].
      destruct (lt z x) eqn:Hzx; [| reflexivity].
      destruct (strict_weak_order_negative_transitive lt z y x Hswo Hzx)
        as [Hzy | Hyx']; [| congruence].
      rewrite (Hy z Hz) in Hzy. discriminate.
Qed.

Lemma StronglySorted_lookup {A} (R : A -> A -> Prop) (l : list A) (i j : nat)
    (a b : A) :
  StronglySorted R l -> (i < j)%nat -> l !! i = Some a -> l !! j = Some b -> R a b.
Proof.
  intros Hs. revert i j. induction Hs as [| x l Hl IH Hx]; intros i j Hij Ha Hb.
  - discriminate.
  - destruct j as [| j]; [lia |]. destruct i as [| i]; simpl in *.
    + injection Ha as <-. rewrite List.Forall_forall in Hx. apply Hx.
      apply list_elem_of_In. eapply list_elem_of_lookup_2. exact Hb.
    + apply (IH i j); [lia | assumption ..].
Qed.


(** Insertion sort honours the contract of [std::sort]. *)
Lemma insertion_sort_contract : sort_contract insertion_sort.
Proof.
  intros lt l. split.
  - induction l as [| x l IH]; simpl; [reflexivity |].
    etransitivity; [apply insert_sorted_Permutation | now apply perm_skip].
  - intros Hswo i j a b Hij Ha Hb.
    assert (Hs : StronglySorted (fun a b => lt b a = false) (insertion_sort lt l)).
    { clear Ha Hb. induction l as [| x l IH]; simpl; [constructor |].
      now apply insert_sorted_StronglySorted. }
    exact (StronglySorted_lookup _ _ i j a b Hs Hij Ha Hb).
Qed.

(** ** Concrete runs

    A theater "Apsara" under the clock [Clock] and insertion sort; day 20000
    after the epoch. *)

Abbreviation bookSeats_utc :=
  (bookSeats Clock.localtime_r Clock.mktime insertion_sort).
Abbreviation chooseShow_utc :=
  (chooseShow Clock.localtime_r Clock.mktime insertion_sort).

Example toLocalMidnight_utc :
  toLocalMidnight Clock.localtime_r Clock.mktime (Clock.at_time 20000 23 59)
  = Clock.at_time 20000 0 0
  /\ hour_min_local Clock.localtime_r (Clock.at_time 20000 18 30)
     = {| hm_h := 18; hm_m := 30 |}.
Proof. split; reflexivity. Qed.

(** The scenario of the seat tests: capacity 6, one show at 18:00; A2 and A3
    are booked, then A3 is refused. *)
Example seat_test_scenario :
  let t18 := Clock.at_time 20000 18 0 in
  let th1 := state_of (addShowInfo (Theater_new "Apsara" 6) "Inception" t18 12.5) in
  let r2 := bookSeats_utc th1 "Inception" t18 ["A2"; "A3"] 0 in
  let r3 := bookSeats_utc (snd r2) "Inception" t18 ["A3"] 0 in
  availableSeatIds th1 "Inception" t18
  = Answered ["A1"; "A2"; "A3"; "A4"; "A5"; "A6"]
  /\ fst r2 = true
  /\ availableSeatIds (snd r2) "Inception" t18
     = Answered ["A1"; "A4"; "A5"; "A6"]
  /\ r3 = (false, snd r2).
Proof. vm_compute. repeat split. Qed.

(** Identifiers that are not "A" and a plain decimal number, and decode. *)
Example seatIndexFromId_lenient :
  let th := Theater_new "Apsara" 6 in
  seatIndexFromId th "A5" = 4
  /\ seatIndexFromId th "a5" = 4
  /\ seatIndexFromId th "A+5" = 4
  /\ seatIndexFromId th "A05" = 4
  /\ seatIndexFromId th (String "A" (String "5" (String NUL "x"))) = 4
  /\ seatIndexFromId th "A5x" = -1
  /\ seatIndexFromId th "B5" = -1
  /\ seatIndexFromId th "A0" = -1
  /\ seatIndexFromId th "A-5" = -1
  /\ seatIndexFromId th "A7" = -1
  /\ seatIndexFromId th "A" = -1
  /\ seatIndexFromId th "A99999999999999999999" = -1.
Proof. vm_compute. repeat split. Qed.

(** C5, the claim as stated fails: the suffixes " 5", "+5" and "5", NUL, "x"
    are not decimal numbers, and the identifiers made of "A" and each of them
    are decoded to index 4, not to -1. *)
Lemma seat_codec_nonnumeric_suffix_accepted :
  let th := Theater_new "Apsara" 6 in
  (is_decimal " 5" = false
   /\ seatIndexFromId th "A 5" = 4 /\ seatIndexFromId th "A 5" <> -1)
  /\ (is_decimal "+5" = false /\ seatIndexFromId th "A+5" = 4)
  /\ (is_decimal (String "5" (String NUL "x")) = false
      /\ seatIndexFromId th (String "A" (String "5" (String NUL "x"))) = 4).
Proof. vm_compute. repeat split. discriminate. Qed.

Lemma seat_codec_witness :
  let th := Theater_new "Apsara" 6 in
  makeSeatId 5 = "A6" /\ seatIndexFromId th (makeSeatId 5) = 5.
Proof.
  intros th.
  assert (Hcap : maxSeats th <= INT_MAX) by (vm_compute; discriminate).
  destruct (seat_codec th Hcap) as (Hround & _).
  destruct (Hround 5 ltac:(cbn; lia)) as [Hid Hback].
  split; [rewrite Hid; reflexivity | exact Hback].
Defined.

(** C6, the claim as stated fails: a second show with the title and start of
    a show in which A1 is booked is created with both seats free, and the
    free-seat query for that title and start still answers ["A2"]. *)
Lemma addShowInfo_shadowed_by_duplicate :
  let t18 := Clock.at_time 20000 18 0 in
  let th1 := state_of (addShowInfo (Theater_new "Apsara" 2) "Inception" t18 12.5) in
  let r2 := bookSeats_utc th1 "Inception" t18 ["A1"] 0 in
  let o3 := addShowInfo (snd r2) "Inception" t18 12.5 in
  fst r2 = true
  /\ o3 = Returned (state_of o3)
  /\ (exists fresh, vShowInfo (state_of o3) !! 1%nat = Some fresh
                    /\ taken fresh = [false; false] /\ freeTickets fresh = 2)
  /\ availableSeatIds (state_of o3) "Inception" t18 = Answered ["A2"]
  /\ availableSeatIds (state_of o3) "Inception" t18 <> Answered ["A1"; "A2"].
Proof.
  vm_compute. repeat split; try discriminate.
  eexists. repeat split.
Qed.

(** A theater of negative capacity: [addShowInfo] throws, and leaves a show
    with an empty seat map. *)
Example addShowInfo_negative_capacity :
  addShowInfo (Theater_new "Apsara" (-1)) "Inception" 0 12.5
  = Threw_length_error
      {| theaterName := "Apsara"; maxSeats := -1;
         vShowInfo := [{| movieName := "Inception"; start := 0; price := 12.5;
                          freeTickets := -1; taken := [] |}] |}.
Proof. reflexivity. Qed.

Lemma addShowInfo_fresh_show_witness :
  let t18 := Clock.at_time 20000 18 0 in
  exists th',
    addShowInfo (Theater_new "Apsara" 6) "Inception" t18 12.5 = Returned th'
    /\ availableSeatIds th' "Inception" t18
       = Answered ["A1"; "A2"; "A3"; "A4"; "A5"; "A6"].
Proof.
  intros t18.
  assert (Hcap : 0 <= maxSeats (Theater_new "Apsara" 6) <= INT_MAX)
    by (vm_compute; split; discriminate).
  destruct (addShowInfo_fresh_show (Theater_new "Apsara" 6) "Inception" t18 12.5 Hcap)
    as (th' & fresh & Hret & _ & _ & _ & _ & _ & _ & _ & Hquery).
  exists th'. split; [exact Hret |].
  rewrite Hquery; [reflexivity |]. intros s [].
Defined.



(** Time-match mode at 18:00:30, in a theater whose vector holds a show at
    18:45 and then two shows at 18:00 of the same day: the show at 18:45 is
    passed over, and of the two at 18:00 the earlier in the vector is
    resolved; at 19:00 no show is resolved. *)
Lemma bookSeats_time_match_witness :
  let day := 20000 in
  let th := {| theaterName := "Apsara"; maxSeats := 6;
               vShowInfo :=
                 [ {| movieName := "Inception"; start := Clock.at_time day 18 45;
                      price := 15; freeTickets := 6; taken := replicate 6 false |};
                   {| movieName := "Inception"; start := Clock.at_time day 18 0;
                      price := 15; freeTickets := 6; taken := replicate 6 false |};
                   {| movieName := "Inception"; start := Clock.at_time day 18 0;
                      price := 20; freeTickets := 6; taken := replicate 6 false |} ] |} in
  chooseShow_utc th "Inception" (Clock.at_time day 18 0 + 30) 0 = Some 1%nat
  /\ chooseShow_utc th "Inception" (Clock.at_time day 19 0) 0 = None.
Proof.
  intros day th.
  pose proof (bookSeats_time_match Clock.localtime_r Clock.mktime insertion_sort
                th "Inception" (Clock.at_time day 18 0 + 30)) as H1.
  pose proof (bookSeats_time_match Clock.localtime_r Clock.mktime insertion_sort
                th "Inception" (Clock.at_time day 19 0)) as H2.
  cbv zeta in H1, H2.
  destruct H1 as (Hsome & _). destruct H2 as (_ & Hnone & _).
  split.
  - apply Hsome.
    exists {| movieName := "Inception"; start := Clock.at_time 20000 18 0;
              price := 15; freeTickets := 6; taken := replicate 6 false |}.
    split; [reflexivity |]. split.
    + repeat split; vm_compute; reflexivity.
    + intros j s' Hj Hl. destruct j as [| j]; [| lia].
      cbn in Hl. injection Hl as <-. intros (_ & _ & _ & Hm).
      assert (Hne : tm_min (Clock.localtime_r (Clock.at_time 20000 18 45))
                    <> tm_min (Clock.localtime_r (Clock.at_time 20000 18 0 + 30)))
        by (vm_compute; discriminate).
      exact (Hne Hm).
  - apply Hnone. intros j s' Hl (_ & _ & Hh & _).
    assert (Hne : forall t, In t [Clock.at_time 20000 18 45; Clock.at_time 20000 18 0] ->
              tm_hour (Clock.localtime_r t)
              <> tm_hour (Clock.localtime_r (Clock.at_time 20000 19 0))).
    { intros t [<- | [<- | []]]; vm_compute; discriminate. }
    destruct j as [| [| [| j]]]; cbn in Hl; try discriminate Hl;
      injection Hl as <-; apply (Hne _ ltac:(cbn; auto) Hh).
Defined.

(** The same theater, run: a request at 18:00 books in the second show of
    the vector and leaves the show at 18:45 and the later show at 18:00 as
    they were; a request at 18:45 books in the first; a request at 18:44, at
    19:00, or at 18:00 of the next day books nothing. *)
Example bookSeats_time_match_run :
  let day := 20000 in
  let th := {| theaterName := "Apsara"; maxSeats := 6;
               vShowInfo :=
                 [ {| movieName := "Inception"; start := Clock.at_time day 18 45;
                      price := 15; freeTickets := 6; taken := replicate 6 false |};
                   {| movieName := "Inception"; start := Clock.at_time day 18 0;
                      price := 15; freeTickets := 6; taken := replicate 6 false |};
                   {| movieName := "Inception"; start := Clock.at_time day 18 0;
                      price := 20; freeTickets := 6; taken := replicate 6 false |} ] |} in
  let r := bookSeats_utc th "Inception" (Clock.at_time day 18 0) ["A1"] 0 in
  fst r = true
  /\ map taken (vShowInfo (snd r))
     = [replicate 6 false; true :: replicate 5 false; replicate 6 false]
  /\ chooseShow_utc th "Inception" (Clock.at_time day 18 45 + 59) 0 = Some 0%nat
  /\ bookSeats_utc th "Inception" (Clock.at_time day 18 44) ["A1"] 0 = (false, th)
  /\ bookSeats_utc th "Inception" (Clock.at_time day 19 0) ["A1"] 0 = (false, th)
  /\ bookSeats_utc th "Inception" (Clock.at_time (day + 1) 18 0) ["A1"] 0
     = (false, th).
Proof. vm_compute. repeat split. Qed.

Lemma bookSeats_ordinal_witness :
  chooseShow_utc three_shows "Inception" (Clock.at_time 20000 0 1) 2 = Some 2%nat
  /\ start_at three_shows 2 = Clock.at_time 20000 14 0.
Proof.
  assert (Hint : is_int 2) by (vm_compute; split; discriminate).
  assert (Hne : 2 <> 0) by discriminate.
  destruct (bookSeats_ordinal Clock.localtime_r Clock.mktime insertion_sort
              three_shows "Inception" (Clock.at_time 20000 0 1) 2
              insertion_sort_contract Hint Hne) as (_ & _ & _ & Hthree).
  destruct (Hthree 1%nat 2%nat 0%nat eq_refl) as [Hb _].
  - vm_compute. etransitivity; [apply perm_swap | apply perm_skip, perm_swap].
  - vm_compute. split; reflexivity.
  - split; [exact Hb | reflexivity].
Defined.

(** C2, the failing run: capacity 2, one show, and the request {"A1", "A1"}.
    The call answers [true]; seat A1 is taken, seat A2 is free, and
    [freeTickets] is 0. *)
Theorem freeTickets_after_repeated_id :
  let t18 := Clock.at_time 20000 18 0 in
  let th1 := run_calls Clock.localtime_r Clock.mktime insertion_sort
               (Theater_new "Apsara" 2)
               [Call_addShowInfo "Inception" t18 12.5] in
  let r := bookSeats_utc th1 "Inception" t18 ["A1"; "A1"] 0 in
  free_count_ok th1
  /\ fst r = true
  /\ snd r = run_calls Clock.localtime_r Clock.mktime insertion_sort
               (Theater_new "Apsara" 2)
               [Call_addShowInfo "Inception" t18 12.5;
                Call_bookSeats "Inception" t18 ["A1"; "A1"] 0]
  /\ exists show,
       vShowInfo (snd r) = [show]
       /\ taken show = [true; false]
       /\ count_free (taken show) = 1
       /\ freeTickets show = 0
       /\ ~ free_count_ok (snd r).
Proof.
  intros t18 th1 r. split; [| split; [| split]].
  - repeat constructor.
  - reflexivity.
  - reflexivity.
  - eexists. split; [vm_compute; reflexivity |].
    repeat split. intros H. apply List.Forall_inv in H. vm_compute in H.
    discriminate.
Qed.

Lemma bookSeats_repeated_ids_witness :
  let t18 := Clock.at_time 20000 18 0 in
  let show := {| movieName := "Inception"; start := t18; price := 12.5;
                 freeTickets := 2; taken := [false; false] |} in
  let th := {| theaterName := "Apsara"; maxSeats := 2; vShowInfo := [show] |} in
  exists show',
    bookSeats_utc th "Inception" t18 ["A1"; "A1"] 0
    = (true, set_shows th [show'])
    /\ freeTickets show' = 0
    /\ count_free (taken show') = 1.
Proof.
  intros t18 show th.
  assert (Hok : theater_ok th).
  { split; [vm_compute; split; discriminate | repeat constructor]. }
  assert (Hne : ["A1"; "A1"] <> @nil string) by discriminate.
  assert (Hc : chooseShow_utc th "Inception" t18 0 = Some 0%nat) by reflexivity.
  assert (Hk : vShowInfo th !! 0%nat = Some show) by reflexivity.
  assert (Hids : forall id, In id ["A1"; "A1"] ->
            0 <= seatIndexFromId th id < maxSeats th
            /\ taken show !! Z.to_nat (seatIndexFromId th id) = Some false).
  { intros id [<- | [<- | []]]; vm_compute; repeat split; discriminate. }
  assert (Hlen : Z.of_nat (length ["A1"; "A1"]) <= INT_MAX)
    by (vm_compute; discriminate).
  assert (Hfree : is_int (freeTickets show - Z.of_nat (length ["A1"; "A1"])))
    by (vm_compute; split; discriminate).
  destruct (bookSeats_repeated_ids Clock.localtime_r Clock.mktime insertion_sort
              th "Inception" t18 ["A1"; "A1"] 0 0%nat show
              insertion_sort_contract Hok Hne Hc Hk Hids Hlen Hfree)
    as (show' & Hbook & _ & Hft & Hcf & _).
  exists show'. split; [exact Hbook |]. split; [exact Hft | exact Hcf].
Defined.

(** Two threads ask for seat 4 of the one show: the first in time-match
    mode at 18:00 as "A4", the second in ordinal mode, with an instant of the
    morning of that day, as "a4".  The first resolves the show, the second
    takes the mutex first and wins, the first then finds the seat taken. *)
Lemma two_threads_one_seat_witness :
  let t18 := Clock.at_time 20000 18 0 in
  let th1 := state_of (addShowInfo (Theater_new "Apsara" 6) "Inception" t18 12.5) in
  let rq1 := {| rq_moviename := "Inception"; rq_dt := t18;
                rq_seatIds := ["A4"]; rq_show_no := 0 |} in
  let rq2 := {| rq_moviename := "Inception"; rq_dt := Clock.at_time 20000 9 0 + 7;
                rq_seatIds := ["a4"]; rq_show_no := 1 |} in
  let c := run_schedule Clock.localtime_r Clock.mktime insertion_sort rq1 rq2
             [false; true; true; false; true; false; true; false; false]
             (two_calls th1) in
  (cf_first c = Done false /\ cf_second c = Done true)
  /\ sh_theater (cf_shared c) = snd (bookSeats_utc th1 "Inception" t18 ["A4"] 0)
  /\ sh_locked (cf_shared c) = false.
Proof.
  intros t18 th1 rq1 rq2 c.
  assert (Hids1 : rq_seatIds rq1 = ["A4"]) by reflexivity.
  assert (Hids2 : rq_seatIds rq2 = ["a4"]) by reflexivity.
  assert (Hsame : seatIndexFromId th1 "A4" = seatIndexFromId th1 "a4")
    by (vm_compute; reflexivity).
  assert (Hshow : chooseShow_utc th1 (rq_moviename rq1) (rq_dt rq1) (rq_show_no rq1)
                  = chooseShow_utc th1 (rq_moviename rq2) (rq_dt rq2)
                      (rq_show_no rq2))
    by (vm_compute; reflexivity).
  assert (Hlone1 : fst (bookSeats_utc th1 (rq_moviename rq1) (rq_dt rq1)
                          (rq_seatIds rq1) (rq_show_no rq1)) = true)
    by (vm_compute; reflexivity).
  assert (Hlone2 : fst (bookSeats_utc th1 (rq_moviename rq2) (rq_dt rq2)
                          (rq_seatIds rq2) (rq_show_no rq2)) = true)
    by (vm_compute; reflexivity).
  destruct (two_threads_one_seat Clock.localtime_r Clock.mktime insertion_sort
              th1 rq1 rq2 "A4" "a4" Hids1 Hids2 Hsame Hshow Hlone1 Hlone2)
    as (_ & Hall & _).
  destruct (Hall c (run_schedule_steps _ _ _ rq1 rq2 _ _)) as (_ & _ & _ & Hfinal).
  assert (Hdone : all_done c = true) by (vm_compute; reflexivity).
  destruct (Hfinal Hdone) as (Hth & Hl & Hres).
  split; [| split; [exact Hth | exact Hl]].
  destruct Hres as [[H1 H2] | [H1 H2]]; [| split; assumption].
  exfalso. assert (Hc1 : cf_first c = Done false) by (vm_compute; reflexivity).
  congruence.
Defined.

(** Other interleavings: the first thread runs to its end before the second
    starts; both resolve the show before either locks. *)
Example two_threads_schedules :
  let t18 := Clock.at_time 20000 18 0 in
  let th1 := state_of (addShowInfo (Theater_new "Apsara" 6) "Inception" t18 12.5) in
  let rq := {| rq_moviename := "Inception"; rq_dt := t18;
               rq_seatIds := ["A4"]; rq_show_no := 0 |} in
  let run := fun schedule =>
    run_schedule Clock.localtime_r Clock.mktime insertion_sort rq rq schedule
      (two_calls th1) in
  (cf_first (run [false; false; false; false; true; true; true]) = Done true
   /\ cf_second (run [false; false; false; false; true; true; true]) = Done false)
  /\ (cf_first (run [false; true; false; true; false; true; false; true; true])
      = Done true
      /\ cf_second (run [false; true; false; true; false; true; false; true; true])
         = Done false)
  /\ cf_second (run [false; false; true; true; true]) = WantLock 0.
Proof. vm_compute. repeat split. Qed.

(** Requests that differ in the second of the instant and in the spelling of
    the identifier: the thread that takes the mutex first wins. *)
Example two_threads_different_requests :
  let t18 := Clock.at_time 20000 18 0 in
  let th1 := state_of (addShowInfo (Theater_new "Apsara" 6) "Inception" t18 12.5) in
  let rq1 := {| rq_moviename := "Inception"; rq_dt := t18 + 15;
                rq_seatIds := ["A04"]; rq_show_no := 0 |} in
  let rq2 := {| rq_moviename := "Inception"; rq_dt := t18 + 45;
                rq_seatIds := ["a4"]; rq_show_no := 0 |} in
  let run := fun schedule =>
    run_schedule Clock.localtime_r Clock.mktime insertion_sort rq1 rq2 schedule
      (two_calls th1) in
  (cf_first (run [false; false; false; false; true; true; true]) = Done true
   /\ cf_second (run [false; false; false; false; true; true; true]) = Done false)
  /\ (cf_first (run [true; false; true; false; true; true; false; false; false])
      = Done false
      /\ cf_second (run [true; false; true; false; true; true; false; false; false])
         = Done true)
  /\ sh_theater (cf_shared (run [true; false; true; false; true; true; false;
                                 false; false]))
     = snd (bookSeats_utc th1 "Inception" t18 ["A4"] 0).
Proof. vm_compute. repeat split. Qed.

(** ** Insertion sort on any element type *)

Lemma strict_weak_order_on_negative_transitive {A} (lt : A -> A -> bool)
    (a b c : A) :
  strict_weak_order_on lt -> lt a c = true -> lt a b = true \/ lt b c = true.
Proof.
  intros (Hirr & Htrans & Heq) Hac.
  destruct (lt a b) eqn:Hab; [now left |].
  destruct (lt b c) eqn:Hbc; [now right |].
  exfalso.
  destruct (lt b a) eqn:Hba.
  { rewrite (Htrans b a c Hba Hac) in Hbc. discriminate. }
  destruct (lt c b) eqn:Hcb.
  { rewrite (Htrans a c b Hac Hcb) in Hab. discriminate. }
  destruct (Heq a b c Hab Hba Hbc Hcb) as [Hac' _]. congruence.
Qed.

Lemma insert_sorted_on_Permutation {A} (lt : A -> A -> bool) (x : A)
    (l : list A) :
  Permutation (insert_sorted_on lt x l) (x :: l).
Proof.
  induction l as [| y r IH]; simpl; [reflexivity |].
  destruct (lt y x); [| reflexivity].
  etransitivity; [apply perm_skip, IH | apply perm_swap].
Qed.

Lemma insert_sorted_on_StronglySorted {A} (lt : A -> A -> bool) (x : A)
    (l : list A) :
  strict_weak_order_on lt ->
  StronglySorted (fun a b => lt b a = false) l ->
  StronglySorted (fun a b => lt b a = false) (insert_sorted_on lt x l).
Proof.
  intros Hswo. induction 1 as [| y r Hr IH Hy]; simpl.
  - constructor; constructor.
  - destruct (lt y x) eqn:Hyx.
    + constructor; [exact IH |].
      rewrite List.Forall_forall in *. intros z Hz.
      apply (Permutation_in _ (insert_sorted_on_Permutation lt x r)) in Hz.
      destruct Hz as [<- | Hz]; [| now apply Hy].
      destruct (lt x y) eqn:Hxy; [| reflexivity].
      destruct Hswo as (Hirr & Htrans & _).
      pose proof (Htrans y x y Hyx Hxy) as C. rewrite Hirr in C. discriminate.
    + constructor; [now constructor |].
      rewrite List.Forall_forall in *. intros z [<- | Hz]; [exact Hyx |].
      destruct (lt z x) eqn:Hzx; [| reflexivity].
      destruct (strict_weak_order_on_negative_transitive lt z y x Hswo Hzx)
        as [Hzy | Hyx']; [| congruence].
      rewrite (Hy z Hz) in Hzy. discriminate.
Qed.

(** Insertion sort honours the contract of [std::sort] on every element
    type. *)
Lemma insertion_sort_on_contract {A} : sort_contract_on (@insertion_sort_on A).
Proof.
  intros lt l. split.
  - induction l as [| x l IH]; simpl; [reflexivity |].
    etransitivity; [apply insert_sorted_on_Permutation | now apply perm_skip].
  - intros Hswo i j a b Hij Ha Hb.
    assert (Hs : StronglySorted (fun a b => lt b a = false)
                   (insertion_sort_on lt l)).
    { clear Ha Hb. induction l as [| x l IH]; simpl; [constructor |].
      now apply insert_sorted_on_StronglySorted. }
    exact (StronglySorted_lookup _ _ i j a b Hs Hij Ha Hb).
Qed.

(** ** Concrete runs of the further properties *)

Lemma availableSeatIds_after_bookSeats_witness :
  let t18 := Clock.at_time 20000 18 0 in
  let th' := snd (bookSeats_utc three_shows "Inception" t18 ["A1"; "A2"] 0) in
  availableSeatIds th' "Inception" t18 = Answered ["A3"; "A4"; "A5"; "A6"]
  /\ availableSeatIds th' "Inception" (Clock.at_time 20000 10 0)
     = Answered ["A1"; "A2"; "A3"; "A4"; "A5"; "A6"]
  /\ availableSeatIds th' "Tenet" t18 = Answered [].
Proof.
  intros t18 th'.
  pose (show := {| movieName := "Inception"; start := t18; price := 15;
                   freeTickets := 6; taken := replicate 6 false |}).
  pose (show10 := {| movieName := "Inception"; start := Clock.at_time 20000 10 0;
                     price := 15; freeTickets := 6; taken := replicate 6 false |}).
  assert (Hok : theater_ok three_shows)
    by (split; [vm_compute; split; discriminate | repeat constructor]).
  assert (Hb : bookSeats_utc three_shows "Inception" t18 ["A1"; "A2"] 0
               = (true, th')) by (vm_compute; reflexivity).
  assert (Hk0 : chooseShow_utc three_shows "Inception" t18 0 = Some 0%nat)
    by (vm_compute; reflexivity).
  destruct (availableSeatIds_after_bookSeats Clock.localtime_r Clock.mktime
              insertion_sort three_shows th' "Inception" t18 ["A1"; "A2"] 0
              Hok Hb) as (k & Hk & Hquery).
  assert (Ek : k = 0%nat) by congruence. subst k.
  split; [| split].
  - destruct (Hquery "Inception" t18) as [_ Hfirst].
    destruct (Hfirst 0%nat show) as (ids & Hids & Hafter).
    { split; [reflexivity |]. split; [vm_compute; reflexivity |].
      intros j s' Hj. lia. }
    assert (Eids : availableSeatIds three_shows "Inception" t18
                   = Answered ["A1"; "A2"; "A3"; "A4"; "A5"; "A6"])
      by (vm_compute; reflexivity).
    assert (ids = ["A1"; "A2"; "A3"; "A4"; "A5"; "A6"]) by congruence.
    subst ids. etransitivity; [exact Hafter |]. vm_compute. reflexivity.
  - destruct (Hquery "Inception" (Clock.at_time 20000 10 0)) as [_ Hfirst].
    destruct (Hfirst 1%nat show10) as (ids & Hids & Hafter).
    { split; [reflexivity |]. split; [vm_compute; reflexivity |].
      intros j s' Hj Hl. destruct j as [| j]; [| lia].
      injection Hl as <-. vm_compute. reflexivity. }
    assert (Eids : availableSeatIds three_shows "Inception"
                     (Clock.at_time 20000 10 0)
                   = Answered ["A1"; "A2"; "A3"; "A4"; "A5"; "A6"])
      by (vm_compute; reflexivity).
    assert (ids = ["A1"; "A2"; "A3"; "A4"; "A5"; "A6"]) by congruence.
    subst ids. exact Hafter.
  - destruct (Hquery "Tenet" t18) as [Hnone _].
    apply Hnone. intros s Hs. cbn in Hs.
    destruct Hs as [<- | [<- | [<- | []]]]; reflexivity.
Defined.

Lemma bookSeats_again_refused_witness :
  let t18 := Clock.at_time 20000 18 0 in
  let th' := snd (bookSeats_utc three_shows "Inception" t18 ["A1"; "A2"] 0) in
  bookSeats_utc th' "Inception" t18 ["a2"; "A3"] 0 = (false, th').
Proof.
  intros t18 th'.
  assert (Hb : bookSeats_utc three_shows "Inception" t18 ["A1"; "A2"] 0
               = (true, th')) by (vm_compute; reflexivity).
  apply (bookSeats_again_refused Clock.localtime_r Clock.mktime insertion_sort
           three_shows th' "Inception" t18 ["A1"; "A2"] ["a2"; "A3"] 0 Hb).
  exists "A2", "a2". split; [right; left; reflexivity |].
  split; [left; reflexivity | vm_compute; reflexivity].
Defined.

Lemma no_show_on_day_witness :
  let t18 := Clock.at_time 20001 18 0 in
  bookSeats_utc three_shows "Inception" t18 ["A1"] 1 = (false, three_shows)
  /\ availableSeatIds three_shows "Inception" t18 = Answered [].
Proof.
  intros t18.
  assert (Hno : hasShowOnDay Clock.localtime_r Clock.mktime three_shows
                  "Inception" t18 = false) by (vm_compute; reflexivity).
  destruct (no_show_on_day Clock.localtime_r Clock.mktime insertion_sort
              three_shows "Inception" t18 Hno) as [Hbook Hfree].
  split; [apply Hbook | exact Hfree].
Defined.

Lemma bookSeats_reads_day_and_minute_witness :
  bookSeats_utc three_shows "Inception" (Clock.at_time 20000 18 0) ["A1"] 0
  = bookSeats_utc three_shows "Inception" (Clock.at_time 20000 18 0 + 59)
      ["A1"] 0.
Proof.
  apply bookSeats_reads_day_and_minute.
  - vm_compute. reflexivity.
  - right. vm_compute. reflexivity.
Defined.

Lemma today_show_bookable_witness :
  let now_t := Clock.at_time 20000 9 30 + 12 in
  let dt := Clock.at_time 20000 21 15 in
  let th' := state_of
               (addShowInfo_tm Clock.mktime (Theater_new "Apsara" 6) "Tenet"
                  (make_today_tm Clock.localtime_r now_t 21 15) 9.5) in
  getTodaysDate Clock.localtime_r Clock.mktime now_t 21 15 = Some dt
  /\ hasShowOnDay Clock.localtime_r Clock.mktime th' "Tenet" dt = true
  /\ fst (bookSeats_utc th' "Tenet" dt ["A1"; "A6"] 0) = true.
Proof.
  intros now_t dt th'.
  assert (Hcap : 0 <= maxSeats (Theater_new "Apsara" 6) <= INT_MAX)
    by (vm_compute; split; discriminate).
  assert (Hd : getTodaysDate Clock.localtime_r Clock.mktime now_t 21 15 = Some dt)
    by (vm_compute; reflexivity).
  destruct (today_show_bookable Clock.localtime_r Clock.mktime insertion_sort
              (Theater_new "Apsara" 6) "Tenet" now_t 21 15 9.5%float dt Hcap Hd)
    as (Hhas & _ & Hbook).
  split; [exact Hd |]. split; [exact Hhas |].
  destruct Hbook as [_ Hbook]; [intros s [] |].
  apply Hbook; [discriminate |].
  intros id [<- | [<- | []]]; vm_compute; split; (discriminate || reflexivity).
Defined.

Lemma capacity_not_positive_witness :
  let t18 := Clock.at_time 20000 18 0 in
  let th := run_calls Clock.localtime_r Clock.mktime insertion_sort
              (Theater_new "Apsara" (-3))
              [Call_addShowInfo "Inception" t18 12.5] in
  seatIndexFromId th "A1" = -1
  /\ bookSeats_utc th "Inception" t18 ["A1"] 0 = (false, th)
  /\ availableSeatIds th "Inception" t18 = Query_threw_length_error
  /\ availableSeatIds th "Tenet" t18 = Answered [].
Proof.
  intros t18 th.
  assert (Hcap : maxSeats th <= 0) by (vm_compute; discriminate).
  destruct (capacity_not_positive Clock.localtime_r Clock.mktime insertion_sort
              th Hcap) as (Hidx & Hbook & Hfree).
  split; [apply Hidx |]. split; [apply Hbook |]. split.
  - apply (Hfree "Inception" t18).
    + vm_compute. split; [discriminate | reflexivity].
    + eexists. split; [left; reflexivity | vm_compute; reflexivity].
  - apply (Hfree "Tenet" t18). right.
    intros s [<- | []]. reflexivity.
Defined.

Lemma selectTheater_spec_witness :
  let day := Clock.at_time 20000 0 0 in
  let shows := selectTheater Clock.localtime_r Clock.mktime
                 (@insertion_sort_on ShowInfo) [three_shows] "Apsara" day in
  selectTheater Clock.localtime_r Clock.mktime (@insertion_sort_on ShowInfo)
    [three_shows] "Odeon" day = []
  /\ length shows = 3%nat
  /\ forall a b x y, (a < b)%nat ->
       shows !! a = Some x -> shows !! b = Some y -> start x <= start y.
Proof.
  intros day shows.
  destruct (selectTheater_spec Clock.localtime_r Clock.mktime
              (@insertion_sort_on ShowInfo) [three_shows] "Odeon" day
              insertion_sort_on_contract) as [Hnone _].
  destruct (selectTheater_spec Clock.localtime_r Clock.mktime
              (@insertion_sort_on ShowInfo) [three_shows] "Apsara" day
              insertion_sort_on_contract) as [_ Hsome].
  assert (E : find_theater [three_shows] "Apsara" = Some (0%nat, three_shows))
    by (vm_compute; reflexivity).
  destruct (Hsome 0%nat three_shows E) as (Hperm & _ & Hasc).
  split; [apply Hnone; vm_compute; reflexivity |].
  split; [| exact Hasc].
  etransitivity; [exact (Permutation_length Hperm) |]. vm_compute. reflexivity.
Defined.

Lemma seatsAvailable_spec_witness :
  let day := Clock.at_time 20000 0 0 in
  let odeon := state_of (addShowInfo (Theater_new "Odeon" (-1)) "Inception"
                           (Clock.at_time 20000 18 0) 12.5) in
  let svc := [three_shows; odeon] in
  let ask := seatsAvailable Clock.localtime_r Clock.mktime
               (@insertion_sort_on ShowSeatsAvailable) svc in
  ask "Rex" "Inception" day = Answered []
  /\ (exists tickets,
        ask "Apsara" "Inception" day = Answered tickets
        /\ length tickets = 3%nat
        /\ forall e, In e tickets ->
             availableSeatIds three_shows "Inception" (avail_start e)
             = Answered (seats e))
  /\ ask "Odeon" "Inception" day = Query_threw_length_error.
Proof.
  intros day odeon svc ask.
  destruct (seatsAvailable_spec Clock.localtime_r Clock.mktime
              (@insertion_sort_on ShowSeatsAvailable) svc "Rex"
              "Inception" day insertion_sort_on_contract) as [Hnone _].
  destruct (seatsAvailable_spec Clock.localtime_r Clock.mktime
              (@insertion_sort_on ShowSeatsAvailable) svc "Apsara"
              "Inception" day insertion_sort_on_contract) as [_ Hapsara].
  destruct (seatsAvailable_spec Clock.localtime_r Clock.mktime
              (@insertion_sort_on ShowSeatsAvailable) svc "Odeon"
              "Inception" day insertion_sort_on_contract) as [_ Hodeon].
  assert (E0 : find_theater svc "Apsara" = Some (0%nat, three_shows))
    by (vm_compute; reflexivity).
  assert (E1 : find_theater svc "Odeon" = Some (1%nat, odeon))
    by (vm_compute; reflexivity).
  split; [apply Hnone; vm_compute; reflexivity |]. split.
  - destruct (Hapsara 0%nat three_shows E0) as [Hreturns _].
    destruct Hreturns as (tickets & entries & Heq & _ & _ & Hlen & _ & Hseats & _).
    { vm_compute. split; discriminate. }
    exists tickets. split; [exact Heq |]. split; [| exact Hseats].
    etransitivity; [exact Hlen |]. vm_compute. reflexivity.
  - destruct (Hodeon 1%nat odeon E1) as [_ Hthrows].
    destruct Hthrows as [Hyes _].
    { vm_compute. split; [discriminate | reflexivity]. }
    apply Hyes. vm_compute. reflexivity.
Defined.

Lemma run_service_calls_continues_witness :
  let t18 := Clock.at_time 20000 18 0 in
  exists th',
    run_service_calls Clock.localtime_r Clock.mktime insertion_sort
      [three_shows]
      [SCall_bookSeats "Apsara" "Inception" t18 ["A1"] 0;
       SCall_addTheater "Odeon" 5;
       SCall_addShowInfo "Apsara" "Tenet" t18 9.5] !! 0%nat = Some th'
    /\ continues three_shows th'.
Proof.
  intros t18.
  apply (run_service_calls_continues Clock.localtime_r Clock.mktime
           insertion_sort [three_shows]).
  reflexivity.
Defined.
